(** * Deliveraite: the document-stream reconciliation engine

  A shallow embedding of the client-side engine of Deliveraite: the JSON
  utilities imported by the document generator view ([smartParseJson],
  [tryExtractValidJson], [repairTruncatedJson], [validateAndFixTargetWords],
  [parseNestedOutline]) and, from the view itself, the hierarchy
  reconstruction, the tree of the outline and the heading levels, the
  splitting of the response stream into records, the streaming tag
  demultiplexer, the merge of agent-state snapshots, the three merges of
  sub-sections, loading and saving the outline, the scan for the array in
  an outline response and the page counter.

  JavaScript strings are sequences of UTF-16 code units; they are modelled
  as [list N].  Arrays are lists, plain objects used as dictionaries are
  [gmap]s, [Set]s are [gset]s. *)

From Stdlib Require Import ZArith NArith QArith Qround Lqa List Lia Sorted.
From Stdlib Require Import Strings.String Strings.Ascii Strings.Byte.
From stdpp Require Import base option list gmap.

Set Default Proof Using "Type".
Local Open Scope Z_scope.

(** ** JavaScript strings *)

Module JsString.

(** A string is the list of its UTF-16 code units. *)
Abbreviation str := (list N).

(** Decoding of a UTF-8 literal into UTF-16 code units, so that titles can
    be written down as ordinary string literals. *)
Definition cont (b : N) : N := N.land b 63%N.

Definition utf16_of_codepoint (cp : N) : str :=
  if (cp <? 65536)%N then [cp]
  else let v := (cp - 65536)%N in
       [(55296 + N.shiftr v 10)%N; (56320 + N.land v 1023)%N].

Fixpoint utf16_of_utf8 (bs : list N) : str :=
  match bs with
  | [] => []
  | b :: rest =>
      if (b <? 128)%N then b :: utf16_of_utf8 rest
      else if (b <? 224)%N then
        match rest with
        | b1 :: rest1 =>
            (N.shiftl (N.land b 31%N) 6 + cont b1)%N :: utf16_of_utf8 rest1
        | _ => [b]
        end
      else if (b <? 240)%N then
        match rest with
        | b1 :: b2 :: rest2 =>
            (N.shiftl (N.land b 15%N) 12 + N.shiftl (cont b1) 6 + cont b2)%N
              :: utf16_of_utf8 rest2
        | _ => [b]
        end
      else
        match rest with
        | b1 :: b2 :: b3 :: rest3 =>
            utf16_of_codepoint
              (N.shiftl (N.land b 7%N) 18 + N.shiftl (cont b1) 12
               + N.shiftl (cont b2) 6 + cont b3)%N
              ++ utf16_of_utf8 rest3
        | _ => [b]
        end
  end.

Definition js (s : string) : str :=
  utf16_of_utf8 (List.map Byte.to_N (list_byte_of_string s)).

(** The same, with every apostrophe of the literal standing for a double
    quote (code unit 34): [jsq "{'a':1}"] is the JavaScript string
    [{"a":1}]. *)
Definition jsq (s : string) : str :=
  List.map (fun c => if (c =? 39)%N then 34%N else c) (js s).

(** ECMAScript LineTerminator and WhiteSpace code units; the regular
    expression class [\s] and [String.prototype.trim] use their union. *)
Definition isLineTerminator (c : N) : bool :=
  (c =? 10)%N || (c =? 13)%N || (c =? 8232)%N || (c =? 8233)%N.

Definition isSpace (c : N) : bool :=
  isLineTerminator c
  || (c =? 9)%N || (c =? 11)%N || (c =? 12)%N || (c =? 32)%N
  || (c =? 160)%N || (c =? 5760)%N
  || ((8192 <=? c)%N && (c <=? 8202)%N)
  || (c =? 8239)%N || (c =? 8287)%N || (c =? 12288)%N || (c =? 65279)%N.

Definition isDigit (c : N) : bool := (48 <=? c)%N && (c <=? 57)%N.

(** [\s*] at the head of a string: the longest run of white space is
    dropped. *)
Fixpoint skipSpaces (s : str) : str :=
  match s with
  | c :: t => if isSpace c then skipSpaces t else s
  | [] => []
  end.

Definition trimStart (s : str) : str := skipSpaces s.
Definition trimEnd (s : str) : str := rev (skipSpaces (rev s)).
Definition trim (s : str) : str := trimEnd (trimStart s).

(** [s.startsWith(p)]; on success the rest of [s] after [p]. *)
Fixpoint stripPrefix (p s : str) : option str :=
  match p, s with
  | [], _ => Some s
  | a :: p', b :: s' => if (a =? b)%N then stripPrefix p' s' else None
  | _ :: _, [] => None
  end.

Definition startsWith (p s : str) : bool :=
  match stripPrefix p s with Some _ => true | None => false end.

(** Decimal rendering of a non-negative integer, as template literals and
    string concatenation do it. *)
Fixpoint digitsOf (fuel : nat) (n : N) (acc : str) : str :=
  match fuel with
  | O => acc
  | S f =>
      let acc' := (48 + n mod 10)%N :: acc in
      if (n <? 10)%N then acc' else digitsOf f (n / 10)%N acc'
  end.

Definition showN (n : N) : str := digitsOf (S (N.to_nat (N.log2 n))) n [].

Definition showZ (z : Z) : str :=
  if z <? 0 then 45%N :: showN (Z.to_N (- z)) else showN (Z.to_N z).

End JsString.
Import JsString.

(** ** Pagination: the page counter *)

Module Pagination.

Local Open Scope Q_scope.

(** [const PAGE_HEIGHT_PX = 1122.5] and [const PAGE_GAP_PX = 40]. *)
Definition PAGE_HEIGHT_PX : Q := 2245 # 2.
Definition PAGE_GAP_PX : Q := 40.

(** [updatePageCount].  [contentViewRef] is [None] when the preview is not
    mounted (the function returns without touching the counter) and
    otherwise carries the [offsetHeight] measured in the tick after
    [optimizePageBreaks]; the result is the new value of [pageCount].
    Heights are rationals: a pixel height and the two constants are exact
    as doubles, and for any height a page can have the rounded quotient has
    the same ceiling as the exact one (a quotient that is not an integer is
    at least 1/2325 away from one). *)
Definition updatePageCount (contentViewRef : option Q) (pageCount : Z) : Z :=
  match contentViewRef with
  | None => pageCount
  | Some height =>
      Z.max 1 (Qceiling (height / (PAGE_HEIGHT_PX + PAGE_GAP_PX)))
  end.

End Pagination.

(** ** Word budgets of outline items *)

Module TargetWords.

(** A JavaScript number as the comparisons and [Math.min]/[Math.max] below
    see it: a rational (every finite double is one), or [None] for [NaN].
    An infinite value, which [JSON.parse] gives for a literal beyond the
    range of doubles, behaves against the finite constants of this function
    as any rational beyond them does. *)
Definition JsNumber : Type := option Q.

(** [a > b] and [a < b]: false as soon as one side is [NaN]. *)
Definition greater (a b : JsNumber) : bool :=
  match a, b with
  | Some x, Some y => negb (Qle_bool x y)
  | _, _ => false
  end.

Definition less (a b : JsNumber) : bool :=
  match a, b with
  | Some x, Some y => negb (Qle_bool y x)
  | _, _ => false
  end.

(** [Math.max(a, b)] and [Math.min(a, b)]: [NaN] as soon as one argument
    is. *)
Definition mathMax (a b : JsNumber) : JsNumber :=
  match a, b with
  | Some x, Some y => Some (if Qle_bool x y then y else x)
  | _, _ => None
  end.

Definition mathMin (a b : JsNumber) : JsNumber :=
  match a, b with
  | Some x, Some y => Some (if Qle_bool x y then x else y)
  | _, _ => None
  end.

(** [a < b] on two strings: the order of their code units. *)
Fixpoint strLess (a b : str) : bool :=
  match a, b with
  | _, [] => false
  | [], _ :: _ => true
  | x :: a', y :: b' =>
      if (x <? y)%N then true else if (y <? x)%N then false else strLess a' b'
  end.

(** The [level] field of a parsed item, by what the function does with it:
    it is compared with [===] to the numbers 1, 2 and 3 and it is used as a
    property key of the table [maxWords].  A number; a value that is not a
    number and whose key is the numeral of [k] (the string ['2'], the array
    [[2]]); a value whose key names a member that the table object inherits
    (['constructor'], ['toString'], ['__proto__'], ...), with the string that
    a comparison makes of this member; or any other value, an absent level
    included. *)
Inductive Level : Type :=
| LevelNumber (n : Q)
| LevelKey (k : Z)
| LevelInherited (text : str)
| LevelOther.

(** The [targetWords] field of a parsed item: a number; a string, an array
    or an object, with the string that a comparison makes of it and the
    number that this string converts to; or any other value (absent, [null],
    a boolean) with the number it converts to. *)
Inductive Words : Type :=
| WordsNumber (n : JsNumber)
| WordsText (text : str) (toNumber : JsNumber)
| WordsOther (toNumber : JsNumber).

Definition toNumber (w : Words) : JsNumber :=
  match w with
  | WordsNumber n => n
  | WordsText _ n => n
  | WordsOther n => n
  end.

(** What [maxWords[item.level] || maxWords[4]] gives: a number of the table,
    or an inherited member, which is a function or an object. *)
Inductive Bound : Type :=
| BoundNumber (n : Q)
| BoundText (text : str).

(** An element of the outline array returned by the model, or of a
    [children] array: [null], on which reading [item.level] throws; or any
    other value, by the fields that [validateAndFixTargetWords] reads.
    [children] is [None] when the field is absent or not an array.  A
    number, a string, a boolean or an array has none of these fields: it is
    an item with [LevelOther], [WordsOther None] and no children. *)
#[warnings="-register-all"]
Inductive OutlineItem : Type :=
| ItemNull
| mkItem (title : str) (level : Level) (targetWords : Words)
         (children : option (list OutlineItem)).

Definition itemTitle (it : OutlineItem) : str :=
  match it with mkItem t _ _ _ => t | ItemNull => [] end.
Definition itemLevel (it : OutlineItem) : Level :=
  match it with mkItem _ l _ _ => l | ItemNull => LevelOther end.
Definition itemTargetWords (it : OutlineItem) : Words :=
  match it with mkItem _ _ w _ => w | ItemNull => WordsOther None end.
Definition itemChildren (it : OutlineItem) : option (list OutlineItem) :=
  match it with mkItem _ _ _ c => c | ItemNull => None end.

(** [item.level === k] *)
Definition isLevel (level : Level) (k : Z) : bool :=
  match level with
  | LevelNumber n => Qeq_bool n (inject_Z k)
  | _ => false
  end.

(** The property key of [item.level] is the numeral of [k]. *)
Definition keyIs (level : Level) (k : Z) : bool :=
  match level with
  | LevelNumber n => Qeq_bool n (inject_Z k)
  | LevelKey j => (j =? k)%Z
  | _ => false
  end.

(** [maxWords[item.level] || maxWords[4]]: the entry of the table for the
    keys 1 to 4, the entry of 4 when the key is not in the table, and for the
    name of an inherited member this member, which is truthy. *)
Definition levelMax (level : Level) : Bound :=
  match level with
  | LevelInherited text => BoundText text
  | _ =>
      BoundNumber (if keyIs level 1 then 150000
                   else if keyIs level 2 then 80000
                   else if keyIs level 3 then 20000
                   else 15000)%Q
  end.

(** [item.targetWords > levelMax]: against a number both sides are compared
    as numbers; against an inherited member two strings are compared as
    strings, and otherwise the member converts to [NaN]. *)
Definition exceeds (w : Words) (b : Bound) : bool :=
  match b with
  | BoundNumber m => greater (toNumber w) (Some m)
  | BoundText t =>
      match w with
      | WordsText s _ => strLess t s
      | _ => false
      end
  end.

Definition minWords : Q := 50.

(** The corrected value written back when the budget is out of range. *)
Definition correctedWords (level : Level) (targetWords : Words) : JsNumber :=
  if isLevel level 1 then
    mathMax (Some minWords) (mathMin (Some 100000%Q) (toNumber targetWords))
  else if isLevel level 2 then
    mathMax (Some minWords) (mathMin (Some 50000%Q) (toNumber targetWords))
  else if isLevel level 3 then
    mathMax (Some minWords) (mathMin (Some 10000%Q) (toNumber targetWords))
  else
    mathMax (Some minWords) (mathMin (Some 5000%Q) (toNumber targetWords)).

Definition fixWords (level : Level) (targetWords : Words) : Words :=
  if exceeds targetWords (levelMax level)
     || less (toNumber targetWords) (Some minWords)
  then WordsNumber (correctedWords level targetWords)
  else targetWords.

(** [items.map(f)] for a callback that can throw: the elements are visited
    in order and the first exception ends the call. *)
Definition mapItems {A B : Type} (f : A -> option B)
  : list A -> option (list B) :=
  fix go (l : list A) : option (list B) :=
    match l with
    | [] => Some []
    | x :: l' =>
        match f x with
        | None => None
        | Some y =>
            match go l' with
            | None => None
            | Some k => Some (y :: k)
            end
        end
    end.

(** The callback of [items.map] in [validateAndFixTargetWords]; [None] is
    the [TypeError] of reading a field of [null]. *)
Fixpoint fixItem (it : OutlineItem) : option OutlineItem :=
  match it with
  | ItemNull => None
  | mkItem t l w ch =>
      let w := fixWords l w in
      match ch with
      | Some cs =>
          match mapItems fixItem cs with
          | Some cs => Some (mkItem t l w (Some cs))
          | None => None
          end
      | None => Some (mkItem t l w None)
      end
  end.

(** [validateAndFixTargetWords(items)] for an array [items], which is what
    its caller and its recursive call pass. *)
Definition validateAndFixTargetWords (items : list OutlineItem)
  : option (list OutlineItem) := mapItems fixItem items.


(** The bound of the data model for a nesting level: the budget is (or
    converts to) a number between the floor and the entry that the level
    selects. *)
Definition withinBound (level : Level) (w : Words) : Prop :=
  exists n m,
    toNumber w = Some n /\ levelMax level = BoundNumber m
    /\ (minWords <= n)%Q /\ (n <= m)%Q.


(** [P] holds of an item and of all its descendants, none of which is
    [null]. *)
Fixpoint everywhere (P : OutlineItem -> Prop) (it : OutlineItem) : Prop :=
  match it with
  | ItemNull => False
  | mkItem _ _ _ ch =>
      P it /\
      match ch with
      | Some cs => fold_right (fun c acc => everywhere P c /\ acc) True cs
      | None => True
      end
  end.


Section Induction.
Variable P : OutlineItem -> Prop.
Hypothesis null : P ItemNull.
Hypothesis leaf : forall t l w, P (mkItem t l w None).
Hypothesis node : forall t l w cs, Forall P cs -> P (mkItem t l w (Some cs)).

Fixpoint OutlineItem_nested_ind (it : OutlineItem) : P it :=
  match it with
  | ItemNull => null
  | mkItem t l w None => leaf t l w
  | mkItem t l w (Some cs) =>
      node t l w cs
        ((fix all (l : list OutlineItem) : Forall P l :=
            match l with
            | [] => @List.Forall_nil _ P
            | c :: l' => @List.Forall_cons _ P c l' (OutlineItem_nested_ind c) (all l')
            end) cs)
  end.
End Induction.

End TargetWords.

(** ** Regular-expression replacement *)

Module Regex.

(** A pattern anchored at the head of the subject: on a match it yields the
    replacement text and what is left of the subject after the match.  All
    patterns used below consume at least one code unit. *)
Definition matcher := str -> option (str * str).

(** [subject.replace(/re/g, ...)]: the subject is scanned from left to
    right; where the pattern matches, the replacement is emitted and the
    scan resumes after the match, and elsewhere one code unit is copied.
    [skip] counts the code units of the current match still to be passed
    over. *)
Fixpoint gsubFrom (m : matcher) (skip : nat) (s : str) : str :=
  match s with
  | [] => []
  | c :: t =>
      match skip with
      | S k => gsubFrom m k t
      | O =>
          match m s with
          | Some (out, rest) => out ++ gsubFrom m (length t - length rest) t
          | None => c :: gsubFrom m 0 t
          end
      end
  end.

Definition gsub (m : matcher) (s : str) : str := gsubFrom m 0 s.

(** [subject.replace(/re/, ...)] without the [g] flag: only the leftmost
    match is replaced. *)
Fixpoint replaceFirst (m : matcher) (s : str) : str :=
  match m s with
  | Some (out, rest) => out ++ rest
  | None =>
      match s with
      | [] => []
      | c :: t => c :: replaceFirst m t
      end
  end.

(** Whether the pattern matches somewhere in the subject. *)
Fixpoint occurs (m : matcher) (s : str) : bool :=
  match m s with
  | Some _ => true
  | None =>
      match s with
      | [] => false
      | _ :: t => occurs m t
      end
  end.

(** The longest run of white space at the head, [\s*] as a capture. *)
Fixpoint takeSpaces (s : str) : str :=
  match s with
  | c :: t => if isSpace c then c :: takeSpaces t else []
  | [] => []
  end.

(** [[a-zA-Z0-9_]] *)
Definition isWord (c : N) : bool :=
  ((97 <=? c)%N && (c <=? 122)%N) || ((65 <=? c)%N && (c <=? 90)%N)
  || isDigit c || (c =? 95)%N.

Fixpoint takeWord (s : str) : str :=
  match s with
  | c :: t => if isWord c then c :: takeWord t else []
  | [] => []
  end.

Fixpoint dropWord (s : str) : str :=
  match s with
  | c :: t => if isWord c then dropWord t else s
  | [] => []
  end.

End Regex.
Import Regex.

(** ** Tolerant JSON repair *)

Module Repair.

Definition QUOTE : N := 34.
Definition BACKSLASH : N := 92.
Definition COMMA : N := 44.
Definition COLON : N := 58.
Definition LBRACE : N := 123.
Definition RBRACE : N := 125.
Definition LBRACKET : N := 91.
Definition RBRACKET : N := 93.

(** [/^```json\s*/] replaced by the empty string. *)
Definition stripJsonFence (s : str) : str :=
  match stripPrefix (js "```json") s with
  | Some rest => skipSpaces rest
  | None => s
  end.

(** [/```$/] replaced by the empty string. *)
Definition stripFenceEnd (s : str) : str :=
  match stripPrefix (js "```") (rev s) with
  | Some rest => rev rest
  | None => s
  end.

(** Step 2: the scan that tracks [inString] and [escaped]; the result is
    the final value of [inString]. *)
Fixpoint quoteScan (inString escaped : bool) (s : str) : bool :=
  match s with
  | [] => inString
  | c :: t =>
      if (c =? BACKSLASH)%N && negb escaped then quoteScan inString true t
      else if (c =? QUOTE)%N && negb escaped then quoteScan (negb inString) false t
      else quoteScan inString false t
  end.

Definition closeString (s : str) : str :=
  if quoteScan false false s then s ++ [QUOTE] else s.

(** Step 3a: [/,\s*([}\]])/g] replaced by ['$1']. *)
Definition commaBeforeCloser : matcher := fun s =>
  match s with
  | c :: t =>
      if (c =? COMMA)%N then
        match skipSpaces t with
        | d :: rest =>
            if (d =? RBRACE)%N || (d =? RBRACKET)%N then Some ([d], rest)
            else None
        | [] => None
        end
      else None
  | [] => None
  end.

(** Step 3b: [/,\s*$/] replaced by the empty string. *)
Definition commaAtEnd : matcher := fun s =>
  match s with
  | c :: t =>
      if (c =? COMMA)%N then
        match skipSpaces t with
        | [] => Some ([], [])
        | _ :: _ => None
        end
      else None
  | [] => None
  end.

(** Step 4: [/}\s*{/g] replaced by ['},{'] and [/]\s*\[/g] by ['],[']. *)
Definition gapBetween (close open : N) : matcher := fun s =>
  match s with
  | c :: t =>
      if (c =? close)%N then
        match skipSpaces t with
        | d :: rest =>
            if (d =? open)%N then Some ([close; COMMA; open], rest) else None
        | [] => None
        end
      else None
  | [] => None
  end.

(** Step 5: the pattern with the three groups [[{,]\s*], [[a-zA-Z0-9_]+]
    and [\s*:], flag [g]; the second group is put between double quotes. *)
Definition bareKey : matcher := fun s =>
  match s with
  | c :: t =>
      if (c =? LBRACE)%N || (c =? COMMA)%N then
        let afterSpaces := skipSpaces t in
        match takeWord afterSpaces with
        | [] => None
        | key =>
            let afterKey := dropWord afterSpaces in
            match skipSpaces afterKey with
            | d :: rest =>
                if (d =? COLON)%N then
                  Some (c :: takeSpaces t ++ [QUOTE] ++ key ++ [QUOTE]
                          ++ takeSpaces afterKey ++ [COLON], rest)
                else None
            | [] => None
            end
        end
      else None
  | [] => None
  end.

(** Step 6: the loop that copies the text to [result], drops closers that
    do not match the innermost open bracket, and finally appends the closers
    still on [stack] (innermost first, the head of the list).  The value is
    [result] from the current position on, followed by those closers. *)
Fixpoint balance (stack : list N) (inString escaped : bool) (s : str) : str :=
  match s with
  | [] => stack
  | c :: t =>
      if (c =? BACKSLASH)%N && negb escaped then
        c :: balance stack inString true t
      else if (c =? QUOTE)%N && negb escaped then
        c :: balance stack (negb inString) escaped t
      else if inString then
        c :: balance stack inString false t
      else if (c =? LBRACE)%N then
        c :: balance (RBRACE :: stack) inString false t
      else if (c =? LBRACKET)%N then
        c :: balance (RBRACKET :: stack) inString false t
      else if (c =? RBRACE)%N || (c =? RBRACKET)%N then
        match stack with
        | top :: stack' =>
            if (top =? c)%N then c :: balance stack' inString false t
            else balance stack inString false t
        | [] => balance stack inString false t
        end
      else
        c :: balance stack inString false t
  end.

(** [repairTruncatedJson] *)
Definition repairTruncatedJson (jsonStr : str) : str :=
  match jsonStr with
  | [] => []
  | _ =>
      let repaired := trim jsonStr in
      let repaired := trim (stripFenceEnd (stripJsonFence repaired)) in
      let repaired := closeString repaired in
      let repaired := replaceFirst commaAtEnd (gsub commaBeforeCloser repaired) in
      let repaired := gsub (gapBetween RBRACKET LBRACKET)
                        (gsub (gapBetween RBRACE LBRACE) repaired) in
      let repaired := gsub bareKey repaired in
      balance [] false false repaired
  end.

(** What a second repair would find nothing to do on: no white space at
    either end, no code fence at either end, every string closed, none of
    the patterns of steps 3 to 5 anywhere, and outside strings every closer
    matching the innermost open bracket with nothing left open. *)
Definition noSpaceAtHead (s : str) : bool :=
  match s with
  | c :: _ => negb (isSpace c)
  | [] => true
  end.

Fixpoint bracketsMatch (stack : list N) (inString escaped : bool) (s : str)
  : bool :=
  match s with
  | [] => match stack with [] => true | _ :: _ => false end
  | c :: t =>
      if (c =? BACKSLASH)%N && negb escaped then
        bracketsMatch stack inString true t
      else if (c =? QUOTE)%N && negb escaped then
        bracketsMatch stack (negb inString) escaped t
      else if inString then bracketsMatch stack inString false t
      else if (c =? LBRACE)%N then
        bracketsMatch (RBRACE :: stack) inString false t
      else if (c =? LBRACKET)%N then
        bracketsMatch (RBRACKET :: stack) inString false t
      else if (c =? RBRACE)%N || (c =? RBRACKET)%N then
        match stack with
        | top :: stack' => (top =? c)%N && bracketsMatch stack' inString false t
        | [] => false
        end
      else bracketsMatch stack inString false t
  end.

Definition settled (s : str) : bool :=
  noSpaceAtHead s && noSpaceAtHead (rev s)
  && negb (startsWith (js "```json") s)
  && negb (startsWith (js "```") (rev s))
  && negb (quoteScan false false s)
  && negb (occurs commaBeforeCloser s)
  && negb (occurs commaAtEnd s)
  && negb (occurs (gapBetween RBRACE LBRACE) s)
  && negb (occurs (gapBetween RBRACKET LBRACKET) s)
  && negb (occurs bareKey s)
  && bracketsMatch [] false false s.

End Repair.

(** ** JSON decoding *)

Module Json.
Import Repair.

(** The values [JSON.parse] produces.  An object keeps its members in
    insertion order. *)
#[warnings="-register-all"]
Inductive JsonValue : Type :=
| JNull
| JBool (b : bool)
| JNumber (q : Q)
| JString (s : str)
| JArray (elements : list JsonValue)
| JObject (members : list (str * JsonValue)).

(** JSON white space: space, tab, line feed, carriage return. *)
Definition isJsonSpace (c : N) : bool :=
  (c =? 32)%N || (c =? 9)%N || (c =? 10)%N || (c =? 13)%N.

Fixpoint skipJsonSpaces (s : str) : str :=
  match s with
  | c :: t => if isJsonSpace c then skipJsonSpaces t else s
  | [] => []
  end.

Fixpoint takeDigits (s : str) : str :=
  match s with
  | c :: t => if isDigit c then c :: takeDigits t else []
  | [] => []
  end.

Fixpoint dropDigits (s : str) : str :=
  match s with
  | c :: t => if isDigit c then dropDigits t else s
  | [] => []
  end.

Definition digitsValue (ds : str) : Z :=
  fold_left (fun acc d => acc * 10 + (Z.of_N d - 48))%Z ds 0%Z.

Definition hexValue (c : N) : option N :=
  if isDigit c then Some (c - 48)%N
  else if (97 <=? c)%N && (c <=? 102)%N then Some (c - 87)%N
  else if (65 <=? c)%N && (c <=? 70)%N then Some (c - 55)%N
  else None.

(** The characters of a string literal after its opening quote. *)
Fixpoint parseString (s : str) : option (str * str) :=
  match s with
  | [] => None
  | c :: t =>
      if (c =? QUOTE)%N then Some ([], t)
      else if (c =? BACKSLASH)%N then
        match t with
        | e :: t1 =>
            let simple (u : N) :=
              match parseString t1 with
              | Some (body, rest) => Some (u :: body, rest)
              | None => None
              end in
            if (e =? QUOTE)%N then simple QUOTE
            else if (e =? BACKSLASH)%N then simple BACKSLASH
            else if (e =? 47)%N then simple 47%N
            else if (e =? 98)%N then simple 8%N
            else if (e =? 102)%N then simple 12%N
            else if (e =? 110)%N then simple 10%N
            else if (e =? 114)%N then simple 13%N
            else if (e =? 116)%N then simple 9%N
            else if (e =? 117)%N then
              match t1 with
              | h1 :: h2 :: h3 :: h4 :: t2 =>
                  match hexValue h1, hexValue h2, hexValue h3, hexValue h4,
                        parseString t2 with
                  | Some a, Some b, Some c', Some d, Some (body, rest) =>
                      Some ((4096 * a + 256 * b + 16 * c' + d)%N :: body, rest)
                  | _, _, _, _, _ => None
                  end
              | _ => None
              end
            else None
        | [] => None
        end
      else if (c <? 32)%N then None
      else
        match parseString t with
        | Some (body, rest) => Some (c :: body, rest)
        | None => None
        end
  end.

(** A number: optional minus, integer part without leading zero, optional
    fraction, optional exponent. *)
Definition parseNumber (s : str) : option (Q * str) :=
  let (negative, s1) :=
    match s with
    | c :: t => if (c =? 45)%N then (true, t) else (false, s)
    | [] => (false, s)
    end in
  let intDigits := takeDigits s1 in
  let s2 := dropDigits s1 in
  match intDigits with
  | [] => None
  | d0 :: more =>
      if (d0 =? 48)%N && negb (Nat.eqb (length more) 0) then None
      else
        let fraction :=
          match s2 with
          | c :: t =>
              if (c =? 46)%N then
                match takeDigits t with
                | [] => None
                | ds => Some (ds, dropDigits t)
                end
              else Some ([], s2)
          | [] => Some ([], s2)
          end in
        match fraction with
        | None => None
        | Some (fracDigits, s3) =>
            let exponent :=
              match s3 with
              | c :: t =>
                  if (c =? 101)%N || (c =? 69)%N then
                    let (expNegative, t1) :=
                      match t with
                      | g :: t' =>
                          if (g =? 45)%N then (true, t')
                          else if (g =? 43)%N then (false, t')
                          else (false, t)
                      | [] => (false, t)
                      end in
                    match takeDigits t1 with
                    | [] => None
                    | ds =>
                        Some (if expNegative then (- digitsValue ds)%Z
                              else digitsValue ds, dropDigits t1)
                    end
                  else Some (0%Z, s3)
              | [] => Some (0%Z, s3)
              end in
            match exponent with
            | None => None
            | Some (e, rest) =>
                let mantissa :=
                  (digitsValue intDigits * 10 ^ Z.of_nat (length fracDigits)
                   + digitsValue fracDigits)%Z in
                let signed := if negative then (- mantissa)%Z else mantissa in
                let scale := (e - Z.of_nat (length fracDigits))%Z in
                let q :=
                  if (0 <=? scale)%Z then inject_Z (signed * 10 ^ scale)
                  else Qmake signed (Z.to_pos (10 ^ (- scale))) in
                Some (Qred q, rest)
            end
        end
  end.

(** [obj[key] = value] on the members in insertion order. *)
Fixpoint setMember (key : str) (v : JsonValue) (members : list (str * JsonValue))
  : list (str * JsonValue) :=
  match members with
  | [] => [(key, v)]
  | (k, w) :: rest =>
      if decide (k = key) then (k, v) :: rest
      else (k, w) :: setMember key v rest
  end.

Fixpoint parseValue (fuel : nat) (s : str) : option (JsonValue * str) :=
  match fuel with
  | O => None
  | S f =>
      match skipJsonSpaces s with
      | [] => None
      | c :: t =>
          if (c =? QUOTE)%N then
            match parseString t with
            | Some (body, rest) => Some (JString body, rest)
            | None => None
            end
          else if (c =? LBRACKET)%N then
            match skipJsonSpaces t with
            | d :: rest =>
                if (d =? RBRACKET)%N then Some (JArray [], rest)
                else parseElements f t []
            | [] => None
            end
          else if (c =? LBRACE)%N then
            match skipJsonSpaces t with
            | d :: rest =>
                if (d =? RBRACE)%N then Some (JObject [], rest)
                else parseMembers f t []
            | [] => None
            end
          else
            match stripPrefix (js "null") (c :: t),
                  stripPrefix (js "true") (c :: t),
                  stripPrefix (js "false") (c :: t) with
            | Some rest, _, _ => Some (JNull, rest)
            | _, Some rest, _ => Some (JBool true, rest)
            | _, _, Some rest => Some (JBool false, rest)
            | None, None, None =>
                match parseNumber (c :: t) with
                | Some (q, rest) => Some (JNumber q, rest)
                | None => None
                end
            end
      end
  end
with parseElements (fuel : nat) (s : str) (acc : list JsonValue)
  : option (JsonValue * str) :=
  match fuel with
  | O => None
  | S f =>
      match parseValue f s with
      | Some (v, rest) =>
          match skipJsonSpaces rest with
          | d :: rest' =>
              if (d =? COMMA)%N then parseElements f rest' (acc ++ [v])
              else if (d =? RBRACKET)%N then Some (JArray (acc ++ [v]), rest')
              else None
          | [] => None
          end
      | None => None
      end
  end
with parseMembers (fuel : nat) (s : str) (acc : list (str * JsonValue))
  : option (JsonValue * str) :=
  match fuel with
  | O => None
  | S f =>
      match skipJsonSpaces s with
      | q :: t =>
          if (q =? QUOTE)%N then
            match parseString t with
            | Some (key, afterKey) =>
                match skipJsonSpaces afterKey with
                | c :: afterColon =>
                    if (c =? COLON)%N then
                      match parseValue f afterColon with
                      | Some (v, rest) =>
                          match skipJsonSpaces rest with
                          | d :: rest' =>
                              if (d =? COMMA)%N then
                                parseMembers f rest' (setMember key v acc)
                              else if (d =? RBRACE)%N then
                                Some (JObject (setMember key v acc), rest')
                              else None
                          | [] => None
                          end
                      | None => None
                      end
                    else None
                | [] => None
                end
            | None => None
            end
          else None
      | [] => None
      end
  end.

(** [JSON.parse(text)], a host function, written after the JSON grammar:
    one value with nothing but white space around it; [None] stands for the
    [SyntaxError] it throws. *)
Definition JSON_parse (text : str) : option JsonValue :=
  match parseValue (2 * length text + 2) text with
  | Some (v, rest) =>
      match skipJsonSpaces rest with
      | [] => Some v
      | _ :: _ => None
      end
  | None => None
  end.

End Json.

(** ** Streaming tag demultiplexer *)

Module Demux.

(** The text before the leftmost occurrence of [pat] and the text after
    it. *)
Fixpoint splitAtFirst (pat s : str) : option (str * str) :=
  match stripPrefix pat s with
  | Some rest => Some ([], rest)
  | None =>
      match s with
      | [] => None
      | c :: t =>
          match splitAtFirst pat t with
          | Some (before, after) => Some (c :: before, after)
          | None => None
          end
      end
  end.

(** [s.includes(pat)] *)
Definition includes (pat s : str) : bool :=
  match splitAtFirst pat s with Some _ => true | None => false end.

(** Group 1 of [/<tag>([\s\S]*?)(?:<\/tag>|$)/] on [s]: the match starts at
    the leftmost opening tag, and the lazy group stops at the first closing
    tag after it or, when there is none, at the end of [s].  [None] when the
    pattern does not match. *)
Definition matchTagged (openTag closeTag s : str) : option str :=
  match splitAtFirst openTag s with
  | None => None
  | Some (_, after) =>
      match splitAtFirst closeTag after with
      | Some (body, _) => Some body
      | None => Some after
      end
  end.

(** The channels of [assistantMsg] written by the tag extraction of
    [sendMessage]; [None] is a field not yet assigned. *)
Record AssistantMsg : Type := mkMsg {
  thinking : option str;
  isThinking : bool;
  summary : option str;
  qualityCheck : option str
}.

(** One decoded record of the stream carrying the text delta [content]: the
    delta is appended to [fullText] and the whole buffer is scanned again
    for the think, summary and check regions.  An empty delta changes
    nothing.  Between the summary and the check extraction the source
    handles the content region, which writes to the document and to
    [assistantMsg.content] and is not followed here; when that handling
    throws, the [catch] of the record skips the check extraction, so
    [qualityCheck] is the field of the source for records handled without
    an exception.  [thinking], [isThinking] and [summary] are assigned
    before, by statements that do not throw. *)
Definition onContent (st : AssistantMsg * str) (content : str)
  : AssistantMsg * str :=
  let (msg, fullText) := st in
  match content with
  | [] => st
  | _ =>
      let fullText := fullText ++ content in
      let msg :=
        match matchTagged (js "<think>") (js "</think>") fullText with
        | Some t =>
            mkMsg (Some t) (negb (includes (js "</think>") fullText))
              (summary msg) (qualityCheck msg)
        | None => msg
        end in
      let msg :=
        match matchTagged (js "<summary>") (js "</summary>") fullText with
        | Some t =>
            mkMsg (thinking msg) (isThinking msg) (Some (trim t))
              (qualityCheck msg)
        | None => msg
        end in
      let msg :=
        match matchTagged (js "<check>") (js "</check>") fullText with
        | Some t =>
            mkMsg (thinking msg) (isThinking msg) (summary msg)
              (Some (trim t))
        | None => msg
        end in
      (msg, fullText)
  end.

Definition onContents (st : AssistantMsg * str) (chunks : list str)
  : AssistantMsg * str := fold_left onContent chunks st.

(** The summary the extraction assigns for a buffer. *)
Definition summaryOf (fullText : str) : option str :=
  match matchTagged (js "<summary>") (js "</summary>") fullText with
  | Some t => Some (trim t)
  | None => None
  end.

(** The summary channel is closed: the opening tag has been seen and the
    closing tag has been seen after it. *)
Definition summaryClosed (fullText : str) : bool :=
  match splitAtFirst (js "<summary>") fullText with
  | Some (_, after) => includes (js "</summary>") after
  | None => false
  end.

End Demux.

(** ** The outline: sections, numbering prefixes, hierarchy *)

Module Outline.

(** A section identifier: a number or a string. *)
Inductive Id : Type :=
| NumId (n : Z)
| StrId (s : str).

(** The [parentId] field: absent, [null], or an identifier. *)
Inductive ParentRef : Type :=
| Undefined
| Null
| Ref (i : Id).

Inductive Status : Type := pending | writing | completed.

#[global] Instance Id_eq_dec : EqDecision Id.
Proof. solve_decision. Defined.
#[global] Instance ParentRef_eq_dec : EqDecision ParentRef.
Proof. solve_decision. Defined.
#[global] Instance Status_eq_dec : EqDecision Status.
Proof. solve_decision. Defined.

(** A section of [documentData]; [status] may be absent on loaded data. *)
Record DocSection : Type := mkSection {
  id : Id;
  parentId : ParentRef;
  title : str;
  content : str;
  targetWords : Z;
  status : option Status
}.

#[global] Instance DocSection_eq_dec : EqDecision DocSection.
Proof. solve_decision. Defined.

(** [{ ...item, parentId }] and [item.content = c] *)
Definition withParentId (item : DocSection) (p : ParentRef) : DocSection :=
  mkSection (id item) p (title item) (content item) (targetWords item)
    (status item).

Definition withContent (item : DocSection) (c : str) : DocSection :=
  mkSection (id item) (parentId item) (title item) c (targetWords item)
    (status item).

(** Truthiness of an identifier and of a [parentId]: [0], the empty string,
    [null] and [undefined] are falsy. *)
Definition truthyId (i : Id) : bool :=
  match i with
  | NumId n => negb (n =? 0)
  | StrId s => match s with [] => false | _ :: _ => true end
  end.

Definition truthy (p : ParentRef) : bool :=
  match p with
  | Ref i => truthyId i
  | Undefined | Null => false
  end.

(** [p ?? null] *)
Definition orNull (p : ParentRef) : ParentRef :=
  match p with
  | Undefined => Null
  | _ => p
  end.

(** The identifier inside a template literal. *)
Definition showId (i : Id) : str :=
  match i with
  | NumId n => showZ n
  | StrId s => s
  end.

Definition DOT : N := 46.

(** [s.split(sep)] for a one-unit separator, and [parts.join(sep)]. *)
Fixpoint split (sep : N) (s : str) : list str :=
  match s with
  | [] => [[]]
  | c :: t =>
      if (c =? sep)%N then [] :: split sep t
      else
        match split sep t with
        | p :: ps => (c :: p) :: ps
        | [] => [[c]]
        end
  end.

Fixpoint join (sep : N) (parts : list str) : str :=
  match parts with
  | [] => []
  | [p] => p
  | p :: ps => p ++ sep :: join sep ps
  end.

(** The CJK ordinals of [chineseNums] and the table itself. *)
Definition isChineseNumeral (c : N) : bool :=
  existsb (N.eqb c) (js "一二三四五六七八九十").

Fixpoint takeChineseNumerals (s : str) : str :=
  match s with
  | c :: t => if isChineseNumeral c then c :: takeChineseNumerals t else []
  | [] => []
  end.

Fixpoint dropChineseNumerals (s : str) : str :=
  match s with
  | c :: t => if isChineseNumeral c then dropChineseNumerals t else s
  | [] => []
  end.

Definition chineseNums : list (str * str) :=
  [ (js "一", js "1"); (js "二", js "2"); (js "三", js "3");
    (js "四", js "4"); (js "五", js "5"); (js "六", js "6");
    (js "七", js "7"); (js "八", js "8"); (js "九", js "9");
    (js "十", js "10"); (js "十一", js "11"); (js "十二", js "12");
    (js "十三", js "13"); (js "十四", js "14"); (js "十五", js "15");
    (js "十六", js "16"); (js "十七", js "17"); (js "十八", js "18");
    (js "十九", js "19"); (js "二十", js "20") ].

(** [chineseNums[num] || num] *)
Definition chineseNumOr (num : str) : str :=
  match List.find (fun kv => bool_decide (kv.1 = num)) chineseNums with
  | Some kv => kv.2
  | None => num
  end.

(** Group 1 of the arabic pattern, [\d+] followed by any number of
    [\.\d+], anchored at the start of the title: a run of digits followed
    by as many groups of a dot and a run of digits as there are. *)
Fixpoint dottedTail (fuel : nat) (s : str) : str :=
  match fuel with
  | O => []
  | S f =>
      match s with
      | c :: t =>
          if (c =? DOT)%N then
            match Json.takeDigits t with
            | [] => []
            | ds => c :: ds ++ dottedTail f (Json.dropDigits t)
            end
          else []
      | [] => []
      end
  end.

(** [title.match(...)] for the three numbering patterns; the value is
    group 1 of the match. *)
Definition arabicMatch (title : str) : option str :=
  match Json.takeDigits title with
  | [] => None
  | ds => Some (ds ++ dottedTail (length title) (Json.dropDigits title))
  end.

(** [/^([一二三四五六七八九十]+)、/] *)
Definition chineseMainMatch (title : str) : option str :=
  match takeChineseNumerals title, dropChineseNumerals title with
  | (_ :: _) as run, c :: _ => if (c =? 12289)%N then Some run else None
  | _, _ => None
  end.

(** [/^（([一二三四五六七八九十]+）)/]: the group includes the closing
    parenthesis. *)
Definition chineseParensMatch (title : str) : option str :=
  match title with
  | open :: inner =>
      if (open =? 65288)%N then
        match takeChineseNumerals inner, dropChineseNumerals inner with
        | (_ :: _) as run, close :: _ =>
            if (close =? 65289)%N then Some (run ++ [close]) else None
        | _, _ => None
        end
      else None
  | [] => None
  end.

(** [s.replace(c, '')] for a one-unit string [c]: the first occurrence is
    removed. *)
Fixpoint removeFirst (c : N) (s : str) : str :=
  match s with
  | [] => []
  | d :: t => if (d =? c)%N then t else d :: removeFirst c t
  end.

(** [getSectionNumberPrefix] *)
Definition getSectionNumberPrefix (title : str) : str :=
  match arabicMatch title with
  | Some group => group
  | None =>
      match chineseMainMatch title with
      | Some group => chineseNumOr group
      | None =>
          match chineseParensMatch title with
          | Some group =>
              chineseNumOr (removeFirst 65289 (removeFirst 65288 group))
          | None => []
          end
      end
  end.

(** [Number(part)] for a component of a numbering prefix, which is a run of
    digits or a run of CJK ordinals that [chineseNums] does not list; [None]
    is [NaN]. *)
Definition Number (part : str) : option Z :=
  if forallb isDigit part then Some (Json.digitsValue part) else None.

(** The comparator of the final sort: negative, zero or positive, or [None]
    for [NaN]. *)
Fixpoint compareParts (fuel : nat) (partsA partsB : list (option Z))
  : option Z :=
  match fuel with
  | O => Some 0
  | S f =>
      let vA := match partsA with a :: _ => a | [] => Some (-1) end in
      let vB := match partsB with b :: _ => b | [] => Some (-1) end in
      match vA, vB with
      | Some x, Some y =>
          if x =? y then compareParts f (tl partsA) (tl partsB)
          else Some (x - y)
      | _, _ => None
      end
  end.

Definition comparePrefixes (a b : DocSection) : option Z :=
  let prefixA := getSectionNumberPrefix (title a) in
  let prefixB := getSectionNumberPrefix (title b) in
  match prefixA, prefixB with
  | [], [] => Some 0
  | [], _ => Some 1
  | _, [] => Some (-1)
  | _, _ =>
      let partsA := List.map Number (split DOT prefixA) in
      let partsB := List.map Number (split DOT prefixB) in
      compareParts (Nat.max (length partsA) (length partsB)) partsA partsB
  end.

(** [Array.prototype.sort(compare)]: a stable sort; [a] is moved behind [b]
    only when [compare(a, b) > 0] ([NaN] counts as zero).  Written as a
    stable insertion sort. *)
Definition goesAfter (compare : DocSection -> DocSection -> option Z)
    (a b : DocSection) : bool :=
  match compare a b with
  | Some v => 0 <? v
  | None => false
  end.

Fixpoint insertSorted (compare : DocSection -> DocSection -> option Z)
    (x : DocSection) (sorted : list DocSection) : list DocSection :=
  match sorted with
  | [] => [x]
  | y :: rest =>
      if goesAfter compare x y then y :: insertSorted compare x rest
      else x :: y :: rest
  end.

Definition sort (compare : DocSection -> DocSection -> option Z)
    (l : list DocSection) : list DocSection :=
  fold_right (insertSorted compare) [] l.

(** Step 1 of [reconstructHierarchy]: the callback of [data.forEach] that
    fills the object [prefixMap], and the map it leaves. *)
Definition recordPrefix (prefixMap : gmap str Id) (item : DocSection)
  : gmap str Id :=
  match getSectionNumberPrefix (title item) with
  | [] => prefixMap
  | prefix => <[prefix := id item]> prefixMap
  end.

Definition buildPrefixMap (data : list DocSection) : gmap str Id :=
  fold_left recordPrefix data ∅.

(** Step 2: the callback of [data.map]. *)
Definition linkParent (prefixMap : gmap str Id) (item : DocSection)
  : DocSection :=
  match getSectionNumberPrefix (title item) with
  | [] => withParentId item (orNull (parentId item))
  | prefix =>
      let parts := split DOT prefix in
      let found :=
        if (1 <? length parts)%nat then
          prefixMap !! join DOT (removelast parts)
        else None in
      match found with
      | Some parent =>
          if truthyId parent then withParentId item (Ref parent)
          else withParentId item Null
      | None => withParentId item Null
      end
  end.

(** [reconstructHierarchy] *)
Definition reconstructHierarchy (data : list DocSection) : list DocSection :=
  match data with
  | [] => []
  | _ =>
      let prefixMap := buildPrefixMap data in
      let listWithParents := List.map (linkParent prefixMap) data in
      sort comparePrefixes listWithParents
  end.

End Outline.

(** ** Flattening a nested outline and re-nesting it *)

Module Nesting.
Import Outline.

(** A section descriptor with a [children] field.  [rest] holds the other
    fields of the descriptor; [children] is absent or an array. *)
#[warnings="-register-all"]
Inductive NestedItem : Type :=
  Nested (rest : DocSection) (children : option (list NestedItem)).

Definition itemRest (item : NestedItem) : DocSection :=
  match item with Nested rest _ => rest end.

Definition itemChildren (item : NestedItem) : list NestedItem :=
  match item with
  | Nested _ (Some children) => children
  | Nested _ None => []
  end.

(** The body of [items.forEach] in [flattenOutline]: the item without its
    children and with the given [parentId], followed, when [children] is a
    non-empty array, by the flattened children. *)
Fixpoint flattenItem (parentId : ParentRef) (item : NestedItem)
  : list DocSection :=
  match item with
  | Nested rest children =>
      withParentId rest parentId ::
      match children with
      | Some (c :: cs) => List.flat_map (flattenItem (Ref (id rest))) (c :: cs)
      | _ => []
      end
  end.

Definition flattenOutline (items : list NestedItem) (parentId : ParentRef)
  : list DocSection := List.flat_map (flattenItem parentId) items.

(** [parseNestedOutline] on an array. *)
Definition parseNestedOutline (nestedOutline : list NestedItem)
  : list DocSection := flattenOutline nestedOutline Null.

(** A node of the tree handed to the tree view. *)
#[warnings="-register-all"]
Inductive TreeNode : Type :=
  mkNode (key : Id) (nodeTitle : str) (nodeWords : Z) (nodeStatus : Status)
         (isLeaf : bool) (nodeChildren : option (list TreeNode)).

(** [item.title || '未命名章节'], [item.targetWords || 0] and
    [item.status || 'pending']. *)
Definition titleOrDefault (t : str) : str :=
  match t with [] => js "未命名章节" | _ => t end.

Definition statusOrPending (s : option Status) : Status :=
  match s with Some st => st | None => pending end.

Definition makeNode (item : DocSection) (children : list TreeNode) : TreeNode :=
  mkNode (id item) (titleOrDefault (title item)) (targetWords item)
    (statusOrPending (status item))
    (match children with [] => true | _ :: _ => false end)
    (match children with [] => None | _ :: _ => Some children end).

(** [buildTree(list, parentId, depth)], the list being [flat], with
    [remaining = 11 - depth] levels still allowed: at [depth > 10] the
    result is the empty array. *)
Fixpoint buildTreeWithin (remaining : nat) (flat : list DocSection)
    (parentId : ParentRef) : list TreeNode :=
  match remaining with
  | O => []
  | S remaining' =>
      List.map
        (fun item =>
           makeNode item (buildTreeWithin remaining' flat (Ref (id item))))
        (filter (fun item => Outline.parentId item = parentId) flat)
  end.

Definition buildTree (flat : list DocSection) (parentId : ParentRef)
    (depth : nat) : list TreeNode :=
  buildTreeWithin (11 - depth) flat parentId.

(** [treeData]: parent links are normalised with [?? null] and the tree is
    built from the roots. *)
Definition treeData (documentData : list DocSection) : list TreeNode :=
  let normalizedData :=
    List.map (fun item => withParentId item (orNull (parentId item)))
      documentData in
  buildTree normalizedData Null 0.

(** The tree view of a nested outline itself: the node of each descriptor
    with the nodes of its children below it. *)
Fixpoint nodeOf (item : NestedItem) : TreeNode :=
  match item with
  | Nested rest children =>
      makeNode rest
        (match children with
         | Some cs => List.map nodeOf cs
         | None => []
         end)
  end.

(** All descriptors of a forest, parents before children, and the number
    of levels. *)
Fixpoint descendants (item : NestedItem) : list NestedItem :=
  match item with
  | Nested _ children =>
      item ::
      match children with
      | Some cs => List.flat_map descendants cs
      | None => []
      end
  end.

Definition allItems (items : list NestedItem) : list NestedItem :=
  List.flat_map descendants items.




Fixpoint levels (item : NestedItem) : nat :=
  match item with
  | Nested _ children =>
      S (match children with
         | Some cs => fold_right (fun c n => Nat.max (levels c) n) 0%nat cs
         | None => 0%nat
         end)
  end.

Definition forestLevels (items : list NestedItem) : nat :=
  fold_right (fun c n => Nat.max (levels c) n) 0%nat items.

(** A chain of [n] descriptors, each the only child of the one before,
    with ids [first], [first + 1], ... *)
Fixpoint chain (n : nat) (first : Z) : list NestedItem :=
  match n with
  | O => []
  | S n' =>
      [Nested (mkSection (NumId first) Undefined (js "x") [] 500 None)
         (Some (chain n' (first + 1)))]
  end.

Section NestedInduction.
Variable P : NestedItem -> Prop.
Hypothesis step : forall rest children,
  Forall P (match children with Some cs => cs | None => [] end) ->
  P (Nested rest children).

Fixpoint NestedItem_nested_ind (item : NestedItem) : P item :=
  match item with
  | Nested rest children =>
      step rest children
        (match children
               return Forall P (match children with Some cs => cs | None => [] end)
         with
         | Some cs =>
             (fix all (l : list NestedItem) : Forall P l :=
                match l with
                | [] => @List.Forall_nil _ P
                | c :: l' =>
                    @List.Forall_cons _ P c l' (NestedItem_nested_ind c) (all l')
                end) cs
         | None => @List.Forall_nil _ P
         end)
  end.
End NestedInduction.

End Nesting.

(** ** Heading-inference merges *)

Module Merge.
Import Outline.

Definition HASH : N := 35.
Definition STAR : N := 42.
Definition SPACE : N := 32.

(** [String.prototype.toLowerCase] on one code unit: the one-to-one
    mappings of the ASCII, Latin-1, Greek, Cyrillic and full-width capitals.
    Every other unit is left as it is, which is what the source does for
    units without case (digits, punctuation, CJK) and for small letters;
    the capitals of other alphabets, the final sigma and U+0130, whose
    image is two units long, are not followed. *)
Definition lowerUnit (c : N) : N :=
  if (65 <=? c)%N && (c <=? 90)%N then (c + 32)%N
  else if (192 <=? c)%N && (c <=? 222)%N && negb (c =? 215)%N then (c + 32)%N
  else if (913 <=? c)%N && (c <=? 939)%N && negb (c =? 930)%N then (c + 32)%N
  else if (1040 <=? c)%N && (c <=? 1071)%N then (c + 32)%N
  else if (1024 <=? c)%N && (c <=? 1039)%N then (c + 80)%N
  else if (65313 <=? c)%N && (c <=? 65338)%N then (c + 32)%N
  else c.

Definition toLowerCase (s : str) : str := List.map lowerUnit s.

Fixpoint dropHashes (s : str) : str :=
  match s with
  | c :: t => if (c =? HASH)%N then dropHashes t else s
  | [] => []
  end.

Fixpoint countHashes (s : str) : nat :=
  match s with
  | c :: t => if (c =? HASH)%N then S (countHashes t) else 0%nat
  | [] => 0%nat
  end.

(** [.replace(/^#+\s+/, '')] *)
Definition stripHashes (s : str) : str :=
  match countHashes s, dropHashes s with
  | S _, c :: t => if isSpace c then skipSpaces t else s
  | _, _ => s
  end.

Definition isDigitOrDot (c : N) : bool := isDigit c || (c =? DOT)%N.

Fixpoint dropNumbering (s : str) : str :=
  match s with
  | c :: t => if isDigitOrDot c then dropNumbering t else s
  | [] => []
  end.

(** [.replace(/^[\d.]+\s*/, '')] *)
Definition stripNumbering (s : str) : str :=
  match s with
  | c :: t => if isDigitOrDot c then skipSpaces (dropNumbering t) else s
  | [] => []
  end.

(** [/\*\*/g] replaced by the empty string, [/\s+/g] by one space. *)
Definition boldMarker : matcher := fun s =>
  match s with
  | a :: b :: rest =>
      if (a =? STAR)%N && (b =? STAR)%N then Some ([], rest) else None
  | _ => None
  end.

Definition spaceRun : matcher := fun s =>
  match s with
  | c :: t => if isSpace c then Some ([SPACE], skipSpaces t) else None
  | [] => None
  end.

(** [getNormalizedTitle] *)
Definition getNormalizedTitle (title : str) : str :=
  match title with
  | [] => []
  | _ =>
      gsub spaceRun
        (gsub boldMarker
           (stripNumbering (stripHashes (toLowerCase (trim title)))))
  end.

(** [fixSectionTitleNumbering] *)
Definition fixSectionTitleNumbering (parentTitle childTitle : str)
    (index : nat) : str :=
  let parentPrefix := getSectionNumberPrefix parentTitle in
  let normalizedChildTitle := getNormalizedTitle childTitle in
  match parentPrefix with
  | [] => childTitle
  | _ =>
      parentPrefix ++ [DOT] ++ showN (N.of_nat (index + 1)) ++ [SPACE]
        ++ normalizedChildTitle
  end.

(** One match of [/^(##+|###+)\s+(.+)$/gm]: its [index], the length of the
    whole match, the number of hashes of group 1, and group 2. *)
Record HeadingMatch : Type := mkMatch {
  index : nat;
  matchLength : nat;
  level : nat;
  headingText : str
}.

(** [.+]: the longest run of code units that are not line terminators. *)
Fixpoint takeLine (s : str) : str :=
  match s with
  | c :: t => if isLineTerminator c then [] else c :: takeLine t
  | [] => []
  end.

(** The last position [k >= from] of a run of white space whose unit is not
    a line terminator, with that unit. *)
Fixpoint lastNonTerminator (from : nat) (spaces : str) : option (nat * N) :=
  match spaces with
  | [] => None
  | c :: t =>
      match lastNonTerminator (S from) t with
      | Some found => Some found
      | None => if isLineTerminator c then None else Some (from, c)
      end
  end.

(** The heading pattern tried at the head of [s], a position where [^]
    holds.  Group 1 takes all the hashes (fewer would leave a hash where
    white space is required).  [\s+] takes the whole run of white space and
    [.+] the rest of the line; only when the white space runs to the end of
    the text does [\s+] give units back, and then [.+] is the last unit of
    the run, at a position [k >= 1], that is not a line terminator.  The
    value is (hashes, group 2, length of the match). *)
Definition matchHeadingAt (s : str) : option (nat * str * nat) :=
  let hashes := countHashes s in
  if (hashes <? 2)%nat then None
  else
    let afterHashes := dropHashes s in
    match takeSpaces afterHashes with
    | [] => None
    | (_ :: spacesTail) as spaces =>
        match takeLine (skipSpaces afterHashes) with
        | (_ :: _) as text =>
            Some (hashes, text, (hashes + length spaces + length text)%nat)
        | [] =>
            match lastNonTerminator 1 spacesTail with
            | Some (k, c) => Some (hashes, [c], (hashes + k + 1)%nat)
            | None => None
            end
        end
    end.

(** [[...fullContent.matchAll(headingRegex)]]: the scan from [index], where
    [atLineStart] tells whether [^] holds and [skip] counts the units of the
    current match still to be passed. *)
Fixpoint headingsFrom (index : nat) (atLineStart : bool) (skip : nat)
    (s : str) : list HeadingMatch :=
  match s with
  | [] => []
  | c :: t =>
      match skip with
      | S k => headingsFrom (S index) (isLineTerminator c) k t
      | O =>
          match (if atLineStart then matchHeadingAt s else None) with
          | Some (hashes, text, len) =>
              mkMatch index len hashes text
                :: headingsFrom (S index) (isLineTerminator c) (len - 1) t
          | None => headingsFrom (S index) (isLineTerminator c) 0 t
          end
      end
  end.

Definition matchAllHeadings (fullContent : str) : list HeadingMatch :=
  headingsFrom 0 true 0 fullContent.

(** [s.substring(start, end)] *)
Definition substring (start stop : nat) (s : str) : str :=
  let lo := Nat.min start stop in
  let hi := Nat.max start stop in
  take (hi - lo) (drop lo s).

(** [array.findLastIndex(p)]; [None] is [-1]. *)
Fixpoint findLastIndexFrom {A} (p : A -> bool) (i : nat) (l : list A)
  : option nat :=
  match l with
  | [] => None
  | x :: t =>
      match findLastIndexFrom p (S i) t with
      | Some j => Some j
      | None => if p x then Some i else None
      end
  end.

Definition findLastIndex {A} (p : A -> bool) (l : list A) : option nat :=
  findLastIndexFrom p 0 l.

(** [array.splice(found + 1, 0, ...xs)] where [found] is the result of a
    [findIndex] or [findLastIndex]. *)
Definition spliceAfter {A} (found : option nat) (xs l : list A) : list A :=
  let pos := match found with Some i => S i | None => 0%nat end in
  take pos l ++ xs ++ drop pos l.

(** [parent.parentId ? 3 : 2] *)
Definition parentLevelOf (parent : DocSection) : nat :=
  if truthy (parentId parent) then 3%nat else 2%nat.

Definition normalizedTitles (sections : list DocSection) : list str :=
  List.map (fun s => getNormalizedTitle (title s)) sections.

(** The identifiers built by the template literals of the two merges;
    [now] is the reading of [Date.now()]. *)
Definition tmpId (parentId : Id) (now : Z) (i : nat) : Id :=
  StrId (showId parentId ++ js "-sub-tmp-" ++ showZ now ++ js "-"
           ++ showN (N.of_nat i)).

Definition subId (parentId : Id) (now : Z) (i : nat) : Id :=
  StrId (showId parentId ++ js "-sub-" ++ showZ now ++ js "-"
           ++ showN (N.of_nat i)).

(** The body of [matches.forEach((match, i) => ...)] in
    [syncSubSectionsToOutlineRealtime], on the pair of [documentData.value]
    and [existingTitles]. *)
Definition realtimeStep (now : nat -> Z) (parentId : Id) (parentTitle : str)
    (parentLevel : nat) (i : nat) (m : HeadingMatch)
    (st : list DocSection * gset str) : list DocSection * gset str :=
  let (documentData, existingTitles) := st in
  let title := trim (headingText m) in
  let normalizedTitle := getNormalizedTitle title in
  if (level m <=? parentLevel)%nat then st
  else
    let isSameAsParent :=
      bool_decide (normalizedTitle = getNormalizedTitle parentTitle) in
    let existsGlobally := bool_decide (normalizedTitle ∈ existingTitles) in
    if negb existsGlobally && negb isSameAsParent then
      let currentChildrenCount :=
        length (filter (fun s => Outline.parentId s = Ref parentId)
                  documentData) in
      let fixedTitle :=
        fixSectionTitleNumbering parentTitle title currentChildrenCount in
      let newSection :=
        mkSection (tmpId parentId (now i) i) (Ref parentId) fixedTitle []
          500 (Some pending) in
      let lastIndex :=
        findLastIndex
          (fun s => bool_decide (Outline.parentId s = Ref parentId)
                    || bool_decide (id s = parentId))
          documentData in
      (spliceAfter lastIndex [newSection] documentData,
       {[normalizedTitle]} ∪ existingTitles)
    else st.

Fixpoint realtimeLoop (now : nat -> Z) (parentId : Id) (parentTitle : str)
    (parentLevel : nat) (i : nat) (matches : list HeadingMatch)
    (st : list DocSection * gset str) : list DocSection * gset str :=
  match matches with
  | [] => st
  | m :: rest =>
      realtimeLoop now parentId parentTitle parentLevel (S i) rest
        (realtimeStep now parentId parentTitle parentLevel i m st)
  end.

(** [syncSubSectionsToOutlineRealtime]: the new value of
    [documentData.value]. *)
Definition syncSubSectionsToOutlineRealtime (now : nat -> Z)
    (documentData : list DocSection) (parentId : Id) (fullContent : str)
  : list DocSection :=
  match matchAllHeadings fullContent with
  | [] => documentData
  | matches =>
      match list_find (fun s => id s = parentId) documentData with
      | None => documentData
      | Some (parentIndex, parent) =>
          let existingTitles : gset str :=
            list_to_set (normalizedTitles documentData) in
          (realtimeLoop now parentId (title parent) (parentLevelOf parent) 0
             matches (documentData, existingTitles)).1
      end
  end.

(** The filter that keeps the headings deeper than the parent and not
    named like it. *)
Definition isActualMatch (parentTitle : str) (parentLevel : nat)
    (m : HeadingMatch) : bool :=
  let normalizedTitle := getNormalizedTitle (trim (headingText m)) in
  if (level m <=? parentLevel)%nat then false
  else if bool_decide (normalizedTitle = getNormalizedTitle parentTitle)
       then false
       else true.

(** The body of [actualMatches.forEach((match, i) => ...)] in
    [syncSubSectionsToOutline], on the pair of [newSubSections] and
    [existingOtherTitles]; [rest] holds the matches after this one. *)
Fixpoint finalLoop (now : nat -> Z) (parentId : Id) (parentTitle : str)
    (fullContent : str) (i : nat) (matches : list HeadingMatch)
    (st : list DocSection * gset str) : list DocSection * gset str :=
  match matches with
  | [] => st
  | m :: rest =>
      let (newSubSections, existingOtherTitles) := st in
      let title := trim (headingText m) in
      let normalizedTitle := getNormalizedTitle title in
      let st' :=
        if bool_decide (normalizedTitle ∈ existingOtherTitles) then st
        else
          let startIdx := (index m + matchLength m)%nat in
          let endIdx :=
            match rest with
            | nextMatch :: _ => index nextMatch
            | [] => length fullContent
            end in
          let content := trim (substring startIdx endIdx fullContent) in
          let fixedTitle :=
            fixSectionTitleNumbering parentTitle title
              (length newSubSections) in
          (newSubSections
             ++ [mkSection (subId parentId (now i) i) (Ref parentId)
                   fixedTitle content 500 (Some completed)],
           {[normalizedTitle]} ∪ existingOtherTitles) in
      finalLoop now parentId parentTitle fullContent (S i) rest st'
  end.

(** [syncSubSectionsToOutline]: the new value of [documentData.value]. *)
Definition syncSubSectionsToOutline (now : nat -> Z)
    (documentData : list DocSection) (parentId : Id) (fullContent : str)
  : list DocSection :=
  match matchAllHeadings fullContent with
  | [] => documentData
  | matches =>
      match list_find (fun s => id s = parentId) documentData with
      | None => documentData
      | Some (parentIndex, parent) =>
          let parentTitle := title parent in
          let actualMatches :=
            List.filter (isActualMatch parentTitle (parentLevelOf parent))
              matches in
          match actualMatches with
          | [] =>
              <[parentIndex := withContent parent (trim fullContent)]>
                documentData
          | first :: _ =>
              let parentContent :=
                trim (substring 0 (index first) fullContent) in
              let documentData :=
                <[parentIndex := withContent parent parentContent]>
                  documentData in
              let existingOtherTitles : gset str :=
                list_to_set
                  (normalizedTitles
                     (filter (fun s => Outline.parentId s <> Ref parentId
                                       /\ id s <> parentId)
                        documentData)) in
              let newSubSections :=
                (finalLoop now parentId parentTitle fullContent 0
                   actualMatches ([], existingOtherTitles)).1 in
              let filteredData :=
                filter (fun s => Outline.parentId s <> Ref parentId)
                  documentData in
              let newParentIdx :=
                fst <$> list_find (fun s => id s = parentId) filteredData in
              spliceAfter newParentIdx newSubSections filteredData
          end
      end
  end.

End Merge.

(** ** Repair: the scans of steps 2 and 6, further views *)

Module RepairScan.
Import Repair.

(** The loop of step 2 again, this time with both of its variables at the
    end of the text: ([inString], [escaped]). *)
Fixpoint quoteScanState (inString escaped : bool) (s : str) : bool * bool :=
  match s with
  | [] => (inString, escaped)
  | c :: t =>
      if (c =? BACKSLASH)%N && negb escaped then quoteScanState inString true t
      else if (c =? QUOTE)%N && negb escaped then
        quoteScanState (negb inString) false t
      else quoteScanState inString false t
  end.

(** Whether the scan meets a backslash that sets [escaped] while it is
    outside a string. *)
Fixpoint escapesOutsideStrings (inString escaped : bool) (s : str) : bool :=
  match s with
  | [] => false
  | c :: t =>
      if (c =? BACKSLASH)%N && negb escaped then
        negb inString || escapesOutsideStrings inString true t
      else if (c =? QUOTE)%N && negb escaped then
        escapesOutsideStrings (negb inString) false t
      else escapesOutsideStrings inString false t
  end.

Definition isCloser (c : N) : bool := (c =? RBRACE)%N || (c =? RBRACKET)%N.

End RepairScan.

(** ** Shape of a flat outline *)

Module FlatShape.
Import Outline.

(** Every entry of [flat] either carries the parent link [r] or names, by
    its parent link, an entry that stands before it. *)
Definition linkedBackwards (r : ParentRef) (flat : list DocSection) : Prop :=
  forall i e,
    flat !! i = Some e ->
    parentId e = r
    \/ (exists j p, (j < i)%nat /\ flat !! j = Some p /\ parentId e = Ref (id p)).

End FlatShape.

(** ** Sub-sections delivered as JSON *)

Module MergeJson.
Import Outline Merge.

(** One element of the [sections] argument of [syncSubSectionsFromJson]:
    [id] and [targetWords] may be absent; an absent [content] is the empty
    string, which [newSec.content || ''] does not tell apart. *)
Record JsonSection : Type := mkJsonSection {
  jsonId : option Id;
  jsonTitle : str;
  jsonContent : str;
  jsonTargetWords : option Z
}.

(** The callback of [sections.filter], with the set [existingTitles] it
    reads and extends. *)
Fixpoint admitNew (normalizedParentTitle : str) (existingTitles : gset str)
    (sections : list JsonSection) : list JsonSection :=
  match sections with
  | [] => []
  | newSec :: rest =>
      let normalizedTitle := getNormalizedTitle (jsonTitle newSec) in
      if bool_decide (normalizedTitle = normalizedParentTitle) then
        admitNew normalizedParentTitle existingTitles rest
      else if bool_decide (normalizedTitle ∈ existingTitles) then
        admitNew normalizedParentTitle existingTitles rest
      else
        newSec
          :: admitNew normalizedParentTitle
               ({[normalizedTitle]} ∪ existingTitles) rest
  end.

(** The callback of [.map((newSec, i) => ...)]. *)
Definition sectionOfJson (now : nat -> Z) (parentId : Id) (parentTitle : str)
    (i : nat) (newSec : JsonSection) : DocSection :=
  mkSection
    (match jsonId newSec with
     | Some k => if truthyId k then k else subId parentId (now i) i
     | None => subId parentId (now i) i
     end)
    (Ref parentId)
    (fixSectionTitleNumbering parentTitle (jsonTitle newSec) i)
    (jsonContent newSec)
    (match jsonTargetWords newSec with
     | Some w => if w =? 0 then 500 else w
     | None => 500
     end)
    (Some pending).

(** [syncSubSectionsFromJson]: the new value of [documentData.value]. *)
Definition syncSubSectionsFromJson (now : nat -> Z)
    (documentData : list DocSection) (parentId : Id)
    (sections : list JsonSection) : list DocSection :=
  match list_find (fun s => id s = parentId) documentData with
  | None => documentData
  | Some (parentIndex, parent) =>
      let normalizedParentTitle := getNormalizedTitle (title parent) in
      let existingTitles : gset str :=
        list_to_set (normalizedTitles documentData) in
      let newSections :=
        imap (sectionOfJson now parentId (title parent))
          (admitNew normalizedParentTitle existingTitles sections) in
      match newSections with
      | [] => documentData
      | _ :: _ =>
          let lastIndex :=
            findLastIndex
              (fun s => bool_decide (Outline.parentId s = Ref parentId)
                        || bool_decide (id s = parentId))
              documentData in
          spliceAfter lastIndex newSections documentData
      end
  end.

(** A section as the streaming merges add it: a child of the parent, still
    pending. *)
Definition addedPending (parentId : Id) (s : DocSection) : Prop :=
  Outline.parentId s = Ref parentId /\ status s = Some pending.

(** The sections the final merge does not own: neither the parent nor one
    of its children. *)
Definition otherSections (parentId : Id) (documentData : list DocSection)
  : list DocSection :=
  filter (fun s => Outline.parentId s <> Ref parentId /\ id s <> parentId)
    documentData.

End MergeJson.

(** ** The response stream: records *)

Module Stream.
Import Outline Demux.

Definition NEWLINE : N := 10.

(** The text handed to [JSON.parse] for one line: nothing for a blank
    line, otherwise the trimmed line without a leading ['data: ']. *)
Definition rawJsonOfLine (line : str) : option str :=
  match trim line with
  | [] => None
  | (_ :: _) as trimmedLine =>
      Some (match stripPrefix (js "data: ") trimmedLine with
            | Some rest => rest
            | None => trimmedLine
            end)
  end.

(** One turn of the read loop on the pair of [buffer] and the raw JSON
    texts met so far: the chunk is appended to [buffer], the text is split
    at line feeds, the last piece becomes the new [buffer] and the other
    pieces are handled as lines. *)
Definition onChunk (st : str * list str) (chunk : str) : str * list str :=
  let (buffer, records) := st in
  let lines := split NEWLINE (buffer ++ chunk) in
  (List.last lines [],
   records ++ omap rawJsonOfLine (List.removelast lines)).

(** The whole loop followed by the handling of what is left in [buffer]. *)
Definition readStream (chunks : list str) : list str :=
  let (buffer, records) := fold_left onChunk chunks ([], []) in
  records ++ match rawJsonOfLine buffer with Some r => [r] | None => [] end.

(** The thinking text the extraction assigns for a buffer, and the think
    channel being closed: the opening tag seen and the closing tag seen
    after it. *)
Definition thinkingOf (fullText : str) : option str :=
  matchTagged (js "<think>") (js "</think>") fullText.

Definition thinkClosed (fullText : str) : bool :=
  match splitAtFirst (js "<think>") fullText with
  | Some (_, after) => includes (js "</think>") after
  | None => false
  end.

End Stream.

(** ** Snapshots of the agent state, loading and saving the outline *)

Module Store.
Import Outline Merge.

Definition nonEmpty (s : str) : bool :=
  match s with [] => false | _ :: _ => true end.

(** The body of [if (existingSec)] in the handling of an [agent_state]
    record: [newSec] is a section of the snapshot, of which [id],
    [content], [status] and [title] are read; an absent field is the empty
    string or [None]. *)
Definition mergeSection (existingSec newSec : DocSection) : DocSection :=
  mkSection (id existingSec) (parentId existingSec)
    (if nonEmpty (title newSec) then title newSec else title existingSec)
    (if nonEmpty (content newSec)
        && (negb (nonEmpty (content existingSec))
            || (length (content existingSec) <=? length (content newSec))%nat)
     then content newSec else content existingSec)
    (targetWords existingSec)
    (match status newSec with
     | Some st => Some st
     | None => status existingSec
     end).

(** The callback of [newStructure.forEach] and the whole merge. *)
Definition applySnapshotEntry (documentData : list DocSection)
    (newSec : DocSection) : list DocSection :=
  match list_find (fun s => id s = id newSec) documentData with
  | Some (i, existingSec) =>
      <[i := mergeSection existingSec newSec]> documentData
  | None => documentData
  end.

Definition applySnapshot (documentData newStructure : list DocSection)
  : list DocSection :=
  fold_left applySnapshotEntry newStructure documentData.

(** What the merge of a snapshot keeps of a section [s] in its new value
    [s']; [ids] are the identifiers the snapshot names. *)
Definition snapshotKeeps (ids : list Id) (s s' : DocSection) : Prop :=
  id s' = id s /\ parentId s' = parentId s /\ targetWords s' = targetWords s
  /\ (length (content s) <= length (content s'))%nat
  /\ (id s ∉ ids -> s' = s).

(** The callback of [outline.filter] in [fetchDeliverableInfo], with the
    set [seenTitles]. *)
Fixpoint dedupeByTitle (seenTitles : gset str) (outline : list DocSection)
  : list DocSection :=
  match outline with
  | [] => []
  | section :: rest =>
      let normalizedTitle := getNormalizedTitle (title section) in
      if bool_decide (normalizedTitle ∈ seenTitles) then
        dedupeByTitle seenTitles rest
      else
        section :: dedupeByTitle ({[normalizedTitle]} ∪ seenTitles) rest
  end.

(** The callback of [.map]: content and status of a stored section are
    completed from the section of the same id in memory. *)
Definition restoreSection (documentData : list DocSection)
    (section : DocSection) : DocSection :=
  let existingSection :=
    snd <$> list_find (fun s => id s = id section) documentData in
  mkSection (id section) (parentId section) (title section)
    (if nonEmpty (content section) then content section
     else match existingSection with
          | Some e => content e
          | None => []
          end)
    (targetWords section)
    (Some (match status section with
           | Some st => st
           | None =>
               if nonEmpty (content section) then completed
               else match existingSection with
                    | Some e => if nonEmpty (content e) then completed
                                else pending
                    | None => pending
                    end
           end)).

(** The outline part of [fetchDeliverableInfo]: the new value of
    [documentData.value] for the stored [outline]. *)
Definition loadOutline (documentData outline : list DocSection)
  : list DocSection :=
  match outline with
  | [] => documentData
  | _ :: _ =>
      let rawOutline :=
        List.map (restoreSection documentData) (dedupeByTitle ∅ outline) in
      let hasParentId :=
        existsb (fun section => negb (bool_decide (parentId section = Undefined)))
          rawOutline in
      if hasParentId then rawOutline else reconstructHierarchy rawOutline
  end.

(** [s.parentId || null] *)
Definition orNullIfFalsy (p : ParentRef) : ParentRef :=
  if truthy p then p else Null.

(** [metadata.outline] as [saveDocument] writes it.  An entry has no
    [content]; its [contentLength] is read by nothing. *)
Definition outlineMetadata (documentData : list DocSection)
  : list DocSection :=
  List.map
    (fun s =>
       mkSection (id s) (orNullIfFalsy (parentId s)) (title s) []
         (targetWords s) (status s))
    documentData.

End Store.

(** ** The order of the reconstructed outline *)

Module OutlineOrder.
Import Outline Merge.

(** The numbering of the title is made of digits and dots: it is arabic
    or one of the ordinals that [chineseNums] lists. *)
Definition numericPrefix (s : DocSection) : Prop :=
  forallb isDigitOrDot (getSectionNumberPrefix (title s)) = true.

(** The comparator does not put [a] behind [b]. *)
Definition inOrder (a b : DocSection) : Prop :=
  goesAfter comparePrefixes a b = false.

(** What the loop of the comparator computes on parts that are all
    numbers. *)
Fixpoint compareKeys (fuel : nat) (keysA keysB : list Z) : Z :=
  match fuel with
  | O => 0
  | S f =>
      let vA := match keysA with a :: _ => a | [] => -1 end in
      let vB := match keysB with b :: _ => b | [] => -1 end in
      if vA =? vB then compareKeys f (tl keysA) (tl keysB) else vA - vB
  end.

Definition keysOf (s : DocSection) : list Z :=
  List.map Json.digitsValue (split DOT (getSectionNumberPrefix (title s))).

End OutlineOrder.

(** ** Decoding the model's JSON: [smartParseJson] and
    [tryExtractValidJson] *)

Module SmartParse.
Import Repair RepairScan Json Demux Merge.

Definition BACKTICK : N := 96.

(** What a call returns: a decoded value, the argument itself (for a falsy
    argument), or an exception. *)
Inductive Outcome : Type :=
| Parsed (v : JsonValue)
| Echoed
| Thrown.

(** The lazy group followed by white space and the closing fence: the
    shortest prefix of [s] after which only white space stands before three
    backticks. *)
Fixpoint lazyUntilFence (s : str) : option str :=
  match stripPrefix (js "```") (skipSpaces s) with
  | Some _ => Some []
  | None =>
      match s with
      | [] => None
      | c :: t => option_map (cons c) (lazyUntilFence t)
      end
  end.

(** Group 1 of the two fence patterns: the opening fence, white space, the
    lazy group, white space, three backticks.  The match starts at the
    leftmost opening fence (a later one has a closing fence only if this
    one has). *)
Definition fencedBlock (fenceOpen s : str) : option str :=
  match splitAtFirst fenceOpen s with
  | None => None
  | Some (_, after) => lazyUntilFence (skipSpaces after)
  end.

(** [cleanStr] for the argument [str], here [text]. *)
Definition cleanOf (text : str) : str :=
  let cleanStr := trim text in
  match fencedBlock (js "```json") cleanStr with
  | Some group => trim group
  | None =>
      match fencedBlock (js "```") cleanStr with
      | Some group => trim group
      | None => cleanStr
      end
  end.

(** The positions of the units that satisfy [p], ascending from [i]. *)
Fixpoint indicesOf (p : N -> bool) (i : nat) (s : str) : list nat :=
  match s with
  | [] => []
  | c :: t => if p c then i :: indicesOf p (S i) t else indicesOf p (S i) t
  end.

Definition isOpener (c : N) : bool := (c =? LBRACE)%N || (c =? LBRACKET)%N.

(** [candidates] before the sort: for each start, the ends behind it from
    the last to the first. *)
Definition candidates (text : str) : list (nat * nat) :=
  let starts := indicesOf isOpener 0 text in
  let ends := rev (indicesOf isCloser 0 text) in
  List.flat_map
    (fun s =>
       List.flat_map (fun e => if (s <? e)%nat then [(s, e)] else []) ends)
    starts.

(** [Array.prototype.sort] with a comparator: a stable sort, written as an
    insertion sort; [after a b] is [compare(a, b) > 0]. *)
Fixpoint insertBy {A} (after : A -> A -> bool) (x : A) (sorted : list A)
  : list A :=
  match sorted with
  | [] => [x]
  | y :: rest =>
      if after x y then y :: insertBy after x rest else x :: y :: rest
  end.

Definition sortBy {A} (after : A -> A -> bool) (l : list A) : list A :=
  fold_right (insertBy after) [] l.

Definition len (cand : nat * nat) : nat := (cand.2 - cand.1)%nat.

(** The body of the loop over the candidates: the substring is decoded as
    it is or, failing that, after repair. *)
Definition parseOrRepair (sub : str) : option JsonValue :=
  match JSON_parse sub with
  | Some v => Some v
  | None => JSON_parse (repairTruncatedJson sub)
  end.

Fixpoint firstParsed (text : str) (cands : list (nat * nat)) : Outcome :=
  match cands with
  | [] => Thrown
  | cand :: rest =>
      match parseOrRepair (substring cand.1 (cand.2 + 1) text) with
      | Some v => Parsed v
      | None => firstParsed text rest
      end
  end.

(** [tryExtractValidJson] *)
Definition tryExtractValidJson (text : str) : Outcome :=
  firstParsed text
    (sortBy (fun a b => (len a <? len b)%nat) (candidates text)).

(** [smartParseJson].  [errorPosition] stands for the engine: for a text
    that [JSON.parse] rejects it gives the number after [position] in the
    message, when the message has one and names an unexpected token or a
    non-white-space character after the JSON. *)
Definition smartParseJson (errorPosition : str -> option nat) (text : str)
    (attemptRepair : bool) : Outcome :=
  match text with
  | [] => Echoed
  | _ :: _ =>
      let cleanStr := cleanOf text in
      match JSON_parse cleanStr with
      | Some v => Parsed v
      | None =>
          if negb attemptRepair then Thrown
          else
            let repaired := repairTruncatedJson cleanStr in
            match (if bool_decide (repaired = cleanStr) then None
                   else JSON_parse repaired) with
            | Some v => Parsed v
            | None =>
                let part1 :=
                  match errorPosition cleanStr with
                  | Some pos => trim (substring 0 pos cleanStr)
                  | None => []
                  end in
                match part1 with
                | _ :: _ =>
                    match JSON_parse (cleanOf part1) with
                    | Some v => Parsed v
                    | None => tryExtractValidJson cleanStr
                    end
                | [] => tryExtractValidJson cleanStr
                end
            end
      end
  end.

End SmartParse.

(** ** The outline request: finding the array in the response *)

Module OutlineRequest.
Import Repair Merge.

(** The loop of [executeGenerateOutline] that looks for the outermost pair
    of square brackets, from position [i] on, with its variables [depth],
    [startIdx] and [lastEndIdx] ([None] is [-1]). *)
Fixpoint scanArray (i : nat) (depth : Z) (startIdx lastEndIdx : option nat)
    (s : str) : option nat * option nat :=
  match s with
  | [] => (startIdx, lastEndIdx)
  | c :: t =>
      if (c =? LBRACKET)%N then
        scanArray (S i) (depth + 1)
          (if depth =? 0 then Some i else startIdx) lastEndIdx t
      else if (c =? RBRACKET)%N then
        let depth := depth - 1 in
        scanArray (S i) depth startIdx
          (if (depth =? 0)
              && match startIdx with Some _ => true | None => false end
           then Some i else lastEndIdx)
          t
      else scanArray (S i) depth startIdx lastEndIdx t
  end.

(** [jsonStr] after the loop; it starts as the empty string. *)
Definition outermostArray (aiResponse : str) : str :=
  match scanArray 0 0 None None aiResponse with
  | (Some startIdx, Some lastEndIdx) =>
      substring startIdx (lastEndIdx + 1) aiResponse
  | (Some startIdx, None) => drop startIdx aiResponse
  | (None, _) => []
  end.

Definition isSquare (c : N) : bool := (c =? LBRACKET)%N || (c =? RBRACKET)%N.

Definition depthAfter (depth : Z) (c : N) : Z :=
  if (c =? LBRACKET)%N then depth + 1
  else if (c =? RBRACKET)%N then depth - 1
  else depth.

(** The text behind an opening bracket at [depth]: the bracket is closed by
    the last unit of the text and not before. *)
Fixpoint closesAtEnd (depth : Z) (body : str) : bool :=
  match body with
  | [] => false
  | c :: t =>
      match t with
      | [] => (c =? RBRACKET)%N && (depthAfter depth c =? 0)
      | _ :: _ => (0 <? depthAfter depth c) && closesAtEnd (depthAfter depth c) t
      end
  end.

(** The bracket is not closed anywhere in the text. *)
Fixpoint staysOpen (depth : Z) (body : str) : bool :=
  match body with
  | [] => true
  | c :: t => (0 <? depthAfter depth c) && staysOpen (depthAfter depth c) t
  end.

End OutlineRequest.

(** ** Heading levels *)

Module Levels.
Import Outline Nesting.

(** The loop of [getSectionLevel]; it runs as long as the current section
    has a truthy parent link that names a section.  [None]: the loop has not
    ended within [fuel] turns. *)
Fixpoint levelLoop (fuel : nat) (documentData : list DocSection)
    (current : DocSection) (level : nat) : option nat :=
  match fuel with
  | O => None
  | S f =>
      if truthy (parentId current) then
        match list_find (fun s => Ref (id s) = parentId current) documentData with
        | None => Some level
        | Some (_, parent) => levelLoop f documentData parent (S level)
        end
      else Some level
  end.

(** [getSectionLevel] *)
Definition getSectionLevel (fuel : nat) (documentData : list DocSection)
    (section : DocSection) : option nat :=
  if negb (truthy (parentId section)) then Some 2%nat
  else levelLoop fuel documentData section 2.

(** The flattened descriptors of a forest with their depth, the roots at
    [depth]. *)
Fixpoint entriesOf (depth : nat) (parentId : ParentRef) (item : NestedItem)
  : list (DocSection * nat) :=
  match item with
  | Nested rest children =>
      (withParentId rest parentId, depth) ::
      match children with
      | Some cs => List.flat_map (entriesOf (S depth) (Ref (id rest))) cs
      | None => []
      end
  end.

Definition entries (items : list NestedItem) : list (DocSection * nat) :=
  List.flat_map (entriesOf 0 Null) items.

End Levels.

(** ** Keys of the outline tree *)

Module TreeKeys.
Import Outline Nesting.

(** The keys of a node and of the nodes below it. *)
Fixpoint nodeKeys (node : TreeNode) : list Id :=
  match node with
  | mkNode key _ _ _ _ children =>
      key ::
      match children with
      | Some cs => List.flat_map nodeKeys cs
      | None => []
      end
  end.

Definition treeKeys (forest : list TreeNode) : list Id :=
  List.flat_map nodeKeys forest.

End TreeKeys.

(** * Properties *)

Example js_ascii : js "1.1 a" = [49; 46; 49; 32; 97]%N.
Proof. reflexivity. Qed.

Example js_cjk : js "总览" = [24635; 35272]%N.
Proof. reflexivity. Qed.

Example jsq_quote : jsq "'A'" = [34; 65; 34]%N.
Proof. reflexivity. Qed.

Example trim_example : trim (js "  a b 	") = js "a b".
Proof. reflexivity. Qed.

Example showN_examples :
  showN 0 = js "0" /\ showN 7 = js "7" /\ showN 10 = js "10"
  /\ showN 1024 = js "1024" /\ showZ (-35) = js "-35".
Proof. repeat split; reflexivity. Qed.


(** ** Pagination *)

Section PaginationFacts.
Import Pagination.
Local Open Scope Q_scope.

Lemma page_unit_pos : 0 < PAGE_HEIGHT_PX + PAGE_GAP_PX.
Proof. reflexivity. Qed.

Lemma Qceiling_le_iff (x : Q) (k : Z) : (Qceiling x <= k)%Z <-> x <= inject_Z k.
Proof.
  split; intros Hle.
  - eapply Qle_trans; [apply Qle_ceiling |].
    rewrite <- Zle_Qle. exact Hle.
  - rewrite <- (Qceiling_Z k). apply Qceiling_resp_le. exact Hle.
Qed.

Lemma div_le_iff (h : Q) (k : Z) :
  h / (PAGE_HEIGHT_PX + PAGE_GAP_PX) <= inject_Z k
  <-> h <= inject_Z k * (PAGE_HEIGHT_PX + PAGE_GAP_PX).
Proof.
  split; intros Hle.
  - apply (Qmult_le_r _ _ _ page_unit_pos) in Hle.
    rewrite (Qmult_comm (h / _)), Qmult_div_r in Hle; [exact Hle | discriminate].
  - apply Qle_shift_div_r; [apply page_unit_pos | exact Hle].
Qed.

(** C2, the page count one pixel past a full page: the inter-page gap is
    part of the page unit, so a content height of [H + 1] still gives one
    page, not two. *)
Lemma page_count_one_pixel_over :
  updatePageCount (Some (PAGE_HEIGHT_PX + 1)) 1 = 1%Z
  /\ updatePageCount (Some (PAGE_HEIGHT_PX + 1)) 1 <> 2%Z.
Proof. split; [reflexivity | discriminate]. Qed.

(** C2 (amended): the page count is [max(1, ceil(height / (H + G)))]; it is
    at most [k >= 1] exactly when the height is at most [k] page units
    [H + G]; a height of exactly [H], of [H + 1] and of [H + G] gives one
    page, and one pixel more than [H + G] gives two. *)
Theorem page_count_thresholds (height : Q) (pageCount k : Z) :
  (1 <= k)%Z ->
  updatePageCount (Some height) pageCount
  = Z.max 1 (Qceiling (height / (PAGE_HEIGHT_PX + PAGE_GAP_PX)))
  /\ ((updatePageCount (Some height) pageCount <= k)%Z
      <-> height <= inject_Z k * (PAGE_HEIGHT_PX + PAGE_GAP_PX))
  /\ updatePageCount (Some PAGE_HEIGHT_PX) pageCount = 1%Z
  /\ updatePageCount (Some (PAGE_HEIGHT_PX + 1)) pageCount = 1%Z
  /\ updatePageCount (Some (PAGE_HEIGHT_PX + PAGE_GAP_PX)) pageCount = 1%Z
  /\ updatePageCount (Some (PAGE_HEIGHT_PX + PAGE_GAP_PX + 1)) pageCount = 2%Z.
Proof.
  intros Hk. split; [reflexivity |].
  split; [| repeat split; reflexivity].
  unfold updatePageCount.
  rewrite <- div_le_iff, <- Qceiling_le_iff. lia.
Qed.

Lemma page_count_thresholds_witness :
  updatePageCount (Some 3000) 1 = 3%Z
  /\ ((updatePageCount (Some 3000%Q) 1 <= 3)%Z
      <-> 3000 <= inject_Z 3 * (PAGE_HEIGHT_PX + PAGE_GAP_PX)).
Proof.
  destruct (page_count_thresholds 3000 1 3 ltac:(lia)) as (H1 & H2 & _).
  split; [exact H1 | exact H2].
Defined.

End PaginationFacts.

(** ** Word budgets *)

Section TargetWordsFacts.
Import TargetWords.

Lemma Qle_bool_cases (x y : Q) :
  (Qle_bool x y = true /\ (x <= y)%Q) \/ (Qle_bool x y = false /\ (y < x)%Q).
Proof.
  destruct (Qle_bool x y) eqn:H.
  - left. split; [reflexivity | now apply Qle_bool_iff].
  - right. split; [reflexivity |]. apply Qnot_le_lt. intros Hle.
    apply Qle_bool_iff in Hle. congruence.
Qed.

Lemma clamp_bounds (cap n : Q) :
  (minWords <= cap)%Q ->
  exists v, mathMax (Some minWords) (mathMin (Some cap) (Some n)) = Some v
            /\ (minWords <= v)%Q /\ (v <= cap)%Q.
Proof.
  intros Hcap. cbn [mathMin mathMax].
  destruct (Qle_bool_cases cap n) as [[-> ?] | [-> ?]];
    match goal with
    | |- context [Qle_bool ?a ?b] =>
        destruct (Qle_bool_cases a b) as [[-> ?] | [-> ?]]
    end;
    (eexists; split; [reflexivity |]); split; lra.
Qed.

(** The cap written back is at least the floor and at most the entry the
    level selects. *)
Lemma correctedWords_bounds (level : Level) (w : Words) (n : Q) :
  toNumber w = Some n ->
  exists v, correctedWords level w = Some v
            /\ (minWords <= v)%Q
            /\ (forall m, levelMax level = BoundNumber m -> (v <= m)%Q).
Proof.
  intros Hn. unfold correctedWords, levelMax, isLevel, keyIs.
  rewrite Hn.
  destruct level as [q | k | t |];
    repeat match goal with
           | |- context [Qeq_bool ?a ?b] => destruct (Qeq_bool a b)
           | |- context [Z.eqb ?a ?b] => destruct (Z.eqb a b)
           end;
    match goal with
    | |- context [mathMin (Some ?cap) _] =>
        destruct (clamp_bounds cap n) as (v & -> & Hlo & Hhi);
        [unfold minWords; lra |]
    end;
    (exists v; split; [reflexivity |]; split; [exact Hlo |]);
    intros m Hm; try discriminate; injection Hm as <-; lra.
Qed.

Lemma correctedWords_no_number (level : Level) (w : Words) :
  toNumber w = None -> correctedWords level w = None.
Proof.
  intros Hn. unfold correctedWords. rewrite Hn.
  now repeat match goal with |- context [isLevel ?l ?k] =>
                               destruct (isLevel l k) end.
Qed.

(** A corrected value is out of range no more. *)
Lemma correctedWords_stable (level : Level) (w : Words) :
  exceeds (WordsNumber (correctedWords level w)) (levelMax level) = false
  /\ less (correctedWords level w) (Some minWords) = false.
Proof.
  destruct (toNumber w) as [n |] eqn:Hn.
  - destruct (correctedWords_bounds level w n Hn) as (v & -> & Hlo & Hhi).
    split.
    + destruct (levelMax level) as [m | t]; [| reflexivity].
      cbn [exceeds toNumber greater].
      specialize (Hhi m eq_refl).
      destruct (Qle_bool_cases v m) as [[-> _] | [_ Hgt]]; [reflexivity | lra].
    + cbn [less].
      destruct (Qle_bool_cases minWords v) as [[-> _] | [_ Hlt]];
        [reflexivity | lra].
  - rewrite (correctedWords_no_number level w Hn).
    split; [| reflexivity]. now destruct (levelMax level).
Qed.




Lemma mapItems_Forall2 {A B : Type} (f : A -> option B) (l : list A)
    (r : list B) :
  mapItems f l = Some r <-> Forall2 (fun x y => f x = Some y) l r.
Proof.
  revert r. induction l as [| x l IH]; intros r; cbn [mapItems].
  - split; [intros [= <-]; constructor | now inversion 1].
  - fold (mapItems f l). split.
    + destruct (f x) as [y |] eqn:Hx; [| discriminate].
      destruct (mapItems f l) as [k |]; [| discriminate].
      intros [= <-]. constructor; [exact Hx | now apply IH].
    + inversion 1 as [| ? y ? k Hx Hk]; subst. rewrite Hx.
      apply IH in Hk. now rewrite Hk.
Qed.

Lemma everywhere_children (P : OutlineItem -> Prop) (cs : list OutlineItem) :
  fold_right (fun c acc => everywhere P c /\ acc) True cs
  <-> Forall (everywhere P) cs.
Proof.
  induction cs as [| c cs IH]; cbn [fold_right].
  - split; [constructor | exact (fun _ => I)].
  - rewrite IH. split; [intros []; now constructor | now inversion 1].
Qed.






End TargetWordsFacts.

(** ** Tolerant JSON repair *)

Section RepairFacts.
Import Repair.

Example repair_truncated_object :
  repairTruncatedJson (jsq "{'a':[1,2,{'b':'x") = jsq "{'a':[1,2,{'b':'x'}]}".
Proof. reflexivity. Qed.

Example repair_unquoted_keys :
  repairTruncatedJson (jsq "[{title:'A',targetWords:100}]")
  = jsq "[{'title':'A','targetWords':100}]".
Proof. reflexivity. Qed.

Example repair_glued_objects :
  repairTruncatedJson (jsq "```json [{'a':1,} {'b':2}]```")
  = jsq "[{'a':1},{'b':2}]".
Proof. reflexivity. Qed.

Example repair_twice_differs :
  repairTruncatedJson (js "[1,,") = js "[1,]"
  /\ repairTruncatedJson (js "[1,]") = js "[1]".
Proof. split; reflexivity. Qed.

End RepairFacts.

Section RepairFixedPoint.
Import Repair.

Lemma skipSpaces_noSpaceAtHead (s : str) :
  noSpaceAtHead s = true -> skipSpaces s = s.
Proof.
  destruct s as [| c t]; simpl; [reflexivity |].
  now destruct (isSpace c).
Qed.

Lemma trim_noSpaceAtEnds (s : str) :
  noSpaceAtHead s = true -> noSpaceAtHead (rev s) = true -> trim s = s.
Proof.
  intros Hhead Hlast. unfold trim, trimStart, trimEnd.
  rewrite (skipSpaces_noSpaceAtHead s Hhead).
  rewrite (skipSpaces_noSpaceAtHead (rev s) Hlast).
  apply rev_involutive.
Qed.

Lemma gsubFrom_no_occurrence (m : matcher) (s : str) :
  occurs m s = false -> gsubFrom m 0 s = s.
Proof.
  induction s as [| c t IH]; simpl; [reflexivity |].
  destruct (m (c :: t)) as [[out rest] |]; [discriminate |].
  intros Hocc. now rewrite IH.
Qed.

Lemma replaceFirst_no_occurrence (m : matcher) (s : str) :
  occurs m s = false -> replaceFirst m s = s.
Proof.
  induction s as [| c t IH]; simpl.
  - now destruct (m []) as [[out rest] |].
  - destruct (m (c :: t)) as [[out rest] |]; [discriminate |].
    intros Hocc. now rewrite IH.
Qed.

Lemma balance_bracketsMatch (s : str) :
  forall stack inString escaped,
    bracketsMatch stack inString escaped s = true ->
    balance stack inString escaped s = s.
Proof.
  induction s as [| c t IH]; intros stack inString escaped; simpl.
  - now destruct stack.
  - repeat match goal with
           | |- context [if ?b then _ else _] =>
               destruct b; try (intros Hm; now rewrite IH)
           end.
    destruct stack as [| top stack']; [discriminate |].
    destruct (top =? c)%N; simpl; [| discriminate].
    intros Hm. now rewrite IH.
Qed.

(** A settled text is a fixed point of the repair. *)
Lemma repairTruncatedJson_settled (s : str) :
  settled s = true -> repairTruncatedJson s = s.
Proof.
  unfold settled. rewrite !andb_true_iff, !negb_true_iff.
  intros ((((((((((Hh & Hl) & Hf1) & Hf2) & Hq) & H3a) & H3b) & H4a) & H4b)
            & H5) & Hb).
  unfold repairTruncatedJson. destruct s as [| c0 t0]; [reflexivity |].
  set (s := c0 :: t0) in *.
  rewrite (trim_noSpaceAtEnds s Hh Hl).
  assert (stripJsonFence s = s) as ->.
  { unfold stripJsonFence. unfold startsWith in Hf1.
    destruct (stripPrefix _ s); [discriminate | reflexivity]. }
  assert (stripFenceEnd s = s) as ->.
  { unfold stripFenceEnd. unfold startsWith in Hf2.
    destruct (stripPrefix _ (rev s)); [discriminate | reflexivity]. }
  rewrite (trim_noSpaceAtEnds s Hh Hl).
  unfold closeString. rewrite Hq.
  unfold gsub.
  rewrite (gsubFrom_no_occurrence _ _ H3a).
  rewrite (replaceFirst_no_occurrence _ _ H3b).
  rewrite (gsubFrom_no_occurrence _ _ H4a).
  rewrite (gsubFrom_no_occurrence _ _ H4b).
  rewrite (gsubFrom_no_occurrence _ _ H5).
  apply balance_bracketsMatch, Hb.
Qed.

(** C3, as stated: repairing twice is not the same as repairing once.  On
    the truncated array [[1,,] the first repair drops one trailing comma
    and closes the bracket, and the second drops the comma it left. *)
Lemma repair_not_idempotent :
  repairTruncatedJson (repairTruncatedJson (js "[1,,"))
  <> repairTruncatedJson (js "[1,,").
Proof. discriminate. Qed.

(** C3 (amended): whenever the repaired text is settled (trimmed, without
    code fence, strings closed, none of the comma, gap or bare-key patterns
    left, brackets matched), repairing it again changes nothing. *)
Theorem repair_idempotent_when_settled (x : str) :
  settled (repairTruncatedJson x) = true ->
  repairTruncatedJson (repairTruncatedJson x) = repairTruncatedJson x.
Proof. apply repairTruncatedJson_settled. Qed.

Lemma repair_idempotent_when_settled_witness :
  repairTruncatedJson (repairTruncatedJson (jsq "{'a':[1,2,{'b':'x"))
  = repairTruncatedJson (jsq "{'a':[1,2,{'b':'x").
Proof.
  apply (repair_idempotent_when_settled (jsq "{'a':[1,2,{'b':'x")).
  vm_compute. reflexivity.
Defined.

End RepairFixedPoint.

(** ** Decoding repaired payloads *)

Section JsonFacts.
Import Repair Json.

Example JSON_parse_scalars :
  JSON_parse (jsq " [1, -2.5, 1e2, true, null, 'a\nb'] ")
  = Some (JArray [JNumber 1; JNumber (-5 # 2); JNumber 100; JBool true;
                  JNull; JString [97; 10; 98]%N]).
Proof. reflexivity. Qed.

Example JSON_parse_rejects :
  JSON_parse (jsq "[1,]") = None /\ JSON_parse (jsq "{a:1}") = None
  /\ JSON_parse (jsq "[1] x") = None /\ JSON_parse (jsq "01") = None.
Proof. repeat split; reflexivity. Qed.

(** C8: the payload with unquoted keys does not decode as it is; its repair
    is the text [[{"title":"A","targetWords":100}]], which decodes to the
    array holding the one object with [title] "A" and [targetWords] 100. *)
Theorem repair_unquoted_keys_decodes :
  JSON_parse (jsq "[{title:'A',targetWords:100}]") = None
  /\ repairTruncatedJson (jsq "[{title:'A',targetWords:100}]")
     = jsq "[{'title':'A','targetWords':100}]"
  /\ JSON_parse (repairTruncatedJson (jsq "[{title:'A',targetWords:100}]"))
     = Some (JArray [JObject [(js "title", JString (js "A"));
                              (js "targetWords", JNumber 100)]]).
Proof. repeat split; reflexivity. Qed.

End JsonFacts.

(** ** Streaming tag demultiplexer *)

Section DemuxFacts.
Import Demux.

Example summary_open_then_closed :
  summaryOf (js "<think>t</think><summary> ab") = Some (js "ab")
  /\ summaryClosed (js "<think>t</think><summary> ab") = false
  /\ summaryOf (js "<think>t</think><summary> ab c </summary><content>x")
     = Some (js "ab c")
  /\ summaryClosed (js "<think>t</think><summary> ab c </summary><content>x")
     = true.
Proof. repeat split; reflexivity. Qed.

Lemma stripPrefix_app_Some (s p x rest : str) :
  stripPrefix p x = Some rest -> stripPrefix p (x ++ s) = Some (rest ++ s).
Proof.
  revert x. induction p as [| a p IH]; intros x; simpl.
  - now intros [= ->].
  - destruct x as [| c x]; simpl; [discriminate |].
    destruct (a =? c)%N; [apply IH | discriminate].
Qed.

Lemma stripPrefix_app_None (s p x : str) :
  stripPrefix p x = None -> (length p <= length x)%nat ->
  stripPrefix p (x ++ s) = None.
Proof.
  revert x. induction p as [| a p IH]; intros x; simpl; [discriminate |].
  destruct x as [| c x]; simpl; [lia |].
  destruct (a =? c)%N; [| reflexivity].
  intros Hn Hlen. apply IH; [exact Hn | lia].
Qed.

Lemma stripPrefix_length (p x rest : str) :
  stripPrefix p x = Some rest -> length x = (length p + length rest)%nat.
Proof.
  revert x. induction p as [| a p IH]; intros x; simpl.
  - now intros [= ->].
  - destruct x as [| c x]; simpl; [discriminate |].
    destruct (a =? c)%N; [| discriminate].
    intros Hp. now rewrite (IH _ Hp).
Qed.

Lemma splitAtFirst_length (pat x before after : str) :
  splitAtFirst pat x = Some (before, after) ->
  length x = (length before + length pat + length after)%nat.
Proof.
  revert before after. induction x as [| c t IH]; intros before after; simpl.
  - destruct (stripPrefix pat []) as [rest |] eqn:Hp; [| discriminate].
    intros [= <- <-]. apply stripPrefix_length in Hp. exact Hp.
  - destruct (stripPrefix pat (c :: t)) as [rest |] eqn:Hp.
    + intros [= <- <-]. apply stripPrefix_length in Hp. exact Hp.
    + destruct (splitAtFirst pat t) as [[b1 a1] |]; [| discriminate].
      intros [= <- <-]. simpl. now rewrite (IH _ _ eq_refl).
Qed.

(** Appending text to a buffer does not move the leftmost occurrence of a
    tag the buffer already contains. *)
Lemma splitAtFirst_app (pat b s before after : str) :
  splitAtFirst pat b = Some (before, after) ->
  splitAtFirst pat (b ++ s) = Some (before, after ++ s).
Proof.
  revert before after. induction b as [| c t IH]; intros before after.
  - simpl. destruct (stripPrefix pat []) as [rest |] eqn:Hp; [| discriminate].
    intros [= <- <-].
    pose proof (stripPrefix_app_Some s _ _ _ Hp) as Hps. simpl in Hps.
    destruct s; simpl; now rewrite Hps.
  - intros Hsplit. pose proof (splitAtFirst_length _ _ _ _ Hsplit) as Hlen.
    simpl in Hsplit |- *.
    destruct (stripPrefix pat (c :: t)) as [rest |] eqn:Hp.
    + injection Hsplit as <- <-.
      pose proof (stripPrefix_app_Some s _ _ _ Hp) as Hps. simpl in Hps.
      now rewrite Hps.
    + destruct (splitAtFirst pat t) as [[b1 a1] |] eqn:Ht; [| discriminate].
      injection Hsplit as <- <-.
      pose proof (stripPrefix_app_None s _ _ Hp) as Hpn. simpl in Hpn, Hlen.
      rewrite Hpn by lia.
      now rewrite (IH _ _ eq_refl).
Qed.

Lemma summaryClosed_app (b s : str) :
  summaryClosed b = true -> summaryClosed (b ++ s) = true.
Proof.
  unfold summaryClosed, includes.
  destruct (splitAtFirst (js "<summary>") b) as [[pre after] |] eqn:Ho;
    [| discriminate].
  rewrite (splitAtFirst_app _ _ s _ _ Ho).
  destruct (splitAtFirst (js "</summary>") after) as [[body rest] |] eqn:Hc;
    [| discriminate].
  now rewrite (splitAtFirst_app _ _ s _ _ Hc).
Qed.

Lemma summaryOf_app (b s : str) :
  summaryClosed b = true -> summaryOf (b ++ s) = summaryOf b.
Proof.
  unfold summaryClosed, summaryOf, matchTagged, includes.
  destruct (splitAtFirst (js "<summary>") b) as [[pre after] |] eqn:Ho;
    [| discriminate].
  rewrite (splitAtFirst_app _ _ s _ _ Ho).
  destruct (splitAtFirst (js "</summary>") after) as [[body rest] |] eqn:Hc;
    [| discriminate].
  now rewrite (splitAtFirst_app _ _ s _ _ Hc).
Qed.

Lemma onContent_summary (msg : AssistantMsg) (b content : str) :
  summaryClosed b = true -> summary msg = summaryOf b ->
  summary (onContent (msg, b) content).1 = summaryOf b
  /\ (onContent (msg, b) content).2 = b ++ content.
Proof.
  intros Hclosed Hmsg. destruct content as [| c content'].
  - simpl. now rewrite app_nil_r.
  - set (content := c :: content'). split; [| reflexivity].
    pose proof (summaryOf_app b content Hclosed) as Hsame.
    rewrite <- Hsame in Hmsg |- *. clear Hsame.
    unfold onContent. fold content. cbv zeta.
    unfold summaryOf in Hmsg |- *.
    destruct (matchTagged (js "<think>") _ _);
      destruct (matchTagged (js "<summary>") (js "</summary>") (b ++ content));
      destruct (matchTagged (js "<check>") _ _); simpl;
      first [reflexivity | exact Hmsg].
Qed.

(** C9: once the buffer [b] holds a closed summary region, the summary
    extracted from any longer buffer [b ++ s] is the one extracted from [b],
    and the [summary] field stays at that value through any further
    chunks, whatever they contain. *)
Theorem summary_closed_is_final (b : str) (chunks : list str)
    (msg : AssistantMsg) :
  summaryClosed b = true ->
  summary msg = summaryOf b ->
  (forall s, summaryOf (b ++ s) = summaryOf b)
  /\ summary (onContents (msg, b) chunks).1 = summaryOf b
  /\ (onContents (msg, b) chunks).2 = b ++ concat chunks.
Proof.
  intros Hclosed Hmsg. split; [intros s; now apply summaryOf_app |].
  revert msg b Hclosed Hmsg. unfold onContents.
  induction chunks as [| c chunks IH]; intros msg b Hclosed Hmsg.
  - simpl. now rewrite app_nil_r.
  - cbn [fold_left concat].
    destruct (onContent_summary msg b c Hclosed Hmsg) as [Hs Ht].
    destruct (onContent (msg, b) c) as [msg1 b1]. cbn [fst snd] in Hs, Ht.
    subst b1.
    destruct (IH msg1 (b ++ c)) as [IH1 IH2].
    + now apply summaryClosed_app.
    + rewrite Hs. symmetry. now apply summaryOf_app.
    + split; [rewrite IH1; now apply summaryOf_app |].
      rewrite IH2. now rewrite <- app_assoc.
Qed.

Lemma summary_closed_is_final_witness :
  summary (onContents
             (mkMsg None false (Some (js "ab")) None,
              js "<summary>ab</summary>")
             [js "<summary>zz"; js "</summary><content>c"]).1
  = Some (js "ab").
Proof.
  apply (summary_closed_is_final (js "<summary>ab</summary>")
           [js "<summary>zz"; js "</summary><content>c"]
           (mkMsg None false (Some (js "ab")) None)
           ltac:(vm_compute; reflexivity) ltac:(vm_compute; reflexivity)).
Defined.

End DemuxFacts.

(** ** Numbering prefixes *)

Section PrefixFacts.
Import Outline.

Example getSectionNumberPrefix_examples :
  getSectionNumberPrefix (js "1. 总览") = js "1"
  /\ getSectionNumberPrefix (js "1.1 背景") = js "1.1"
  /\ getSectionNumberPrefix (js "1.1.1. x") = js "1.1.1"
  /\ getSectionNumberPrefix (js "2.a") = js "2"
  /\ getSectionNumberPrefix (js "三、方案") = js "3"
  /\ getSectionNumberPrefix (js "十二、附录") = js "12"
  /\ getSectionNumberPrefix (js "二十一、附录") = js "二十一"
  /\ getSectionNumberPrefix (js "（二）范围") = js "2"
  /\ getSectionNumberPrefix (js "三方案") = js ""
  /\ getSectionNumberPrefix (js "总览") = js "".
Proof. repeat split; reflexivity. Qed.

Example reconstructHierarchy_example :
  List.map (fun s => (title s, parentId s))
    (reconstructHierarchy
       [ mkSection (NumId 30) Undefined (js "1.1.1 细节") [] 500 None;
         mkSection (NumId 10) Undefined (js "一、总览") [] 500 None;
         mkSection (NumId 40) Undefined (js "附录") [] 500 None;
         mkSection (NumId 20) Undefined (js "1.1 背景") [] 500 None;
         mkSection (NumId 50) Undefined (js "2.1 孤立") [] 500 None ])
  = [ (js "一、总览", Null); (js "1.1 背景", Ref (NumId 10));
      (js "1.1.1 细节", Ref (NumId 20)); (js "2.1 孤立", Null);
      (js "附录", Null) ].
Proof. vm_compute. reflexivity. Qed.

Example split_join_examples :
  split DOT (js "1.1.1") = [js "1"; js "1"; js "1"]
  /\ join DOT (removelast (split DOT (js "1.12.3"))) = js "1.12"
  /\ split DOT (js "7") = [js "7"].
Proof. repeat split; reflexivity. Qed.

End PrefixFacts.

(** ** Hierarchy reconstruction *)

Section HierarchyFacts.
Import Outline.

Lemma insertSorted_Permutation compare x l :
  insertSorted compare x l ≡ₚ x :: l.
Proof.
  induction l as [| y l IH]; simpl; [reflexivity |].
  destruct (goesAfter compare x y); [| reflexivity].
  rewrite IH. apply Permutation_swap.
Qed.

Lemma sort_Permutation compare l : sort compare l ≡ₚ l.
Proof.
  induction l as [| x l IH]; simpl; [reflexivity |].
  unfold sort in *. simpl. rewrite insertSorted_Permutation. now rewrite IH.
Qed.

Lemma recordPrefix_lookup m item p :
  recordPrefix m item !! p
  = if decide (getSectionNumberPrefix (title item) = p /\ p <> [])
    then Some (id item) else m !! p.
Proof.
  unfold recordPrefix.
  destruct (getSectionNumberPrefix (title item)) as [| c q] eqn:Hq.
  - destruct (decide _) as [[<- Hne] |]; [now destruct Hne | reflexivity].
  - destruct (decide _) as [[<- _] | Hn].
    + apply lookup_insert_eq.
    + apply lookup_insert_ne. intros <-. apply Hn. split; [reflexivity | discriminate].
Qed.




Lemma buildPrefixMap_fold data :
  buildPrefixMap data = fold_left recordPrefix data ∅.
Proof. reflexivity. Qed.

(** Splitting a dotted prefix and joining all parts but the last. *)
Lemma split_no_sep sep s : sep ∉ s -> split sep s = [s].
Proof.
  induction s as [| c t IH]; simpl; [reflexivity |].
  intros Hn. destruct (N.eqb_spec c sep) as [-> | Hne].
  - exfalso. apply Hn. now left.
  - rewrite IH; [reflexivity |]. intros Hin. apply Hn. now right.
Qed.








End HierarchyFacts.

Section ReconstructionFacts.
Import Outline.

Lemma reconstructHierarchy_Permutation data :
  reconstructHierarchy data ≡ₚ List.map (linkParent (buildPrefixMap data)) data.
Proof.
  unfold reconstructHierarchy. destruct data as [| x data]; [reflexivity |].
  apply sort_Permutation.
Qed.

Lemma linkParent_only_parentId m item :
  linkParent m item = withParentId item (parentId (linkParent m item)).
Proof.
  unfold linkParent.
  destruct (getSectionNumberPrefix (title item)); [reflexivity |].
  destruct (if (1 <? _)%nat then _ else _) as [parent |]; [| reflexivity].
  now destruct (truthyId parent).
Qed.









End ReconstructionFacts.

(** ** Flatten and re-nest *)

Section NestingFacts.
Import Outline Nesting.

(** [buildTree] as the source writes it, with its depth guard. *)
Lemma buildTree_unfold flat parentId depth :
  buildTree flat parentId depth
  = if (10 <? depth)%nat then []
    else List.map
           (fun item =>
              makeNode item (buildTree flat (Ref (id item)) (depth + 1)))
           (filter (fun item => Outline.parentId item = parentId) flat).
Proof.
  unfold buildTree. destruct (Nat.ltb_spec 10 depth) as [Hgt | Hle].
  - now replace (11 - depth)%nat with 0%nat by lia.
  - replace (11 - depth)%nat with (S (11 - (depth + 1))) by lia. reflexivity.
Qed.

Example buildTree_depth_guard flat parentId :
  buildTree flat parentId 11 = []
  /\ buildTree flat parentId 10
     = List.map (fun item => makeNode item [])
         (filter (fun item => Outline.parentId item = parentId) flat).
Proof. split; reflexivity. Qed.

Example flatten_then_nest_example :
  let outline :=
    [ Nested (mkSection (NumId 1) Undefined (js "一、总览") [] 900 None)
        (Some [ Nested (mkSection (NumId 2) Undefined (js "1.1 背景") [] 400 None) None;
                Nested (mkSection (NumId 3) Undefined (js "1.2 目标") [] 500 None)
                  (Some []) ]);
      Nested (mkSection (NumId 4) Undefined (js "二、方案") [] 700 None) None ] in
  List.map (fun s => (id s, parentId s)) (parseNestedOutline outline)
  = [ (NumId 1, Null); (NumId 2, Ref (NumId 1)); (NumId 3, Ref (NumId 1));
      (NumId 4, Null) ]
  /\ treeData (parseNestedOutline outline) = List.map nodeOf outline.
Proof. split; vm_compute; reflexivity. Qed.

Example chain_levels :
  forestLevels (chain 11 1) = 11%nat /\ forestLevels (chain 12 1) = 12%nat.
Proof. split; reflexivity. Qed.

End NestingFacts.

Section RoundTrip.
Import Outline Nesting.

Lemma flattenItem_unfold r rest children :
  flattenItem r (Nested rest children)
  = withParentId rest r
    :: flattenOutline (itemChildren (Nested rest children)) (Ref (id rest)).
Proof. destruct children as [[| c cs] |]; reflexivity. Qed.









Lemma descendants_unfold item :
  descendants item = item :: allItems (itemChildren item).
Proof. destruct item as [rest [cs |]]; reflexivity. Qed.











End RoundTrip.

(** ** Heading-inference merges *)

Section MergeExamples.
Import Outline Merge.

Example getNormalizedTitle_examples :
  getNormalizedTitle (js "1. 总览") = js "总览"
  /\ getNormalizedTitle (js "## 2.1  Project   **Scope**") = js "project scope"
  /\ getNormalizedTitle (js "** foo**") = js " foo"
  /\ getNormalizedTitle (js "1.1  foo") = js "foo".
Proof. repeat split; reflexivity. Qed.

Example matchAllHeadings_example :
  matchAllHeadings
    (join 10 [js "intro"; js "### 背景"; js "内容A"; js "####x"; js "#### 目标"])
  = [ mkMatch 6 6 3 (js "背景"); mkMatch 23 7 4 (js "目标") ].
Proof. reflexivity. Qed.

Example matchAllHeadings_title_on_next_line :
  matchAllHeadings (join 10 [js "## "; js "abc"]) = [mkMatch 0 7 2 (js "abc")]
  /\ matchAllHeadings (js "###  ") = [mkMatch 0 5 3 (js " ")].
Proof. split; reflexivity. Qed.

End MergeExamples.

Section MergeFacts.
Import Outline Merge.

Lemma spliceAfter_Permutation {A} (found : option nat) (xs l : list A) :
  spliceAfter found xs l ≡ₚ xs ++ l.
Proof.
  unfold spliceAfter.
  set (pos := match found with Some i => S i | None => 0%nat end).
  rewrite <- (take_drop pos l) at 3.
  rewrite !app_assoc. apply Permutation_app_tail, Permutation_app_comm.
Qed.

Lemma NoDup_map_filter {A B} (f : A -> B) (P : A -> Prop)
    `{!forall x, Decision (P x)} (l : list A) :
  NoDup (List.map f l) -> NoDup (List.map f (filter P l)).
Proof.
  induction l as [| x l IH]; simpl; [trivial |].
  rewrite filter_cons. intros Hnd. apply NoDup_cons in Hnd as [Hx Hnd].
  destruct (decide (P x)); [| now apply IH].
  simpl. apply NoDup_cons. split; [| now apply IH].
  intros Hin. apply Hx.
  apply list_elem_of_In, List.in_map_iff in Hin as (y & Hy & Hin).
  apply list_elem_of_In, List.in_map_iff. exists y. split; [exact Hy |].
  apply list_elem_of_In in Hin. apply list_elem_of_filter in Hin as [_ Hin].
  now apply list_elem_of_In.
Qed.

Lemma elem_of_normalizedTitles t sections :
  t ∈ normalizedTitles sections
  <-> exists s, s ∈ sections /\ getNormalizedTitle (title s) = t.
Proof.
  unfold normalizedTitles. rewrite list_elem_of_In, List.in_map_iff.
  split; intros (s & H1 & H2); exists s.
  - split; [now apply list_elem_of_In | exact H1].
  - split; [exact H2 | now apply list_elem_of_In].
Qed.

Lemma normalizedTitles_Permutation l l' :
  l ≡ₚ l' -> normalizedTitles l ≡ₚ normalizedTitles l'.
Proof. apply Permutation_map. Qed.

(** *** The realtime merge *)

Section Realtime.
Variables (now : nat -> Z) (parentId : Id) (parentTitle : str)
  (parentLevel : nat).

Abbreviation step := (realtimeStep now parentId parentTitle parentLevel).
Abbreviation loop := (realtimeLoop now parentId parentTitle parentLevel).

Lemma realtimeStep_cases i m documentData existingTitles :
  step i m (documentData, existingTitles) = (documentData, existingTitles)
  \/ ((getNormalizedTitle (trim (headingText m)) ∉ existingTitles)
      /\ (exists found newId k,
             step i m (documentData, existingTitles)
             = (spliceAfter found
                  [mkSection newId (Ref parentId)
                     (fixSectionTitleNumbering parentTitle
                        (trim (headingText m)) k)
                     [] 500 (Some pending)]
                  documentData,
                {[getNormalizedTitle (trim (headingText m))]}
                  ∪ existingTitles))).
Proof.
  unfold realtimeStep.
  destruct (level m <=? parentLevel)%nat; [now left |].
  destruct (bool_decide (_ ∈ existingTitles)) eqn:Hex; [now left |].
  destruct (bool_decide (_ = _)); [now left |].
  right. apply bool_decide_eq_false in Hex. split; [exact Hex |].
  simpl. eauto.
Qed.

Lemma realtimeStep_invariant i m documentData existingTitles :
  (forall k,
      getNormalizedTitle
        (fixSectionTitleNumbering parentTitle (trim (headingText m)) k)
      = getNormalizedTitle (trim (headingText m))) ->
  (forall s, s ∈ documentData ->
             getNormalizedTitle (title s) ∈ existingTitles) ->
  NoDup (normalizedTitles documentData) ->
  (forall s, s ∈ (step i m (documentData, existingTitles)).1 ->
      getNormalizedTitle (title s)
      ∈ (step i m (documentData, existingTitles)).2)
  /\ NoDup (normalizedTitles (step i m (documentData, existingTitles)).1)
  /\ exists added,
       (step i m (documentData, existingTitles)).1 ≡ₚ added ++ documentData.
Proof.
  intros Hstable Hcover Hnd.
  destruct (realtimeStep_cases i m documentData existingTitles)
    as [-> | (Hnew & found & newId & k & ->)]; cbn [fst snd].
  - repeat split; try assumption. now exists [].
  - match goal with
    | |- context [spliceAfter found [?x] documentData] => set (newSection := x)
    end.
    pose proof (spliceAfter_Permutation found [newSection] documentData)
      as Hperm.
    assert (Htitle : getNormalizedTitle (title newSection)
                     = getNormalizedTitle (trim (headingText m))).
    { subst newSection. cbn [title]. apply Hstable. }
    repeat split.
    + intros s Hs. rewrite Hperm in Hs. apply elem_of_cons in Hs as [Heq | Hs].
      * rewrite Heq. apply elem_of_union_l, elem_of_singleton. exact Htitle.
      * specialize (Hcover s Hs). set_solver.
    + rewrite (normalizedTitles_Permutation _ _ Hperm).
      change (NoDup (getNormalizedTitle (title newSection)
                       :: normalizedTitles documentData)).
      rewrite Htitle. apply NoDup_cons. split; [| exact Hnd].
      intros Hin. apply Hnew.
      apply elem_of_normalizedTitles in Hin as (s & Hs & <-). now apply Hcover.
    + exists [newSection]. exact Hperm.
Qed.

Lemma realtimeLoop_invariant matches :
  (forall m k, m ∈ matches ->
      getNormalizedTitle
        (fixSectionTitleNumbering parentTitle (trim (headingText m)) k)
      = getNormalizedTitle (trim (headingText m))) ->
  forall i documentData existingTitles,
    (forall s, s ∈ documentData ->
               getNormalizedTitle (title s) ∈ existingTitles) ->
    NoDup (normalizedTitles documentData) ->
    NoDup (normalizedTitles (loop i matches (documentData, existingTitles)).1)
    /\ exists added,
         (loop i matches (documentData, existingTitles)).1
         ≡ₚ added ++ documentData.
Proof.
  induction matches as [| m matches IH]; intros Hstable i doc ex Hcover Hnd.
  - simpl. split; [exact Hnd | now exists []].
  - cbn [realtimeLoop].
    destruct (realtimeStep_invariant i m doc ex) as (Hc & Hn & added & Hp);
      [intros k; apply Hstable; now left | exact Hcover | exact Hnd |].
    destruct (step i m (doc, ex)) as [doc1 ex1]. cbn [fst snd] in *.
    destruct (IH (fun m' k Hm => Hstable m' k (list_elem_of_further _ _ _ Hm))
                (S i) doc1 ex1 Hc Hn) as (Hn' & added' & Hp').
    split; [exact Hn' |]. exists (added' ++ added).
    rewrite Hp', Hp. now rewrite app_assoc.
Qed.

Lemma realtimeLoop_noop matches :
  forall i documentData existingTitles,
    (forall m, m ∈ matches ->
        getNormalizedTitle (trim (headingText m)) ∈ existingTitles) ->
    loop i matches (documentData, existingTitles)
    = (documentData, existingTitles).
Proof.
  induction matches as [| m matches IH]; intros i doc ex Hall; [reflexivity |].
  cbn [realtimeLoop].
  assert (Hstep : step i m (doc, ex) = (doc, ex)).
  { unfold realtimeStep. cbv zeta.
    destruct (level m <=? parentLevel)%nat; [reflexivity |].
    rewrite (bool_decide_eq_true_2 (_ ∈ ex)) by (apply Hall; now left).
    reflexivity. }
  rewrite Hstep. apply IH. intros m' Hm'. apply Hall. now right.
Qed.

End Realtime.

(** *** The final merge *)

Section Final.
Variables (now : nat -> Z) (parentId : Id) (parentTitle fullContent : str).

Abbreviation floop := (finalLoop now parentId parentTitle fullContent).

Lemma finalLoop_cons i m rest newSubSections existingOtherTitles :
  floop i (m :: rest) (newSubSections, existingOtherTitles)
  = floop (S i) rest (newSubSections, existingOtherTitles)
  \/ ((getNormalizedTitle (trim (headingText m)) ∉ existingOtherTitles)
      /\ (exists newId content,
             floop i (m :: rest) (newSubSections, existingOtherTitles)
             = floop (S i) rest
                 (newSubSections
                    ++ [mkSection newId (Ref parentId)
                          (fixSectionTitleNumbering parentTitle
                             (trim (headingText m)) (length newSubSections))
                          content 500 (Some completed)],
                  {[getNormalizedTitle (trim (headingText m))]}
                    ∪ existingOtherTitles))).
Proof.
  cbn [finalLoop].
  destruct (bool_decide (_ ∈ existingOtherTitles)) eqn:Hex; [now left |].
  right. apply bool_decide_eq_false in Hex. split; [exact Hex |]. eauto.
Qed.

Lemma finalLoop_invariant matches :
  (forall m k, m ∈ matches ->
      getNormalizedTitle
        (fixSectionTitleNumbering parentTitle (trim (headingText m)) k)
      = getNormalizedTitle (trim (headingText m))) ->
  forall i newSubSections existingOtherTitles,
    NoDup (normalizedTitles newSubSections) ->
    (forall s, s ∈ newSubSections ->
               getNormalizedTitle (title s) ∈ existingOtherTitles) ->
    NoDup (normalizedTitles
             (floop i matches (newSubSections, existingOtherTitles)).1)
    /\ (forall s,
          s ∈ (floop i matches (newSubSections, existingOtherTitles)).1 ->
          s ∈ newSubSections
          \/ (Outline.parentId s = Ref parentId
              /\ (getNormalizedTitle (title s) ∉ existingOtherTitles)
              /\ (exists m, m ∈ matches
                            /\ getNormalizedTitle (title s)
                               = getNormalizedTitle (trim (headingText m))))).
Proof.
  induction matches as [| m matches IH]; intros Hstable i subs ex Hnd Hcover.
  - cbn [finalLoop fst]. split; [exact Hnd | now left].
  - assert (Hstable' : forall m' k, m' ∈ matches ->
               getNormalizedTitle
                 (fixSectionTitleNumbering parentTitle (trim (headingText m')) k)
               = getNormalizedTitle (trim (headingText m'))).
    { intros m' k Hm'. apply Hstable. now right. }
    destruct (finalLoop_cons i m matches subs ex)
      as [-> | (Hnew & newId & content & ->)].
    + destruct (IH Hstable' (S i) subs ex Hnd Hcover) as [Hn Hin].
      split; [exact Hn |]. intros s Hs.
      destruct (Hin s Hs) as [? | (Hp & Hex & m' & Hm' & Ht)]; [now left |].
      right. split; [exact Hp |]. split; [exact Hex |].
      exists m'. split; [now right | exact Ht].
    + match goal with
      | |- context [subs ++ [?x]] => set (newSection := x)
      end.
      assert (Htitle : getNormalizedTitle (title newSection)
                       = getNormalizedTitle (trim (headingText m))).
      { subst newSection. cbn [title]. apply Hstable. now left. }
      destruct (IH Hstable' (S i) (subs ++ [newSection])
                  ({[getNormalizedTitle (trim (headingText m))]} ∪ ex))
        as [Hn Hin].
      * unfold normalizedTitles. rewrite List.map_app. apply NoDup_app.
        split; [exact Hnd |]. split.
        -- intros t Ht Ht'. apply list_elem_of_singleton in Ht'. subst t.
           apply elem_of_normalizedTitles in Ht as (s & Hs & Hts).
           apply Hnew. rewrite <- Htitle, <- Hts. now apply Hcover.
        -- apply NoDup_singleton.
      * intros s Hs. apply elem_of_app in Hs as [Hs | Hs].
        -- apply elem_of_union_r. now apply Hcover.
        -- apply list_elem_of_singleton in Hs. rewrite Hs.
           apply elem_of_union_l, elem_of_singleton. exact Htitle.
      * split; [exact Hn |]. intros s Hs.
        destruct (Hin s Hs) as [Hs' | (Hp & Hex & m' & Hm' & Ht)].
        -- apply elem_of_app in Hs' as [Hs' | Hs']; [now left |].
           apply list_elem_of_singleton in Hs'. right. rewrite Hs'.
           split; [reflexivity |]. split.
           ++ now rewrite Htitle.
           ++ exists m. split; [now left | exact Htitle].
        -- right. split; [exact Hp |]. split.
           ++ intros Hin'. apply Hex. now apply elem_of_union_r.
           ++ exists m'. split; [now right | exact Ht].
Qed.

End Final.

Lemma normalizedTitles_insert_content documentData i parent c :
  documentData !! i = Some parent ->
  normalizedTitles (<[i := withContent parent c]> documentData)
  = normalizedTitles documentData
  /\ List.map id (<[i := withContent parent c]> documentData)
     = List.map id documentData.
Proof.
  revert i. induction documentData as [| x l IH]; intros i Hi;
    [split; reflexivity |].
  destruct i as [| i]; simpl in Hi |- *.
  - injection Hi as ->. split; reflexivity.
  - destruct (IH i Hi) as [H1 H2]. unfold normalizedTitles in *. simpl.
    now rewrite H1, H2.
Qed.

Lemma NoDup_map_eq {A B} (f : A -> B) (l : list A) (x y : A) :
  NoDup (List.map f l) -> x ∈ l -> y ∈ l -> f x = f y -> x = y.
Proof.
  induction l as [| z l IH]; intros Hnd Hx Hy Hf;
    [now apply elem_of_nil in Hx |].
  simpl in Hnd. apply NoDup_cons in Hnd as [Hz Hnd].
  assert (Hin : forall w, w ∈ l -> f w ∈ List.map f l).
  { intros w Hw. apply list_elem_of_In, List.in_map. now apply list_elem_of_In. }
  apply elem_of_cons in Hx as [-> | Hx]; apply elem_of_cons in Hy as [-> | Hy].
  - reflexivity.
  - exfalso. apply Hz. rewrite Hf. now apply Hin.
  - exfalso. apply Hz. rewrite <- Hf. now apply Hin.
  - now apply IH.
Qed.

Lemma syncSubSectionsToOutline_unique now documentData parentId fullContent :
  NoDup (normalizedTitles documentData) ->
  NoDup (List.map id documentData) ->
  (forall parent m k,
      parent ∈ documentData -> id parent = parentId ->
      m ∈ matchAllHeadings fullContent ->
      getNormalizedTitle
        (fixSectionTitleNumbering (title parent) (trim (headingText m)) k)
      = getNormalizedTitle (trim (headingText m))) ->
  NoDup (normalizedTitles
           (syncSubSectionsToOutline now documentData parentId fullContent)).
Proof.
  intros Hnd Hids Hstable. unfold syncSubSectionsToOutline.
  destruct (matchAllHeadings fullContent) as [| m0 ms] eqn:Hmatches;
    [exact Hnd |].
  destruct (list_find _ documentData) as [[parentIndex parent] |] eqn:Hfind;
    [| exact Hnd].
  apply list_find_Some in Hfind as (Hlookup & Hid & _).
  assert (Hparent : parent ∈ documentData)
    by (apply list_elem_of_lookup; eauto).
  set (actualMatches := List.filter _ (m0 :: ms)).
  assert (Hactual : forall m, m ∈ actualMatches ->
             m ∈ m0 :: ms
             /\ getNormalizedTitle (trim (headingText m))
                <> getNormalizedTitle (title parent)).
  { intros m Hm. apply list_elem_of_In, List.filter_In in Hm as [Hm Hok].
    split; [now apply list_elem_of_In |].
    unfold isActualMatch in Hok.
    destruct (level m <=? _)%nat; [discriminate |].
    destruct (bool_decide _) eqn:Hb; [discriminate |].
    now apply bool_decide_eq_false in Hb. }
  destruct actualMatches as [| first rest] eqn:Hact.
  - now rewrite (proj1 (normalizedTitles_insert_content _ _ _ _ Hlookup)).
  - cbv zeta.
    set (doc1 := <[parentIndex := withContent parent _]> documentData).
    destruct (normalizedTitles_insert_content documentData parentIndex parent
                (trim (substring 0 (index first) fullContent)) Hlookup)
      as [Htitles Hids1].
    fold doc1 in Htitles, Hids1.
    set (existing := list_to_set (normalizedTitles (filter _ doc1)) : gset str).
    destruct (finalLoop_invariant now parentId (title parent) fullContent
                (first :: rest)
                (fun m k Hm => Hstable parent m k Hparent Hid
                                 (proj1 (Hactual m Hm)))
                0%nat [] existing)
      as [Hsubs Horigin].
    { constructor. }
    { intros s Hs. now apply elem_of_nil in Hs. }
    set (newSubSections := (finalLoop _ _ _ _ _ _ _).1) in *.
    rewrite (normalizedTitles_Permutation _ _
               (spliceAfter_Permutation _ newSubSections _)).
    unfold normalizedTitles at 1. rewrite List.map_app. apply NoDup_app.
    split; [exact Hsubs |]. split.
    + intros t Hnew Hold.
      apply elem_of_normalizedTitles in Hnew as (s & Hs & <-).
      apply elem_of_normalizedTitles in Hold as (o & Ho & Hto).
      destruct (Horigin s Hs) as [Hnil | (_ & Hfresh & m & Hm & Htm)];
        [now apply elem_of_nil in Hnil |].
      apply list_elem_of_filter in Ho as [Hop Ho].
      destruct (decide (id o = parentId)) as [Hoid | Hoid].
      * assert (o = withContent parent
                      (trim (substring 0 (index first) fullContent))) as ->.
        { apply (NoDup_map_eq id doc1); [now rewrite Hids1 | exact Ho | |].
          - apply list_elem_of_lookup. exists parentIndex.
            apply list_lookup_insert_eq.
            now apply lookup_lt_Some in Hlookup.
          - now rewrite Hoid. }
        apply (proj2 (Hactual m Hm)). rewrite <- Htm, <- Hto. reflexivity.
      * apply Hfresh. unfold existing. apply elem_of_list_to_set.
        apply elem_of_normalizedTitles. exists o. split; [| exact Hto].
        apply list_elem_of_filter. split; [split; assumption | exact Ho].
    + apply NoDup_map_filter. fold (normalizedTitles doc1).
      now rewrite Htitles.
Qed.

Lemma syncSubSectionsToOutlineRealtime_unique now documentData parentId
    fullContent :
  NoDup (normalizedTitles documentData) ->
  (forall parent m k,
      parent ∈ documentData -> id parent = parentId ->
      m ∈ matchAllHeadings fullContent ->
      getNormalizedTitle
        (fixSectionTitleNumbering (title parent) (trim (headingText m)) k)
      = getNormalizedTitle (trim (headingText m))) ->
  NoDup (normalizedTitles
           (syncSubSectionsToOutlineRealtime now documentData parentId
              fullContent))
  /\ exists added,
       syncSubSectionsToOutlineRealtime now documentData parentId fullContent
       ≡ₚ added ++ documentData.
Proof.
  intros Hnd Hstable. unfold syncSubSectionsToOutlineRealtime.
  destruct (matchAllHeadings fullContent) as [| m0 ms] eqn:Hmatches;
    [split; [exact Hnd | now exists []] |].
  destruct (list_find _ documentData) as [[parentIndex parent] |] eqn:Hfind;
    [| split; [exact Hnd | now exists []]].
  apply list_find_Some in Hfind as (Hlookup & Hid & _).
  assert (Hparent : parent ∈ documentData)
    by (apply list_elem_of_lookup; eauto).
  apply realtimeLoop_invariant.
  - intros m k Hm. now apply (Hstable parent m k Hparent Hid).
  - intros s Hs. apply elem_of_list_to_set, elem_of_normalizedTitles. eauto.
  - exact Hnd.
Qed.

Lemma syncSubSectionsToOutlineRealtime_noop now documentData parentId
    fullContent :
  (forall m, m ∈ matchAllHeadings fullContent ->
      getNormalizedTitle (trim (headingText m))
      ∈ normalizedTitles documentData) ->
  syncSubSectionsToOutlineRealtime now documentData parentId fullContent
  = documentData.
Proof.
  intros Hall. unfold syncSubSectionsToOutlineRealtime.
  destruct (matchAllHeadings fullContent) as [| m0 ms]; [reflexivity |].
  destruct (list_find _ documentData) as [[parentIndex parent] |];
    [| reflexivity].
  rewrite realtimeLoop_noop; [reflexivity |].
  intros m Hm. apply elem_of_list_to_set. now apply Hall.
Qed.

(** Sections that are neither the parent nor its children are kept by the
    final merge. *)
Lemma syncSubSectionsToOutline_keeps_others now documentData parentId
    fullContent o :
  o ∈ documentData -> Outline.parentId o <> Ref parentId -> id o <> parentId ->
  o ∈ syncSubSectionsToOutline now documentData parentId fullContent.
Proof.
  intros Ho Hop Hoid. unfold syncSubSectionsToOutline.
  destruct (matchAllHeadings fullContent) as [| m0 ms]; [exact Ho |].
  destruct (list_find _ documentData) as [[parentIndex parent] |] eqn:Hfind;
    [| exact Ho].
  apply list_find_Some in Hfind as (Hlookup & Hid & _).
  assert (Hkept : forall c, o ∈ <[parentIndex := withContent parent c]> documentData).
  { intros c. apply list_elem_of_lookup in Ho as (j & Hj).
    apply list_elem_of_lookup. exists j.
    rewrite list_lookup_insert_ne; [exact Hj |].
    intros <-. rewrite Hlookup in Hj. injection Hj as <-. now apply Hoid. }
  destruct (List.filter _ (m0 :: ms)) as [| first rest]; [apply Hkept |].
  cbv zeta. rewrite spliceAfter_Permutation. apply elem_of_app. right.
  apply list_elem_of_filter. split; [exact Hop | apply Hkept].
Qed.

(** *** Renumbered titles *)

Lemma skipSpaces_app_nonspace x c y :
  isSpace c = false -> skipSpaces (x ++ c :: y) = skipSpaces x ++ c :: y.
Proof.
  intros Hc. induction x as [| e x IH]; simpl; [now rewrite Hc |].
  now destruct (isSpace e).
Qed.

Lemma trimEnd_app_nonspace a c b :
  isSpace c = false -> trimEnd ((a ++ [c]) ++ b) = (a ++ [c]) ++ trimEnd b.
Proof.
  intros Hc. unfold trimEnd.
  rewrite rev_app_distr, rev_unit.
  rewrite (skipSpaces_app_nonspace (rev b) c (rev a) Hc).
  rewrite rev_app_distr. simpl. now rewrite rev_involutive.
Qed.

Lemma skipSpaces_suffix z : exists pre, z = pre ++ skipSpaces z.
Proof.
  induction z as [| c z (pre & IH)]; [now exists [] |].
  simpl. destruct (isSpace c); [| now exists []].
  exists (c :: pre). simpl. now rewrite <- IH.
Qed.

Lemma trimEnd_prefix l : exists suffix, l = trimEnd l ++ suffix.
Proof.
  unfold trimEnd. destruct (skipSpaces_suffix (rev l)) as (pre & Hpre).
  exists (rev pre). rewrite <- rev_app_distr, <- Hpre. now rewrite rev_involutive.
Qed.

Lemma lowerUnit_below_upper c : (c <? 65)%N = true -> lowerUnit c = c.
Proof.
  intros Hc. apply N.ltb_lt in Hc. unfold lowerUnit.
  repeat match goal with
         | |- context [(?a <=? c)%N] =>
             replace (a <=? c)%N with false by (symmetry; apply N.leb_gt; lia)
         end.
  reflexivity.
Qed.

Lemma isDigitOrDot_facts c :
  isDigitOrDot c = true ->
  lowerUnit c = c /\ isSpace c = false /\ (c =? HASH)%N = false.
Proof.
  unfold isDigitOrDot, isDigit. intros Hc.
  assert (Hrange : (46 <= c <= 57)%N).
  { apply orb_true_iff in Hc as [Hc | Hc].
    - apply andb_true_iff in Hc as [H1 H2].
      apply N.leb_le in H1, H2. lia.
    - apply N.eqb_eq in Hc. subst c. unfold DOT. lia. }
  split; [apply lowerUnit_below_upper, N.ltb_lt; lia |].
  split.
  - unfold isSpace, isLineTerminator.
    repeat match goal with
           | |- context [(c =? ?a)%N] =>
               replace (c =? a)%N with false by (symmetry; apply N.eqb_neq; lia)
           end.
    replace (8192 <=? c)%N with false by (symmetry; apply N.leb_gt; lia).
    reflexivity.
  - apply N.eqb_neq. unfold HASH. lia.
Qed.

Lemma dropNumbering_app num rest :
  Forall (fun c => isDigitOrDot c = true) num ->
  dropNumbering (num ++ rest) = dropNumbering rest.
Proof.
  induction 1 as [| c num Hc _ IH]; simpl; [reflexivity |]. now rewrite Hc.
Qed.

Lemma toLowerCase_numbering num :
  Forall (fun c => isDigitOrDot c = true) num -> toLowerCase num = num.
Proof.
  unfold toLowerCase.
  induction 1 as [| c num Hc _ IH]; simpl; [reflexivity |].
  destruct (isDigitOrDot_facts c Hc) as (Hlow & _). now rewrite Hlow, IH.
Qed.

(** The normalized title of a numbered title does not depend on the
    numbering. *)
Lemma getNormalizedTitle_numbered num rest :
  num <> [] -> Forall (fun c => isDigitOrDot c = true) num ->
  getNormalizedTitle (num ++ SPACE :: rest)
  = gsub spaceRun
      (gsub boldMarker
         (skipSpaces (toLowerCase (trimEnd (SPACE :: rest))))).
Proof.
  intros Hne Hnum.
  destruct num as [| d num'] using rev_ind; [contradiction |]. clear IHnum' Hne.
  rename num' into a. rename d into c.
  assert (Hc : isDigitOrDot c = true).
  { rewrite Forall_forall in Hnum. apply Hnum, elem_of_app. right. now left. }
  destruct (isDigitOrDot_facts c Hc) as (_ & Hsp & _).
  unfold getNormalizedTitle.
  destruct ((a ++ [c]) ++ SPACE :: rest) as [| h t] eqn:Hs;
    [now destruct a |].
  rewrite <- Hs. clear h t Hs.
  assert (Hhead : exists d t, a ++ [c] = d :: t /\ isDigitOrDot d = true
                              /\ Forall (fun c => isDigitOrDot c = true) t).
  { destruct a as [| d t]; simpl.
    - exists c, []. now repeat split.
    - exists d, (t ++ [c]). apply Forall_cons in Hnum as [Hd Ht].
      now repeat split. }
  destruct Hhead as (d & t & Hdt & Hd & Ht).
  destruct (isDigitOrDot_facts d Hd) as (Hlow & Hdsp & Hhash).
  unfold trim, trimStart.
  assert (skipSpaces ((a ++ [c]) ++ SPACE :: rest)
          = (a ++ [c]) ++ SPACE :: rest) as ->.
  { rewrite Hdt. simpl. now rewrite Hdsp. }
  rewrite (trimEnd_app_nonspace a c (SPACE :: rest) Hsp).
  set (X := trimEnd (SPACE :: rest)).
  unfold toLowerCase. rewrite List.map_app. fold (toLowerCase (a ++ [c])).
  fold (toLowerCase X). rewrite (toLowerCase_numbering _ Hnum).
  assert (HX : toLowerCase X = [] \/ exists X', toLowerCase X = SPACE :: X').
  { destruct (trimEnd_prefix (SPACE :: rest)) as (suffix & Hpre). fold X in Hpre.
    destruct X as [| x X']; [now left |]. right.
    injection Hpre as <- _. exists (toLowerCase X'). reflexivity. }
  rewrite Hdt. simpl app.
  assert (stripHashes (d :: t ++ toLowerCase X) = d :: t ++ toLowerCase X) as ->.
  { unfold stripHashes. simpl. now rewrite Hhash. }
  unfold stripNumbering. rewrite Hd. rewrite (dropNumbering_app t _ Ht).
  destruct HX as [-> | (X' & ->)]; [reflexivity |].
  reflexivity.
Qed.

Lemma digitsOf_digits fuel n acc :
  Forall (fun c => isDigit c = true) acc ->
  Forall (fun c => isDigit c = true) (digitsOf fuel n acc).
Proof.
  revert n acc. induction fuel as [| f IH]; intros n acc Hacc; simpl;
    [exact Hacc |].
  assert (Hd : isDigit (48 + n mod 10) = true).
  { unfold isDigit. pose proof (N.mod_lt n 10 ltac:(discriminate)) as Hr.
    set (r := (n mod 10)%N) in *. clearbody r.
    apply andb_true_iff. split; apply N.leb_le; lia. }
  destruct (n <? 10)%N; [| apply IH]; now constructor.
Qed.

Lemma showN_digits n : Forall (fun c => isDigitOrDot c = true) (showN n).
Proof.
  unfold showN. eapply Forall_impl; [apply digitsOf_digits; constructor |].
  intros c Hc. unfold isDigitOrDot. now rewrite Hc.
Qed.

(** Renumbering keeps the normalized title of a heading when the parent has
    no prefix, and, for a prefix of digits and dots, when the normalized
    title survives being normalized again behind a number. *)
Lemma renumbering_stable parentTitle childTitle k :
  forallb isDigitOrDot (getSectionNumberPrefix parentTitle) = true ->
  getNormalizedTitle (js "0" ++ SPACE :: getNormalizedTitle childTitle)
  = getNormalizedTitle childTitle ->
  getNormalizedTitle (fixSectionTitleNumbering parentTitle childTitle k)
  = getNormalizedTitle childTitle.
Proof.
  intros Hprefix Hcheck. unfold fixSectionTitleNumbering.
  destruct (getSectionNumberPrefix parentTitle) as [| p0 p] eqn:Hp;
    [reflexivity |].
  rewrite <- Hcheck at 2. change (js "0") with [48%N].
  rewrite (getNormalizedTitle_numbered [48%N]);
    [| discriminate | constructor; [reflexivity | constructor]].
  rewrite !app_assoc.
  rewrite <- (app_assoc _ _ (getNormalizedTitle childTitle)).
  apply getNormalizedTitle_numbered; [now destruct p |].
  apply Forall_app. split; [apply Forall_app; split |].
  - apply Forall_forall. intros c Hc. rewrite List.forallb_forall in Hprefix.
    now apply Hprefix, list_elem_of_In.
  - now repeat constructor.
  - apply showN_digits.
Qed.

(** *** The claims on the merges *)

(** C1, as stated: with the headings written [## ...], the level of the
    top-level parent itself, the final merge finds no child heading; the
    whole body becomes the parent's content and no section is added. *)
Lemma final_merge_ignores_same_level_headings :
  syncSubSectionsToOutline (fun _ => 0)
    [mkSection (NumId 1) Null (js "1. 总览") [] 3000 (Some writing)]
    (NumId 1)
    (join 10 [js "## 背景"; js "内容A"; js "## 目标"; js "内容B"])
  = [mkSection (NumId 1) Null (js "1. 总览")
       (join 10 [js "## 背景"; js "内容A"; js "## 目标"; js "内容B"])
       3000 (Some writing)].
Proof. vm_compute. reflexivity. Qed.

(** C1 (amended): with the headings one level deeper than the top-level
    parent ([### ...]), the final merge on the parent "1. 总览" leaves the
    parent with the empty pre-heading prose and adds, right after it, the
    children "1.1 背景" with content "内容A" and "1.2 目标" with content
    "内容B"; with [## ...] headings the body stays whole in the parent. *)
Theorem final_merge_splits_deeper_headings (now : nat -> Z) (oldContent : str)
    (words : Z) (st : option Status) :
  syncSubSectionsToOutline now
    [mkSection (NumId 1) Null (js "1. 总览") oldContent words st]
    (NumId 1)
    (join 10 [js "### 背景"; js "内容A"; js "### 目标"; js "内容B"])
  = [ mkSection (NumId 1) Null (js "1. 总览") [] words st;
      mkSection (subId (NumId 1) (now 0%nat) 0) (Ref (NumId 1))
        (js "1.1 背景") (js "内容A") 500 (Some completed);
      mkSection (subId (NumId 1) (now 1%nat) 1) (Ref (NumId 1))
        (js "1.2 目标") (js "内容B") 500 (Some completed) ]
  /\ syncSubSectionsToOutline now
       [mkSection (NumId 1) Null (js "1. 总览") oldContent words st]
       (NumId 1)
       (join 10 [js "## 背景"; js "内容A"; js "## 目标"; js "内容B"])
     = [ mkSection (NumId 1) Null (js "1. 总览")
           (join 10 [js "## 背景"; js "内容A"; js "## 目标"; js "内容B"])
           words st ].
Proof. split; vm_compute; reflexivity. Qed.

(** C4, as stated, fails in two ways.  The final merge does add a section
    for a heading whose normalized title is already in the document when
    that title belongs to a child of the same parent: the children are
    rebuilt from the body, and here the old child 2 is replaced by a new
    section with a new id.  And the realtime merge can repeat a title: the
    heading "** foo**" has the normalized title " foo", which is not among
    the existing titles, yet its renumbered title "1.1  foo" normalizes to
    "foo", the title of section 2. *)
Lemma heading_merges_can_repeat_a_title :
  (getNormalizedTitle (js "背景")
   ∈ normalizedTitles
       [ mkSection (NumId 1) Null (js "总览") [] 3000 None;
         mkSection (NumId 2) (Ref (NumId 1)) (js "背景") (js "old") 500 None ]
   /\ syncSubSectionsToOutline (fun _ => 0)
        [ mkSection (NumId 1) Null (js "总览") [] 3000 None;
          mkSection (NumId 2) (Ref (NumId 1)) (js "背景") (js "old") 500 None ]
        (NumId 1) (join 10 [js "### 背景"; js "X"])
      = [ mkSection (NumId 1) Null (js "总览") [] 3000 None;
          mkSection (subId (NumId 1) 0 0) (Ref (NumId 1)) (js "背景") (js "X")
            500 (Some completed) ])
  /\ (NoDup (normalizedTitles
               [ mkSection (NumId 1) Null (js "1. 总览") [] 3000 None;
                 mkSection (NumId 2) Null (js "foo") [] 500 None ])
      /\ normalizedTitles
           (syncSubSectionsToOutlineRealtime (fun _ => 0)
              [ mkSection (NumId 1) Null (js "1. 总览") [] 3000 None;
                mkSection (NumId 2) Null (js "foo") [] 500 None ]
              (NumId 1) (js "### ** foo**"))
         = [js "总览"; js "foo"; js "foo"]).
Proof.
  split; split.
  - apply elem_of_normalizedTitles.
    exists (mkSection (NumId 2) (Ref (NumId 1)) (js "背景") (js "old") 500 None).
    split; [right; left | reflexivity].
  - vm_compute. reflexivity.
  - apply (bool_decide_unpack _). vm_compute. reflexivity.
  - vm_compute. reflexivity.
Qed.

(** C4 (amended): when the sections have distinct normalized titles and
    distinct ids, and renumbering a detected heading does not change its
    normalized title, both merges leave the normalized titles distinct.
    The realtime merge only adds sections, and adds none when every
    detected heading is already a title of the document; a child made by
    the final merge never takes the title of a section that is neither the
    parent nor one of its former children. *)
Theorem heading_merges_keep_titles_unique (now : nat -> Z)
    (documentData : list DocSection) (parentId : Id) (fullContent : str) :
  NoDup (normalizedTitles documentData) ->
  NoDup (List.map id documentData) ->
  (forall parent m k,
      parent ∈ documentData -> id parent = parentId ->
      m ∈ matchAllHeadings fullContent ->
      getNormalizedTitle
        (fixSectionTitleNumbering (title parent) (trim (headingText m)) k)
      = getNormalizedTitle (trim (headingText m))) ->
  NoDup (normalizedTitles
           (syncSubSectionsToOutlineRealtime now documentData parentId
              fullContent))
  /\ NoDup (normalizedTitles
              (syncSubSectionsToOutline now documentData parentId fullContent))
  /\ (exists added,
        syncSubSectionsToOutlineRealtime now documentData parentId fullContent
        ≡ₚ added ++ documentData)
  /\ ((forall m, m ∈ matchAllHeadings fullContent ->
          getNormalizedTitle (trim (headingText m))
          ∈ normalizedTitles documentData) ->
      syncSubSectionsToOutlineRealtime now documentData parentId fullContent
      = documentData)
  /\ (forall s o,
        s ∈ syncSubSectionsToOutline now documentData parentId fullContent ->
        Outline.parentId s = Ref parentId ->
        o ∈ documentData ->
        Outline.parentId o <> Ref parentId -> id o <> parentId ->
        getNormalizedTitle (title s) <> getNormalizedTitle (title o)).
Proof.
  intros Hnd Hids Hstable.
  destruct (syncSubSectionsToOutlineRealtime_unique now documentData parentId
              fullContent Hnd Hstable) as [Hrt Hadded].
  pose proof (syncSubSectionsToOutline_unique now documentData parentId
                fullContent Hnd Hids Hstable) as Hfin.
  split; [exact Hrt |]. split; [exact Hfin |]. split; [exact Hadded |].
  split; [apply syncSubSectionsToOutlineRealtime_noop |].
  intros s o Hs Hsp Ho Hop Hoid Heq.
  pose proof (syncSubSectionsToOutline_keeps_others now documentData parentId
                fullContent o Ho Hop Hoid) as Ho'.
  assert (s = o) as ->; [| now apply Hop].
  apply (NoDup_map_eq (fun x => getNormalizedTitle (title x))
           (syncSubSectionsToOutline now documentData parentId fullContent));
    assumption.
Qed.

Lemma heading_merges_keep_titles_unique_witness :
  NoDup (normalizedTitles
           (syncSubSectionsToOutlineRealtime (fun _ => 0)
              [ mkSection (NumId 1) Null (js "1. 总览") [] 3000 None;
                mkSection (NumId 2) Null (js "2. 背景") [] 500 None ]
              (NumId 1)
              (join 10 [js "### 背景"; js "内容A"; js "### 目标"; js "内容B"])))
  /\ NoDup (normalizedTitles
              (syncSubSectionsToOutline (fun _ => 0)
                 [ mkSection (NumId 1) Null (js "1. 总览") [] 3000 None;
                   mkSection (NumId 2) Null (js "2. 背景") [] 500 None ]
                 (NumId 1)
                 (join 10 [js "### 背景"; js "内容A"; js "### 目标"; js "内容B"]))).
Proof.
  destruct (heading_merges_keep_titles_unique (fun _ => 0)
              [ mkSection (NumId 1) Null (js "1. 总览") [] 3000 None;
                mkSection (NumId 2) Null (js "2. 背景") [] 500 None ]
              (NumId 1)
              (join 10 [js "### 背景"; js "内容A"; js "### 目标"; js "内容B"]))
    as (Hrt & Hfin & _).
  - apply (bool_decide_unpack _). vm_compute. reflexivity.
  - apply (bool_decide_unpack _). vm_compute. reflexivity.
  - intros parent m k Hparent _ Hm. apply renumbering_stable.
    + repeat (apply elem_of_cons in Hparent as [-> | Hparent]);
        [vm_compute; reflexivity .. | now apply elem_of_nil in Hparent].
    + change (matchAllHeadings _)
        with [mkMatch 0 6 3 (js "背景"); mkMatch 11 6 3 (js "目标")] in Hm.
      repeat (apply elem_of_cons in Hm as [-> | Hm]);
        [vm_compute; reflexivity .. | now apply elem_of_nil in Hm].
  - split; [exact Hrt | exact Hfin].
Defined.

End MergeFacts.

(** * Further properties *)

(** ** Word budgets *)

Section TargetWordsMore.
Import TargetWords.

Lemma fixWords_in_range (level : Level) (w : Words) :
  withinBound level w -> fixWords level w = w.
Proof.
  intros (n & m & Hn & Hm & Hlo & Hhi). unfold fixWords.
  rewrite Hm. cbn [exceeds]. rewrite Hn. cbn [greater less].
  destruct (Qle_bool_cases n m) as [[-> _] | [_ Hgt]]; [| lra].
  destruct (Qle_bool_cases minWords n) as [[-> _] | [_ Hlt]]; [| lra].
  reflexivity.
Qed.

Lemma fixWords_fixWords (level : Level) (w : Words) :
  fixWords level (fixWords level w) = fixWords level w.
Proof.
  destruct (exceeds w (levelMax level) || less (toNumber w) (Some minWords))
    eqn:Hc.
  - assert (Hf : fixWords level w = WordsNumber (correctedWords level w))
      by (unfold fixWords; now rewrite Hc).
    rewrite Hf. unfold fixWords. cbn [toNumber].
    now destruct (correctedWords_stable level w) as [-> ->].
  - assert (Hf : fixWords level w = w) by (unfold fixWords; now rewrite Hc).
    now rewrite !Hf.
Qed.

Lemma fixItem_fixItem (it : OutlineItem) :
  forall r, fixItem it = Some r -> fixItem r = Some r.
Proof.
  induction it as [| t l w | t l w cs IH] using OutlineItem_nested_ind;
    intros r; cbn [fixItem]; [discriminate | |].
  - intros [= <-]. cbn [fixItem]. now rewrite fixWords_fixWords.
  - destruct (mapItems fixItem cs) as [k |] eqn:Hk; [| discriminate].
    intros [= <-]. cbn [fixItem]. rewrite fixWords_fixWords.
    apply mapItems_Forall2 in Hk.
    assert (Hkk : mapItems fixItem k = Some k).
    { apply mapItems_Forall2.
      induction Hk as [| c y cs' k' Hy _ IHk]; constructor.
      - apply Forall_cons_1 in IH as [Hc _]. now apply Hc.
      - apply Forall_cons_1 in IH as [_ IH]. now apply IHk. }
    now rewrite Hkk.
Qed.

Lemma fixItem_in_range (it : OutlineItem) :
  everywhere (fun i => withinBound (itemLevel i) (itemTargetWords i)) it ->
  fixItem it = Some it.
Proof.
  induction it as [| t l w | t l w cs IH] using OutlineItem_nested_ind;
    cbn [everywhere fixItem itemLevel itemTargetWords];
    [now intros [] | |]; intros [Hw Hcs].
  - now rewrite (fixWords_in_range l w Hw).
  - rewrite (fixWords_in_range l w Hw).
    apply everywhere_children in Hcs.
    assert (Hkk : mapItems fixItem cs = Some cs).
    { apply mapItems_Forall2.
      induction IH as [| c cs' Hc _ IHcs]; constructor.
      - apply Forall_cons_1 in Hcs as [Hc' _]. now apply Hc.
      - apply Forall_cons_1 in Hcs as [_ Hcs]. now apply IHcs. }
    now rewrite Hkk.
Qed.

(** X1: validating an outline a second time changes nothing: what the
    first pass returns, the second returns as it is (and when the first
    pass throws there is nothing to validate again). *)
Theorem validateAndFixTargetWords_idempotent (items : list OutlineItem) :
  validateAndFixTargetWords items ≫= validateAndFixTargetWords
  = validateAndFixTargetWords items.
Proof.
  unfold validateAndFixTargetWords.
  destruct (mapItems fixItem items) as [r |] eqn:Hr; [| reflexivity].
  cbn. apply mapItems_Forall2. apply mapItems_Forall2 in Hr.
  induction Hr as [| c y cs k Hy _ IH]; constructor; [| exact IH].
  exact (fixItem_fixItem c y Hy).
Qed.

(** X2: an outline whose budgets, at every depth, are already between 50
    and the maximum of their level is returned as it is. *)
Theorem validateAndFixTargetWords_keeps_valid (items : list OutlineItem) :
  Forall (everywhere (fun i => withinBound (itemLevel i) (itemTargetWords i)))
    items ->
  validateAndFixTargetWords items = Some items.
Proof.
  unfold validateAndFixTargetWords. intros Hall. apply mapItems_Forall2.
  induction Hall as [| it items Hit _ IH]; constructor; [| exact IH].
  exact (fixItem_in_range it Hit).
Qed.

Lemma validateAndFixTargetWords_keeps_valid_witness :
  validateAndFixTargetWords
    [mkItem (js "一、背景") (LevelNumber 1) (WordsNumber (Some 150000%Q))
       (Some [mkItem (js "（一）现状") (LevelKey 2) (WordsText (js "50") (Some 50%Q))
                None])]
  = Some
      [mkItem (js "一、背景") (LevelNumber 1) (WordsNumber (Some 150000%Q))
         (Some [mkItem (js "（一）现状") (LevelKey 2)
                  (WordsText (js "50") (Some 50%Q)) None])].
Proof.
  apply (validateAndFixTargetWords_keeps_valid
           [mkItem (js "一、背景") (LevelNumber 1)
              (WordsNumber (Some 150000%Q))
              (Some [mkItem (js "（一）现状") (LevelKey 2)
                       (WordsText (js "50") (Some 50%Q)) None])]).
  repeat constructor.
  - exists 150000%Q, 150000%Q. repeat split; discriminate.
  - exists 50%Q, 80000%Q. repeat split; discriminate.
Defined.

End TargetWordsMore.

(** ** Repair: closing strings and brackets *)

Section RepairScanFacts.
Import Repair RepairScan.

Lemma quoteScanState_inString (s : str) : forall inString escaped,
  (quoteScanState inString escaped s).1 = quoteScan inString escaped s.
Proof.
  induction s as [| c t IH]; intros i e; simpl; [reflexivity |].
  destruct (_ && _); [apply IH |]. destruct (_ && _); apply IH.
Qed.

Lemma quoteScan_app_quote (s : str) : forall inString escaped,
  quoteScan inString escaped (s ++ [QUOTE])
  = (if (quoteScanState inString escaped s).2
     then (quoteScanState inString escaped s).1
     else negb (quoteScanState inString escaped s).1).
Proof.
  induction s as [| c t IH]; intros i e; simpl.
  - now destruct e.
  - destruct (_ && _); [apply IH |]. destruct (_ && _); apply IH.
Qed.

(** X3: after step 2 of the repair a string is still open exactly when the
    text ended inside a string on a backslash that escapes the appended
    quote; otherwise every string is closed. *)
Theorem closeString_closes (s : str) :
  quoteScan false false (closeString s)
  = (quoteScanState false false s).1 && (quoteScanState false false s).2.
Proof.
  unfold closeString. rewrite <- (quoteScanState_inString s false false).
  destruct (quoteScanState false false s) as [i e] eqn:Hst. cbn [fst snd].
  destruct i.
  - rewrite quoteScan_app_quote, Hst. cbn [fst snd]. now destruct e.
  - rewrite <- (quoteScanState_inString s false false), Hst. reflexivity.
Qed.

Lemma closers_match (stack : list N) :
  Forall (fun c => isCloser c = true) stack ->
  bracketsMatch stack false false stack = true.
Proof.
  induction 1 as [| c stack Hc _ IH]; simpl; [reflexivity |].
  unfold isCloser in Hc.
  assert (Hneq : (c =? BACKSLASH)%N = false /\ (c =? QUOTE)%N = false
                 /\ (c =? LBRACE)%N = false /\ (c =? LBRACKET)%N = false).
  { apply orb_true_iff in Hc as [Hc | Hc]; apply N.eqb_eq in Hc; subst c;
      repeat split; reflexivity. }
  destruct Hneq as (-> & -> & -> & ->). simpl. rewrite Hc, N.eqb_refl. exact IH.
Qed.

Lemma balance_matched (s : str) :
  forall stack inString escaped,
    Forall (fun c => isCloser c = true) stack ->
    (escaped = true -> inString = true) ->
    quoteScan inString escaped s = false ->
    escapesOutsideStrings inString escaped s = false ->
    bracketsMatch stack inString escaped (balance stack inString escaped s)
    = true.
Proof.
  induction s as [| c t IH]; intros stack i e Hstack Hei Hclosed Hesc.
  - simpl in *. subst i. destruct e; [now specialize (Hei eq_refl) |].
    now apply closers_match.
  - simpl in Hclosed, Hesc |- *.
    destruct ((c =? BACKSLASH)%N && negb e) eqn:Hb.
    + apply orb_false_iff in Hesc as [Hi Hesc]. apply negb_false_iff in Hi.
      simpl. rewrite Hb. now apply IH.
    + destruct ((c =? QUOTE)%N && negb e) eqn:Hq.
      * simpl. rewrite Hb, Hq.
        apply andb_true_iff in Hq as [_ He]. apply negb_true_iff in He. subst e.
        apply IH; [exact Hstack | discriminate | exact Hclosed | exact Hesc].
      * destruct i.
        -- simpl. rewrite Hb, Hq. apply IH; [exact Hstack | discriminate | exact Hclosed | exact Hesc].
        -- assert (e = false) as ->
             by (destruct e; [now specialize (Hei eq_refl) | reflexivity]).
           simpl in Hb, Hq.
           destruct (c =? LBRACE)%N eqn:Hlb.
           { simpl. rewrite Hb, Hq, Hlb.
             apply IH; try assumption; try discriminate.
             constructor; [reflexivity | exact Hstack]. }
           destruct (c =? LBRACKET)%N eqn:Hlk.
           { simpl. rewrite Hb, Hq, Hlb, Hlk.
             apply IH; try assumption; try discriminate.
             constructor; [reflexivity | exact Hstack]. }
           destruct ((c =? RBRACE)%N || (c =? RBRACKET)%N) eqn:Hcl.
           { destruct stack as [| top stack'].
             - apply IH; try assumption; discriminate.
             - destruct (top =? c)%N eqn:Htop.
               + simpl. rewrite Hb, Hq, Hlb, Hlk, Hcl, Htop. simpl.
                 apply IH; try assumption; try discriminate.
                 now apply Forall_cons in Hstack as [_ Hstack].
               + apply IH; try assumption; discriminate. }
           simpl. rewrite Hb, Hq, Hlb, Hlk, Hcl.
           apply IH; try assumption; discriminate.
Qed.

(** X4: on a text whose strings are closed and that has no escaping
    backslash outside strings, step 6 of the repair yields a text in which,
    outside strings, every closing bracket matches the innermost open one
    and nothing is left open. *)
Theorem balance_leaves_brackets_matched (s : str) :
  quoteScan false false s = false ->
  escapesOutsideStrings false false s = false ->
  bracketsMatch [] false false (balance [] false false s) = true.
Proof.
  intros Hclosed Hesc. apply balance_matched; try assumption;
    [constructor | discriminate].
Qed.

Lemma balance_leaves_brackets_matched_witness :
  bracketsMatch [] false false
    (balance [] false false (jsq "{'a':[1,'x]\'y'}]},{'b':[[2"))
  = true.
Proof.
  apply (balance_leaves_brackets_matched (jsq "{'a':[1,'x]\'y'}]},{'b':[[2"));
    vm_compute; reflexivity.
Defined.

End RepairScanFacts.

(** ** Flattening a nested outline *)

Section FlattenFacts.
Import Outline Nesting FlatShape.

Lemma withParentId_withParentId (s : DocSection) (r r' : ParentRef) :
  withParentId (withParentId s r) r' = withParentId s r'.
Proof. reflexivity. Qed.

Lemma flattenOutline_cons item items r :
  flattenOutline (item :: items) r
  = flattenItem r item ++ flattenOutline items r.
Proof. reflexivity. Qed.

Lemma flattenItem_descriptors (item : NestedItem) : forall r r',
  List.map (fun s => withParentId s r') (flattenItem r item)
  = List.map (fun n => withParentId (itemRest n) r') (descendants item).
Proof.
  induction item as [rest children IH] using NestedItem_nested_ind.
  intros r r'. rewrite flattenItem_unfold, descendants_unfold.
  cbn [List.map itemRest]. f_equal.
  cbn [itemChildren]. unfold flattenOutline, allItems.
  induction IH as [| c cs Hc _ IHcs]; [reflexivity |].
  cbn [List.flat_map]. rewrite !List.map_app, Hc, IHcs. reflexivity.
Qed.

(** X5: flattening keeps every descriptor of the nested outline, parents
    before their children and siblings in their order, and changes nothing
    of a descriptor but its parent link. *)
Theorem parseNestedOutline_keeps_descriptors (nestedOutline : list NestedItem) :
  List.map (fun s => withParentId s Null) (parseNestedOutline nestedOutline)
  = List.map (fun n => withParentId (itemRest n) Null) (allItems nestedOutline).
Proof.
  unfold parseNestedOutline, flattenOutline, allItems.
  induction nestedOutline as [| item items IH]; [reflexivity |].
  cbn [List.flat_map]. rewrite !List.map_app, IH, flattenItem_descriptors.
  reflexivity.
Qed.

Lemma linkedBackwards_nil r : linkedBackwards r [].
Proof. intros i e Hi. now rewrite lookup_nil in Hi. Qed.

Lemma linkedBackwards_app r l1 l2 :
  linkedBackwards r l1 -> linkedBackwards r l2 -> linkedBackwards r (l1 ++ l2).
Proof.
  intros H1 H2 i e Hi. apply lookup_app_Some in Hi as [Hi | [Hle Hi]].
  - destruct (H1 i e Hi) as [Hr | (j & p & Hj & Hp & He)]; [now left |].
    right. exists j, p. repeat split; try assumption.
    now apply lookup_app_l_Some.
  - destruct (H2 _ e Hi) as [Hr | (j & p & Hj & Hp & He)]; [now left |].
    right. exists (length l1 + j)%nat, p. repeat split; try assumption; [lia |].
    rewrite lookup_app_r by lia.
    now replace (length l1 + j - length l1)%nat with j by lia.
Qed.

Lemma linkedBackwards_under (parent : DocSection) r l :
  linkedBackwards (Ref (id parent)) l -> linkedBackwards r (parent :: l)
  \/ parentId parent <> r.
Proof.
  intros Hl.
  destruct (decide (parentId parent = r)) as [Hp | Hp]; [left | now right].
  intros [| i] e Hi; simpl in Hi.
  - left. congruence.
  - right. destruct (Hl i e Hi) as [Hr | (j & p & Hj & Hpj & He)].
    + exists 0%nat, parent. repeat split; [lia | assumption].
    + exists (S j), p. repeat split; [lia | exact Hpj | exact He].
Qed.

Lemma flattenItem_linkedBackwards (item : NestedItem) :
  forall r, linkedBackwards r (flattenItem r item).
Proof.
  induction item as [rest children IH] using NestedItem_nested_ind.
  intros r. rewrite flattenItem_unfold.
  destruct (linkedBackwards_under (withParentId rest r) r
              (flattenOutline (itemChildren (Nested rest children)) (Ref (id rest))))
    as [H | H]; [| exact H | now elim H].
  cbn [itemChildren id withParentId]. unfold flattenOutline.
  induction IH as [| c cs Hc _ IHcs]; [apply linkedBackwards_nil |].
  cbn [List.flat_map]. apply linkedBackwards_app; [apply Hc | apply IHcs].
Qed.

(** X6: in the flattened outline every entry is a root (parent link null)
    or names as its parent an entry that stands before it in the list. *)
Theorem parseNestedOutline_parent_precedes (nestedOutline : list NestedItem)
    (i : nat) (e : DocSection) :
  parseNestedOutline nestedOutline !! i = Some e ->
  parentId e = Null
  \/ (exists j p, (j < i)%nat
                  /\ parseNestedOutline nestedOutline !! j = Some p
                  /\ parentId e = Ref (id p)).
Proof.
  revert i e. change (linkedBackwards Null (parseNestedOutline nestedOutline)).
  unfold parseNestedOutline, flattenOutline.
  induction nestedOutline as [| item items IH]; [apply linkedBackwards_nil |].
  cbn [List.flat_map].
  apply linkedBackwards_app; [apply flattenItem_linkedBackwards | exact IH].
Qed.

Lemma parseNestedOutline_parent_precedes_witness :
  parentId (mkSection (NumId 3) (Ref (NumId 2)) (js "x") [] 500 None) = Null
  \/ (exists j p, (j < 2)%nat
        /\ parseNestedOutline (chain 3 1) !! j = Some p
        /\ parentId (mkSection (NumId 3) (Ref (NumId 2)) (js "x") [] 500 None)
           = Ref (id p)).
Proof.
  apply (parseNestedOutline_parent_precedes (chain 3 1) 2
           (mkSection (NumId 3) (Ref (NumId 2)) (js "x") [] 500 None)).
  reflexivity.
Defined.

End FlattenFacts.

(** ** What the merges leave alone *)

Section MergeKeeps.
Import Outline Merge MergeJson.

Lemma spliceAfter_sublist {A} (found : option nat) (xs l : list A) :
  l `sublist_of` spliceAfter found xs l.
Proof.
  unfold spliceAfter. set (pos := match found with Some i => S i | None => 0%nat end).
  rewrite <- (take_drop pos l) at 1.
  apply sublist_app; [reflexivity |]. now apply sublist_inserts_l.
Qed.

Lemma elem_of_spliceAfter {A} (found : option nat) (xs l : list A) (x : A) :
  x ∈ spliceAfter found xs l <-> x ∈ xs \/ x ∈ l.
Proof. rewrite spliceAfter_Permutation. apply elem_of_app. Qed.

Lemma realtimeLoop_keeps now parentId parentTitle parentLevel matches :
  forall i documentData existingTitles,
    documentData `sublist_of`
      (realtimeLoop now parentId parentTitle parentLevel i matches
         (documentData, existingTitles)).1
    /\ (forall s,
          s ∈ (realtimeLoop now parentId parentTitle parentLevel i matches
                 (documentData, existingTitles)).1 ->
          s ∈ documentData
          \/ (addedPending parentId s /\ content s = []
              /\ targetWords s = 500)).
Proof.
  induction matches as [| m rest IH]; intros i documentData existingTitles.
  - split; [reflexivity | now left].
  - cbn [realtimeLoop].
    destruct (realtimeStep_cases now parentId parentTitle parentLevel i m
                documentData existingTitles)
      as [-> | (_ & found & newId & k & ->)]; [apply IH |].
    destruct (IH (S i)
                (spliceAfter found
                   [mkSection newId (Ref parentId)
                      (fixSectionTitleNumbering parentTitle
                         (trim (headingText m)) k) [] 500 (Some pending)]
                   documentData)
                ({[getNormalizedTitle (trim (headingText m))]} ∪ existingTitles))
      as [Hsub Hin].
    split.
    + etransitivity; [apply spliceAfter_sublist | exact Hsub].
    + intros s Hs. destruct (Hin s Hs) as [Hold | Hnew]; [| now right].
      apply elem_of_spliceAfter in Hold as [Hone | Hold]; [| now left].
      apply list_elem_of_singleton in Hone as ->. right. now repeat split.
Qed.

(** X7: the merge that runs while a section streams in never removes,
    reorders or changes a section: the outline before is a sublist of the
    outline after, and every other section of the result is a pending child
    of the parent with empty content and a budget of 500 words. *)
Theorem syncSubSectionsToOutlineRealtime_only_adds (now : nat -> Z)
    (documentData : list DocSection) (parentId : Id) (fullContent : str) :
  documentData `sublist_of`
    syncSubSectionsToOutlineRealtime now documentData parentId fullContent
  /\ (forall s,
        s ∈ syncSubSectionsToOutlineRealtime now documentData parentId
              fullContent ->
        s ∈ documentData
        \/ (addedPending parentId s /\ content s = []
            /\ targetWords s = 500)).
Proof.
  unfold syncSubSectionsToOutlineRealtime.
  destruct (matchAllHeadings fullContent) as [| m0 ms];
    [split; [reflexivity | now left] |].
  destruct (list_find _ documentData) as [[parentIndex parent] |];
    [| split; [reflexivity | now left]].
  apply realtimeLoop_keeps.
Qed.

Lemma admitNew_spec normalizedParentTitle (sections : list JsonSection) :
  forall existingTitles : gset str,
    NoDup (List.map (fun n => getNormalizedTitle (jsonTitle n))
             (admitNew normalizedParentTitle existingTitles sections))
    /\ (forall n,
          n ∈ admitNew normalizedParentTitle existingTitles sections ->
          n ∈ sections
          /\ (getNormalizedTitle (jsonTitle n) ∉ existingTitles)).
Proof.
  induction sections as [| newSec rest IH]; intros existingTitles.
  - split; [constructor | intros n Hn; inversion Hn].
  - cbn [admitNew].
    destruct (bool_decide (_ = normalizedParentTitle)).
    { destruct (IH existingTitles) as [Hnd Hin]. split; [exact Hnd |].
      intros n Hn. destruct (Hin n Hn). split; [now right | assumption]. }
    destruct (bool_decide (_ ∈ existingTitles)) eqn:Hex.
    { destruct (IH existingTitles) as [Hnd Hin]. split; [exact Hnd |].
      intros n Hn. destruct (Hin n Hn). split; [now right | assumption]. }
    apply bool_decide_eq_false in Hex.
    destruct (IH ({[getNormalizedTitle (jsonTitle newSec)]} ∪ existingTitles))
      as [Hnd Hin].
    split.
    + cbn [List.map]. apply NoDup_cons. split; [| exact Hnd].
      intros Hdup. apply list_elem_of_In, List.in_map_iff in Hdup
        as (n & Hn & Hnin). apply list_elem_of_In in Hnin.
      destruct (Hin n Hnin) as [_ Hfresh]. apply Hfresh.
      rewrite Hn. apply elem_of_union_l, elem_of_singleton. reflexivity.
    + intros n Hn. apply elem_of_cons in Hn as [-> | Hn].
      * split; [now left | exact Hex].
      * destruct (Hin n Hn) as [Hsec Hfresh]. split; [now right |].
        intros Hold. apply Hfresh. now apply elem_of_union_r.
Qed.

Lemma elem_of_imap_sectionOfJson now parentId parentTitle l s :
  s ∈ imap (sectionOfJson now parentId parentTitle) l ->
  exists i n, l !! i = Some n /\ s = sectionOfJson now parentId parentTitle i n.
Proof.
  intros Hs. apply list_elem_of_lookup in Hs as (i & Hi).
  rewrite list_lookup_imap in Hi.
  destruct (l !! i) as [n |] eqn:Hl; [| discriminate].
  injection Hi as <-. eauto.
Qed.

(** X8: merging sub-sections delivered as JSON never removes, reorders or
    changes a section, and what it adds are pending children of the
    parent. *)
Theorem syncSubSectionsFromJson_only_adds (now : nat -> Z)
    (documentData : list DocSection) (parentId : Id)
    (sections : list JsonSection) :
  documentData `sublist_of`
    syncSubSectionsFromJson now documentData parentId sections
  /\ (forall s,
        s ∈ syncSubSectionsFromJson now documentData parentId sections ->
        s ∈ documentData \/ addedPending parentId s).
Proof.
  unfold syncSubSectionsFromJson.
  destruct (list_find _ documentData) as [[parentIndex parent] |];
    [| split; [reflexivity | now left]].
  cbv zeta.
  destruct (imap _ _) as [| s0 new] eqn:Hnew;
    [split; [reflexivity | now left] |].
  split; [apply spliceAfter_sublist |].
  intros s Hs. apply elem_of_spliceAfter in Hs as [Hs | Hs]; [| now left].
  right. rewrite <- Hnew in Hs.
  apply elem_of_imap_sectionOfJson in Hs as (i & n & _ & ->).
  split; reflexivity.
Qed.

Lemma normalizedTitles_imap_sectionOfJson now parentId parentTitle l :
  (forall n k, n ∈ l ->
      getNormalizedTitle (fixSectionTitleNumbering parentTitle (jsonTitle n) k)
      = getNormalizedTitle (jsonTitle n)) ->
  normalizedTitles (imap (sectionOfJson now parentId parentTitle) l)
  = List.map (fun n => getNormalizedTitle (jsonTitle n)) l.
Proof.
  intros Hstable. apply list_eq. intros i. unfold normalizedTitles.
  change (@List.map) with (@fmap list _).
  rewrite !list_lookup_fmap, list_lookup_imap.
  destruct (l !! i) as [n |] eqn:Hl; [| reflexivity].
  cbn. f_equal. apply Hstable. eapply list_elem_of_lookup_2, Hl.
Qed.

(** X9: when the normalized titles of the outline are pairwise distinct
    and renumbering a delivered title does not change its normalized form,
    the titles are pairwise distinct after the JSON merge too. *)
Theorem syncSubSectionsFromJson_keeps_titles_unique (now : nat -> Z)
    (documentData : list DocSection) (parentId : Id)
    (sections : list JsonSection) :
  NoDup (normalizedTitles documentData) ->
  (forall parent n k,
      parent ∈ documentData -> id parent = parentId -> n ∈ sections ->
      getNormalizedTitle
        (fixSectionTitleNumbering (title parent) (jsonTitle n) k)
      = getNormalizedTitle (jsonTitle n)) ->
  NoDup (normalizedTitles
           (syncSubSectionsFromJson now documentData parentId sections)).
Proof.
  intros Hnd Hstable. unfold syncSubSectionsFromJson.
  destruct (list_find _ documentData) as [[parentIndex parent] |] eqn:Hfind;
    [| exact Hnd].
  apply list_find_Some in Hfind as (Hlookup & Hid & _).
  apply list_elem_of_lookup_2 in Hlookup.
  cbv zeta.
  destruct (admitNew_spec (getNormalizedTitle (title parent)) sections
              (list_to_set (normalizedTitles documentData)))
    as [Hadm Hfresh].
  set (admitted := admitNew _ _ sections) in *.
  destruct (imap _ admitted) as [| s0 new] eqn:Hnew; [exact Hnd |].
  rewrite <- Hnew. clear Hnew s0 new.
  rewrite (normalizedTitles_Permutation _ _ (spliceAfter_Permutation _ _ _)).
  unfold normalizedTitles at 1. rewrite List.map_app.
  fold (normalizedTitles documentData).
  fold (normalizedTitles
          (imap (sectionOfJson now parentId (title parent)) admitted)).
  rewrite normalizedTitles_imap_sectionOfJson.
  2:{ intros n k Hn. apply (Hstable parent n k Hlookup Hid).
      now apply Hfresh. }
  apply NoDup_app. split; [exact Hadm |]. split; [| exact Hnd].
  intros t Ht Hold. apply list_elem_of_In, List.in_map_iff in Ht
    as (n & <- & Hn). apply list_elem_of_In in Hn.
  destruct (Hfresh n Hn) as [_ Hnot]. apply Hnot.
  now apply elem_of_list_to_set.
Qed.

Lemma syncSubSectionsFromJson_keeps_titles_unique_witness :
  NoDup (normalizedTitles
           (syncSubSectionsFromJson (fun _ => 7)
              [mkSection (NumId 1) Null (js "1 总览") [] 500 None;
               mkSection (NumId 2) Null (js "2 结论") [] 500 None]
              (NumId 1)
              [mkJsonSection None (js "背景") [] None;
               mkJsonSection None (js "1.1 背景") [] (Some 900);
               mkJsonSection (Some (StrId (js "k"))) (js "结论") [] None])).
Proof.
  apply (syncSubSectionsFromJson_keeps_titles_unique (fun _ => 7)
           [mkSection (NumId 1) Null (js "1 总览") [] 500 None;
            mkSection (NumId 2) Null (js "2 结论") [] 500 None]
           (NumId 1)
           [mkJsonSection None (js "背景") [] None;
            mkJsonSection None (js "1.1 背景") [] (Some 900);
            mkJsonSection (Some (StrId (js "k"))) (js "结论") [] None]).
  - apply (bool_decide_unpack _). vm_compute. reflexivity.
  - intros parent n k Hp Hid Hn.
    repeat (apply elem_of_cons in Hp as [-> | Hp]); try (now inversion Hp);
      try (now vm_compute in Hid).
    apply renumbering_stable; [reflexivity |].
    repeat (apply elem_of_cons in Hn as [-> | Hn]); try (now inversion Hn);
      vm_compute; reflexivity.
Defined.

Lemma otherSections_insert_content parentId documentData i parent c :
  documentData !! i = Some parent -> id parent = parentId ->
  otherSections parentId (<[i := withContent parent c]> documentData)
  = otherSections parentId documentData.
Proof.
  intros Hlookup Hid. unfold otherSections.
  rewrite insert_take_drop by (eapply lookup_lt_Some, Hlookup).
  rewrite <- (take_drop_middle documentData i parent Hlookup) at 3.
  rewrite !filter_app, !filter_cons.
  destruct (decide (_ (withContent parent c) <> _ /\ _)) as [[_ Hne] |];
    [now elim Hne |].
  destruct (decide (_ parent <> _ /\ _)) as [[_ Hne] |]; [now elim Hne |].
  reflexivity.
Qed.

Lemma otherSections_children parentId (subs : list DocSection) :
  Forall (fun s => Outline.parentId s = Ref parentId) subs ->
  otherSections parentId subs = [].
Proof.
  unfold otherSections. induction 1 as [| s subs Hs _ IH]; [reflexivity |].
  rewrite filter_cons. destruct (decide _) as [[Hne _] |]; [now elim Hne |].
  exact IH.
Qed.

Lemma finalLoop_children now parentId parentTitle fullContent matches :
  forall i newSubSections existingOtherTitles,
    Forall (fun s => Outline.parentId s = Ref parentId) newSubSections ->
    Forall (fun s => Outline.parentId s = Ref parentId)
      (finalLoop now parentId parentTitle fullContent i matches
         (newSubSections, existingOtherTitles)).1.
Proof.
  induction matches as [| m rest IH];
    intros i newSubSections existingOtherTitles Hall; [exact Hall |].
  destruct (finalLoop_cons now parentId parentTitle fullContent i m rest
              newSubSections existingOtherTitles)
    as [-> | (_ & newId & c & ->)]; [now apply IH |].
  apply IH. apply Forall_app. split; [exact Hall |].
  now repeat constructor.
Qed.

(** X10: the merge that runs when a section is complete touches only the
    parent and its children: the sections that are neither are the same
    after it, in the same order. *)
Theorem syncSubSectionsToOutline_keeps_other_sections (now : nat -> Z)
    (documentData : list DocSection) (parentId : Id) (fullContent : str) :
  otherSections parentId
    (syncSubSectionsToOutline now documentData parentId fullContent)
  = otherSections parentId documentData.
Proof.
  unfold syncSubSectionsToOutline.
  destruct (matchAllHeadings fullContent) as [| m0 ms]; [reflexivity |].
  destruct (list_find _ documentData) as [[parentIndex parent] |] eqn:Hfind;
    [| reflexivity].
  apply list_find_Some in Hfind as (Hlookup & Hid & _).
  destruct (List.filter _ (m0 :: ms)) as [| first rest];
    [now apply otherSections_insert_content |].
  cbv zeta.
  set (documentData1 := <[parentIndex := _]> documentData).
  set (subs := (finalLoop _ _ _ _ _ _ _).1).
  set (filteredData := filter _ documentData1).
  unfold spliceAfter.
  set (pos := match _ with Some i => S i | None => 0%nat end).
  unfold otherSections at 1. rewrite !filter_app.
  fold (otherSections parentId subs).
  rewrite (otherSections_children parentId subs)
    by (apply finalLoop_children; constructor).
  cbn [app]. rewrite <- filter_app, take_drop.
  unfold filteredData. rewrite list_filter_filter.
  rewrite <- (otherSections_insert_content parentId documentData parentIndex
                parent (trim (substring 0 (index first) fullContent))
                Hlookup Hid).
  unfold otherSections. fold documentData1.
  apply list_filter_iff. intros s. tauto.
Qed.

End MergeKeeps.

(** ** The response stream *)

Section StreamFacts.
Import Outline Demux Stream.

Lemma split_nonempty sep s : split sep s <> [].
Proof.
  destruct s as [| c t]; simpl; [discriminate |].
  destruct (c =? sep)%N; [discriminate |]. now destruct (split sep t).
Qed.

Lemma split_parts_no_sep sep s : Forall (fun p => sep ∉ p) (split sep s).
Proof.
  induction s as [| c t IH]; simpl.
  - repeat constructor. apply not_elem_of_nil.
  - destruct (c =? sep)%N eqn:Hc.
    + constructor; [apply not_elem_of_nil | exact IH].
    + apply N.eqb_neq in Hc. destruct (split sep t) as [| p ps].
      * repeat constructor. intros Hin.
        apply list_elem_of_singleton in Hin. congruence.
      * apply Forall_cons in IH as [Hp Hps]. constructor; [| exact Hps].
        intros Hin. apply elem_of_cons in Hin as [Heq | Hin];
          [congruence | now apply Hp].
Qed.

Lemma last_app_nonempty {A} (l1 l2 : list A) d :
  l2 <> [] -> List.last (l1 ++ l2) d = List.last l2 d.
Proof.
  intros Hne. induction l1 as [| x l1 IH]; [reflexivity |].
  cbn [app]. rewrite <- IH.
  destruct (l1 ++ l2) eqn:Happ; [| reflexivity].
  apply app_eq_nil in Happ as [_ ->]. now elim Hne.
Qed.

(** Splitting a concatenation: the pieces of the first text but the last,
    then the pieces of that last piece followed by the second text. *)
Lemma split_app sep a b :
  split sep (a ++ b)
  = List.removelast (split sep a) ++ split sep (List.last (split sep a) [] ++ b).
Proof.
  induction a as [| c t IH]; [reflexivity |].
  cbn [app split]. destruct (c =? sep)%N eqn:Hc.
  - rewrite IH. pose proof (split_nonempty sep t) as Hne.
    destruct (split sep t) as [| p ps] eqn:Ht; [now elim Hne |].
    reflexivity.
  - rewrite IH. pose proof (split_nonempty sep t) as Hne.
    destruct (split sep t) as [| p [| q ps]] eqn:Ht; [now elim Hne | |].
    + cbn [List.removelast List.last app split]. rewrite Hc. reflexivity.
    + cbn [List.removelast List.last app]. reflexivity.
Qed.

Lemma fold_onChunk (chunks : list str) :
  forall buffer records,
    NEWLINE ∉ buffer ->
    fold_left onChunk chunks (buffer, records)
    = (List.last (split NEWLINE (buffer ++ concat chunks)) [],
       records
         ++ omap rawJsonOfLine
              (List.removelast (split NEWLINE (buffer ++ concat chunks)))).
Proof.
  induction chunks as [| c chunks IH]; intros buffer records Hbuf.
  - cbn [fold_left concat]. rewrite app_nil_r, (split_no_sep _ _ Hbuf).
    cbn. now rewrite app_nil_r.
  - cbn [fold_left concat onChunk].
    pose proof (split_parts_no_sep NEWLINE (buffer ++ c)) as Hparts.
    pose proof (split_nonempty NEWLINE (buffer ++ c)) as Hne.
    rewrite IH.
    2:{ rewrite (List.app_removelast_last [] Hne) in Hparts.
        apply Forall_app in Hparts as [_ Hlast].
        now apply Forall_cons in Hlast as [Hlast _]. }
    rewrite (app_assoc buffer c), (split_app NEWLINE (buffer ++ c)).
    set (rest := split NEWLINE (List.last _ [] ++ concat chunks)).
    assert (Hrest : rest <> []) by apply split_nonempty.
    rewrite (last_app_nonempty _ _ _ Hrest).
    rewrite (List.removelast_app _ Hrest), omap_app, app_assoc.
    reflexivity.
Qed.

(** X11: however the network cuts the response into chunks, the texts
    handed to the JSON decoder are the non-blank lines of the whole
    response, in order, each trimmed and without a leading [data: ]. *)
Theorem readStream_is_lines_of_whole (chunks : list str) :
  readStream chunks = omap rawJsonOfLine (split NEWLINE (concat chunks)).
Proof.
  unfold readStream. rewrite fold_onChunk by apply not_elem_of_nil.
  cbn [app].
  pose proof (split_nonempty NEWLINE (concat chunks)) as Hne.
  rewrite (List.app_removelast_last [] Hne) at 3.
  rewrite omap_app. f_equal.
Qed.

Lemma matchTagged_grows openTag closeTag b s t :
  matchTagged openTag closeTag b = Some t ->
  exists t', matchTagged openTag closeTag (b ++ s) = Some t'.
Proof.
  unfold matchTagged.
  destruct (splitAtFirst openTag b) as [[pre after] |] eqn:Ho; [| discriminate].
  intros _. rewrite (splitAtFirst_app _ _ s _ _ Ho).
  destruct (splitAtFirst closeTag (after ++ s)) as [[body rest] |]; eauto.
Qed.

Lemma onContent_nil (st : AssistantMsg * str) : onContent st [] = st.
Proof. now destruct st. Qed.

Lemma onContent_onContent (st : AssistantMsg * str) (c1 c2 : str) :
  onContent (onContent st c1) c2 = onContent st (c1 ++ c2).
Proof.
  destruct c1 as [| x1 c1']; [now rewrite onContent_nil |].
  destruct c2 as [| x2 c2']; [now rewrite onContent_nil, app_nil_r |].
  destruct st as [msg b].
  cbn [onContent app]. rewrite <- (app_assoc b (x1 :: c1') (x2 :: c2')).
  cbn [app].
  assert (Hgrow : forall openTag closeTag t,
             matchTagged openTag closeTag (b ++ x1 :: c1') = Some t ->
             exists t', matchTagged openTag closeTag
                          (b ++ x1 :: c1' ++ x2 :: c2') = Some t').
  { intros o c t Ht.
    destruct (matchTagged_grows o c _ (x2 :: c2') t Ht) as [t' Ht'].
    rewrite <- app_assoc in Ht'. eauto. }
  set (text1 := b ++ x1 :: c1') in *.
  set (text2 := b ++ x1 :: c1' ++ x2 :: c2') in *.
  clearbody text1 text2. destruct msg as [th isTh su qc].
  destruct (matchTagged (js "<think>") (js "</think>") text1) eqn:Ht;
    [destruct (Hgrow _ _ _ Ht) as [t' ->]
    | destruct (matchTagged (js "<think>") (js "</think>") text2)];
    (destruct (matchTagged (js "<summary>") (js "</summary>") text1) eqn:Hs;
     [destruct (Hgrow _ _ _ Hs) as [s' ->]
     | destruct (matchTagged (js "<summary>") (js "</summary>") text2)]);
    (destruct (matchTagged (js "<check>") (js "</check>") text1) eqn:Hc;
     [destruct (Hgrow _ _ _ Hc) as [k' ->]
     | destruct (matchTagged (js "<check>") (js "</check>") text2)]);
    reflexivity.
Qed.

Lemma onContents_concat (chunks : list str) :
  forall st, onContents st chunks = onContent st (concat chunks).
Proof.
  unfold onContents.
  induction chunks as [| c chunks IH]; intros st; cbn [fold_left concat].
  - now rewrite onContent_nil.
  - now rewrite IH, onContent_onContent.
Qed.

(** X12: the fields assigned by the think and summary extractions and the
    accumulated text do not depend on how the text deltas are cut: after
    feeding the deltas one by one, [thinking], [isThinking], [summary] and
    [fullText] are what they are after feeding the concatenation of the
    deltas at once, and the accumulated text is the text before followed by
    all the deltas. *)
Theorem tag_extraction_ignores_chunking (msg : AssistantMsg)
    (fullText : str) (chunks : list str) :
  thinking (onContents (msg, fullText) chunks).1
  = thinking (onContent (msg, fullText) (concat chunks)).1
  /\ isThinking (onContents (msg, fullText) chunks).1
     = isThinking (onContent (msg, fullText) (concat chunks)).1
  /\ summary (onContents (msg, fullText) chunks).1
     = summary (onContent (msg, fullText) (concat chunks)).1
  /\ (onContents (msg, fullText) chunks).2
     = (onContent (msg, fullText) (concat chunks)).2
  /\ (onContents (msg, fullText) chunks).2 = fullText ++ concat chunks.
Proof.
  rewrite onContents_concat. repeat split.
  destruct (concat chunks) as [| c rest]; [| reflexivity].
  cbn. now rewrite app_nil_r.
Qed.

Lemma stripPrefix_Some (p x rest : str) :
  stripPrefix p x = Some rest -> x = p ++ rest.
Proof.
  revert x. induction p as [| a p IH]; intros x; simpl.
  - now intros [= ->].
  - destruct x as [| c x]; [discriminate |].
    destruct (a =? c)%N eqn:Hac; [| discriminate].
    apply N.eqb_eq in Hac as ->. intros Hp. now rewrite (IH _ Hp).
Qed.

Lemma splitAtFirst_Some (pat x before after : str) :
  splitAtFirst pat x = Some (before, after) -> x = before ++ pat ++ after.
Proof.
  revert before after. induction x as [| c t IH]; intros before after; simpl.
  - destruct (stripPrefix pat []) as [rest |] eqn:Hp; [| discriminate].
    intros [= <- <-]. exact (stripPrefix_Some _ _ _ Hp).
  - destruct (stripPrefix pat (c :: t)) as [rest |] eqn:Hp.
    + intros [= <- <-]. exact (stripPrefix_Some _ _ _ Hp).
    + destruct (splitAtFirst pat t) as [[b1 a1] |]; [| discriminate].
      intros [= <- <-]. simpl. now rewrite (IH _ _ eq_refl).
Qed.

Lemma includes_behind (pat p s : str) :
  includes pat s = true -> includes pat (p ++ s) = true.
Proof.
  unfold includes. intros Hs. induction p as [| c p IH]; [exact Hs |].
  cbn [app splitAtFirst].
  destruct (stripPrefix pat (c :: p ++ s)); [reflexivity |].
  now destruct (splitAtFirst pat (p ++ s)) as [[x y] |].
Qed.

Lemma thinkingOf_app (b s : str) :
  thinkClosed b = true ->
  thinkingOf (b ++ s) = thinkingOf b
  /\ includes (js "</think>") (b ++ s) = true.
Proof.
  unfold thinkClosed, thinkingOf, matchTagged.
  destruct (splitAtFirst (js "<think>") b) as [[pre after] |] eqn:Ho;
    [| discriminate].
  rewrite (splitAtFirst_app _ _ s _ _ Ho). intros Hclosed.
  assert (Hall : includes (js "</think>") (b ++ s) = true).
  { rewrite (splitAtFirst_Some _ _ _ _ Ho), <- !app_assoc.
    apply includes_behind. apply includes_behind.
    revert Hclosed. unfold includes.
    destruct (splitAtFirst (js "</think>") after) as [[body rest] |] eqn:Hc;
      [| discriminate].
    now rewrite (splitAtFirst_app _ _ s _ _ Hc). }
  split; [| exact Hall].
  revert Hclosed. unfold includes.
  destruct (splitAtFirst (js "</think>") after) as [[body rest] |] eqn:Hc;
    [| discriminate].
  now rewrite (splitAtFirst_app _ _ s _ _ Hc).
Qed.

Lemma thinkClosed_app (b s : str) :
  thinkClosed b = true -> thinkClosed (b ++ s) = true.
Proof.
  unfold thinkClosed, includes.
  destruct (splitAtFirst (js "<think>") b) as [[pre after] |] eqn:Ho;
    [| discriminate].
  rewrite (splitAtFirst_app _ _ s _ _ Ho).
  destruct (splitAtFirst (js "</think>") after) as [[body rest] |] eqn:Hc;
    [| discriminate].
  now rewrite (splitAtFirst_app _ _ s _ _ Hc).
Qed.

(** X13: once the accumulated text holds a closed think region, the
    thinking text is final and the thinking indicator is off: whatever
    deltas follow, [thinking] keeps the text of that region and
    [isThinking] stays false. *)
Theorem think_closed_is_final (b : str) (chunks : list str)
    (msg : AssistantMsg) :
  thinkClosed b = true ->
  thinking msg = thinkingOf b ->
  isThinking msg = false ->
  thinking (onContents (msg, b) chunks).1 = thinkingOf b
  /\ isThinking (onContents (msg, b) chunks).1 = false.
Proof.
  intros Hclosed Hth Hflag. rewrite onContents_concat.
  destruct (concat chunks) as [| x c]; [now split |].
  destruct (thinkingOf_app b (x :: c) Hclosed) as [Hsame Hincl].
  cbn [onContent]. unfold thinkingOf in Hsame, Hth |- *.
  set (text := b ++ x :: c) in *. clearbody text.
  destruct msg as [th isTh su qc]. cbn [thinking isThinking] in Hth, Hflag.
  destruct (matchTagged (js "<think>") (js "</think>") text) eqn:Ht;
    destruct (matchTagged (js "<summary>") (js "</summary>") text);
    destruct (matchTagged (js "<check>") (js "</check>") text);
    cbn [thinking isThinking fst]; rewrite ?Hincl; cbn [negb];
    split; congruence.
Qed.

Lemma think_closed_is_final_witness :
  thinking (onContents
              (mkMsg (Some (js "plan")) false None None,
               js "<think>plan</think>")
              [js "<summary>s<think>again"; js "</summary>"]).1
  = Some (js "plan")
  /\ isThinking (onContents
                   (mkMsg (Some (js "plan")) false None None,
                    js "<think>plan</think>")
                   [js "<summary>s<think>again"; js "</summary>"]).1
     = false.
Proof.
  apply (think_closed_is_final (js "<think>plan</think>")
           [js "<summary>s<think>again"; js "</summary>"]
           (mkMsg (Some (js "plan")) false None None));
    vm_compute; reflexivity.
Defined.

End StreamFacts.

(** ** Snapshots, loading and saving *)

Section StoreFacts.
Import Outline Merge Store.

Lemma snapshotKeeps_refl ids s : snapshotKeeps ids s s.
Proof. unfold snapshotKeeps. now repeat split. Qed.

Lemma snapshotKeeps_merge ids existingSec newSec :
  snapshotKeeps (id newSec :: ids) existingSec
    (mergeSection existingSec newSec)
  \/ id existingSec <> id newSec.
Proof.
  destruct (decide (id existingSec = id newSec)) as [Heq | Hne];
    [left | now right].
  unfold snapshotKeeps, mergeSection. cbn [id parentId targetWords content].
  repeat split.
  - destruct (nonEmpty (content newSec)); cbn [andb]; [| lia].
    destruct (nonEmpty (content existingSec)) eqn:Hex; cbn [negb orb].
    + destruct (_ <=? _)%nat eqn:Hle; [| lia]. now apply Nat.leb_le in Hle.
    + destruct (content existingSec); [simpl; lia | discriminate].
  - intros Hnot. elim Hnot. rewrite Heq. now left.
Qed.

Lemma snapshotKeeps_trans newId ids s1 s2 s3 :
  snapshotKeeps [newId] s1 s2 -> snapshotKeeps ids s2 s3 ->
  snapshotKeeps (newId :: ids) s1 s3.
Proof.
  unfold snapshotKeeps.
  intros (Hi1 & Hp1 & Hw1 & Hc1 & Hk1) (Hi2 & Hp2 & Hw2 & Hc2 & Hk2).
  repeat split; try congruence; [lia |].
  intros Hnot. apply not_elem_of_cons in Hnot as [Hne Hnot].
  rewrite Hk2 by now rewrite Hi1.
  apply Hk1. intros Hin. apply list_elem_of_singleton in Hin. congruence.
Qed.

Lemma applySnapshotEntry_keeps documentData newSec :
  Forall2 (snapshotKeeps [id newSec]) documentData
    (applySnapshotEntry documentData newSec).
Proof.
  unfold applySnapshotEntry.
  destruct (list_find _ documentData) as [[i existingSec] |] eqn:Hfind.
  - apply list_find_Some in Hfind as (Hlookup & Hid & _).
    rewrite <- (list_insert_id documentData i existingSec Hlookup) at 1.
    apply Forall2_insert.
    + apply Forall_Forall2_diag, Forall_forall. intros s _.
      apply snapshotKeeps_refl.
    + destruct (snapshotKeeps_merge [] existingSec newSec) as [H | H];
        [exact H | now elim H].
  - apply Forall_Forall2_diag, Forall_forall. intros s _.
    apply snapshotKeeps_refl.
Qed.

(** X14: merging a snapshot of the agent state keeps the sections, their
    order, identifiers, parent links and word budgets; the content of a
    section never gets shorter; and a section the snapshot does not name
    stays as it is. *)
Theorem applySnapshot_keeps (newStructure documentData : list DocSection) :
  Forall2 (snapshotKeeps (List.map id newStructure)) documentData
    (applySnapshot documentData newStructure).
Proof.
  unfold applySnapshot. revert documentData.
  induction newStructure as [| newSec rest IH]; intros documentData.
  - apply Forall_Forall2_diag, Forall_forall. intros s _.
    apply snapshotKeeps_refl.
  - cbn [fold_left List.map].
    pose proof (applySnapshotEntry_keeps documentData newSec) as Hstep.
    specialize (IH (applySnapshotEntry documentData newSec)).
    revert Hstep IH.
    generalize (fold_left applySnapshotEntry rest
                  (applySnapshotEntry documentData newSec)).
    generalize (applySnapshotEntry documentData newSec).
    intros l2 l3 H12. revert l3.
    induction H12 as [| s1 s2 l1 l2 Hs _ IHl]; intros l3 H23.
    + inversion H23. constructor.
    + inversion H23 as [| ? s3 ? l3' Hs' Hl']; subst.
      constructor; [now apply (snapshotKeeps_trans _ _ s1 s2 s3) |].
      now apply IHl.
Qed.





Lemma dedupeByTitle_distinct (outline : list DocSection) :
  forall seenTitles : gset str,
    NoDup (normalizedTitles outline) ->
    (forall s, s ∈ outline -> getNormalizedTitle (title s) ∉ seenTitles) ->
    dedupeByTitle seenTitles outline = outline.
Proof.
  induction outline as [| section rest IH]; intros seenTitles Hnd Hfresh;
    [reflexivity |].
  cbn [dedupeByTitle]. cbn [normalizedTitles List.map] in Hnd.
  apply NoDup_cons in Hnd as [Hhead Hnd].
  rewrite bool_decide_eq_false_2 by (apply Hfresh; now left).
  f_equal. apply IH; [exact Hnd |].
  intros s Hs Hin. apply elem_of_union in Hin as [Hin | Hin].
  - apply elem_of_singleton in Hin. apply Hhead.
    apply elem_of_normalizedTitles. eauto.
  - apply (Hfresh s); [now right | exact Hin].
Qed.

Lemma list_find_id (documentData : list DocSection) (s : DocSection) :
  NoDup (List.map id documentData) -> s ∈ documentData ->
  snd <$> list_find (fun x => id x = id s) documentData = Some s.
Proof.
  intros Hnd Hs.
  destruct (list_find (fun x => id x = id s) documentData)
    as [[i x] |] eqn:Hfind.
  - apply list_find_Some in Hfind as (Hlookup & Hid & _). cbn. f_equal.
    apply (NoDup_map_eq id documentData x s Hnd);
      [eapply list_elem_of_lookup_2, Hlookup | exact Hs | exact Hid].
  - exfalso. apply list_find_None in Hfind.
    rewrite Forall_forall in Hfind. now apply (Hfind s Hs).
Qed.

(** X16: saving the outline and loading it again while the document is
    still in memory gives the sections back, in order and with their
    content, a falsy parent link having become null; provided the
    document is not empty, identifiers and normalized titles are pairwise
    distinct and every section has a status. *)
Theorem save_then_load_outline (documentData : list DocSection) :
  documentData <> [] ->
  NoDup (List.map id documentData) ->
  NoDup (normalizedTitles documentData) ->
  Forall (fun s => status s <> None) documentData ->
  loadOutline documentData (outlineMetadata documentData)
  = List.map (fun s => withParentId s (orNullIfFalsy (parentId s)))
      documentData.
Proof.
  intros Hne Hids Htitles Hstatus. unfold loadOutline.
  destruct (outlineMetadata documentData) as [| m0 ms] eqn:Hmeta.
  { destruct documentData; [now elim Hne | discriminate]. }
  rewrite <- Hmeta. clear Hmeta m0 ms. cbv zeta.
  rewrite dedupeByTitle_distinct.
  2:{ unfold outlineMetadata, normalizedTitles. now rewrite List.map_map. }
  2:{ intros s _. apply not_elem_of_empty. }
  assert (Hraw : List.map (restoreSection documentData)
                   (outlineMetadata documentData)
                 = List.map
                     (fun s => withParentId s (orNullIfFalsy (parentId s)))
                     documentData).
  { unfold outlineMetadata. rewrite List.map_map. apply List.map_ext_in.
    intros s Hs. apply list_elem_of_In in Hs.
    rewrite Forall_forall in Hstatus. specialize (Hstatus s Hs).
    unfold restoreSection. cbn [id content nonEmpty status parentId title
                                  targetWords].
    rewrite (list_find_id documentData s Hids Hs).
    destruct s as [i p t c w [st |]]; [reflexivity | now elim Hstatus]. }
  rewrite Hraw.
  destruct documentData as [| s0 rest]; [now elim Hne |].
  cbn [List.map existsb parentId withParentId].
  replace (bool_decide (orNullIfFalsy (parentId s0) = Undefined)) with false;
    [reflexivity |].
  symmetry. apply bool_decide_eq_false. unfold orNullIfFalsy.
  destruct (parentId s0) as [| | i]; cbn; try discriminate.
  destruct (truthyId i); discriminate.
Qed.

Lemma save_then_load_outline_witness :
  loadOutline
    [mkSection (NumId 1) Undefined (js "1 总览") (js "正文") 500 (Some completed);
     mkSection (NumId 2) (Ref (NumId 1)) (js "1.1 背景") [] 300 (Some pending)]
    (outlineMetadata
       [mkSection (NumId 1) Undefined (js "1 总览") (js "正文") 500
          (Some completed);
        mkSection (NumId 2) (Ref (NumId 1)) (js "1.1 背景") [] 300
          (Some pending)])
  = [mkSection (NumId 1) Null (js "1 总览") (js "正文") 500 (Some completed);
     mkSection (NumId 2) (Ref (NumId 1)) (js "1.1 背景") [] 300 (Some pending)].
Proof.
  apply (save_then_load_outline
           [mkSection (NumId 1) Undefined (js "1 总览") (js "正文") 500
              (Some completed);
            mkSection (NumId 2) (Ref (NumId 1)) (js "1.1 背景") [] 300
              (Some pending)]).
  - discriminate.
  - apply (bool_decide_unpack _). vm_compute. reflexivity.
  - apply (bool_decide_unpack _). vm_compute. reflexivity.
  - repeat constructor; discriminate.
Defined.

End StoreFacts.

(** ** The reconstructed outline: links and order *)

Section OrderFacts.
Import Outline Merge OutlineOrder.

Lemma join_snoc sep (init : list str) (lastPart : str) :
  init <> [] -> join sep (init ++ [lastPart]) = join sep init ++ sep :: lastPart.
Proof.
  induction init as [| p init IH]; [contradiction |]. intros _.
  destruct init as [| q init]; [reflexivity |].
  change (join sep ((p :: q :: init) ++ [lastPart]))
    with (p ++ sep :: join sep ((q :: init) ++ [lastPart])).
  rewrite IH by discriminate.
  change (join sep (p :: q :: init)) with (p ++ sep :: join sep (q :: init)).
  now rewrite <- app_assoc.
Qed.

Lemma join_split sep s : join sep (split sep s) = s.
Proof.
  induction s as [| c t IH]; [reflexivity |]. cbn [split].
  pose proof (split_nonempty sep t) as Hne.
  destruct (N.eqb_spec c sep) as [-> | Hc].
  - destruct (split sep t) as [| p ps] eqn:Ht; [now elim Hne |].
    cbn [join app]. now rewrite <- IH.
  - destruct (split sep t) as [| p ps] eqn:Ht; [now elim Hne |].
    rewrite <- IH. now destruct ps.
Qed.

Lemma split_parts_from sep s :
  Forall (fun p => forall c, c ∈ p -> c ∈ s /\ c <> sep) (split sep s).
Proof.
  induction s as [| c t IH]; cbn [split].
  - constructor; [| constructor]. intros d Hd. inversion Hd.
  - assert (Hweak : Forall (fun p => forall d, d ∈ p -> d ∈ c :: t /\ d <> sep)
                      (split sep t)).
    { eapply Forall_impl; [exact IH |]. intros p Hp d Hd.
      destruct (Hp d Hd). split; [now right | assumption]. }
    destruct (N.eqb_spec c sep) as [-> | Hc].
    + constructor; [| exact Hweak]. intros d Hd. inversion Hd.
    + destruct (split sep t) as [| p ps].
      * constructor; [| constructor]. intros d Hd.
        apply list_elem_of_singleton in Hd as ->. split; [now left | exact Hc].
      * apply Forall_cons in Hweak as [Hp Hps]. constructor; [| exact Hps].
        intros d Hd. apply elem_of_cons in Hd as [-> | Hd];
          [split; [now left | exact Hc] | now apply Hp].
Qed.

Lemma fold_recordPrefix_key data m p i :
  fold_left recordPrefix data m !! p = Some i ->
  m !! p = Some i
  \/ exists x, x ∈ data /\ id x = i /\ getSectionNumberPrefix (title x) = p.
Proof.
  revert m. induction data as [| x data IH]; intros m; simpl; [now left |].
  intros Hl. destruct (IH _ Hl) as [Hm | (y & Hy & Hid & Hp)].
  - rewrite recordPrefix_lookup in Hm.
    destruct (decide _) as [[Hpx _] |]; [| now left].
    right. exists x. split; [now left |]. split; congruence.
  - right. exists y. split; [now right | now split].
Qed.

(** X17: a parent link set by the reconstruction is sound: the section it
    names carries the numbering of the child without its last component. *)
Theorem reconstructHierarchy_parent_numbering (data : list DocSection)
    (y : DocSection) (p : Id) :
  (forall x, x ∈ data -> parentId x = Undefined \/ parentId x = Null) ->
  y ∈ reconstructHierarchy data ->
  parentId y = Ref p ->
  exists x lastPart,
    x ∈ data /\ id x = p /\ (DOT ∉ lastPart)
    /\ getSectionNumberPrefix (title y)
       = getSectionNumberPrefix (title x) ++ DOT :: lastPart.
Proof.
  intros Hunlinked Hy Hp.
  rewrite reconstructHierarchy_Permutation in Hy.
  apply list_elem_of_In, List.in_map_iff in Hy as (item & <- & Hitem).
  apply list_elem_of_In in Hitem.
  rewrite linkParent_only_parentId. cbn [title withParentId].
  revert Hp. unfold linkParent.
  destruct (getSectionNumberPrefix (title item)) as [| c q] eqn:Hprefix.
  { cbn [parentId withParentId].
    destruct (Hunlinked item Hitem) as [-> | ->]; discriminate. }
  set (prefix := c :: q) in *.
  pose proof (join_split DOT prefix) as Hjoin.
  pose proof (split_parts_from DOT prefix) as Hparts.
  pose proof (split_nonempty DOT prefix) as Hne.
  rewrite (List.app_removelast_last [] Hne) in Hjoin, Hparts.
  destruct (1 <? length (split DOT prefix))%nat eqn:Hlen;
    [| cbn [parentId withParentId]; discriminate].
  destruct (buildPrefixMap data !! _) as [parent |] eqn:Hfound;
    [| cbn [parentId withParentId]; discriminate].
  destruct (truthyId parent); cbn [parentId withParentId]; [| discriminate].
  intros [= ->].
  apply fold_recordPrefix_key in Hfound as [Hempty | (x & Hx & Hid & Hkey)];
    [now rewrite lookup_empty in Hempty |].
  exists x, (List.last (split DOT prefix) []).
  split; [exact Hx |]. split; [exact Hid |].
  apply Forall_app in Hparts as [_ Hlast].
  apply Forall_cons in Hlast as [Hlast _].
  split; [intros Hin; now destruct (Hlast _ Hin) |].
  rewrite Hkey, <- Hjoin at 1. apply join_snoc.
  apply Nat.ltb_lt in Hlen. intros Hnil.
  rewrite (List.app_removelast_last [] Hne), Hnil in Hlen. simpl in Hlen. lia.
Qed.

Lemma reconstructHierarchy_parent_numbering_witness :
  exists x lastPart,
    x ∈ [mkSection (NumId 1) Undefined (js "2 总览") [] 500 None;
         mkSection (NumId 2) Undefined (js "2.1 背景") [] 500 None]
    /\ id x = NumId 1 /\ (DOT ∉ lastPart)
    /\ getSectionNumberPrefix
         (title (mkSection (NumId 2) (Ref (NumId 1)) (js "2.1 背景") [] 500 None))
       = getSectionNumberPrefix (title x) ++ DOT :: lastPart.
Proof.
  apply (reconstructHierarchy_parent_numbering
           [mkSection (NumId 1) Undefined (js "2 总览") [] 500 None;
            mkSection (NumId 2) Undefined (js "2.1 背景") [] 500 None]
           (mkSection (NumId 2) (Ref (NumId 1)) (js "2.1 背景") [] 500 None)
           (NumId 1)).
  - intros x Hx.
    repeat (apply elem_of_cons in Hx as [-> | Hx]); [now left .. |].
    now apply elem_of_nil in Hx.
  - vm_compute. apply list_elem_of_further, list_elem_of_here.
  - reflexivity.
Defined.

(** *** The order *)

Lemma split_parts_digits p :
  forallb isDigitOrDot p = true ->
  Forall (fun part => forallb isDigit part = true) (split DOT p).
Proof.
  intros Hp. rewrite forallb_forall in Hp.
  eapply Forall_impl; [apply (split_parts_from DOT p) |].
  intros part Hpart. apply forallb_forall. intros c Hc.
  apply list_elem_of_In in Hc. destruct (Hpart c Hc) as [Hin Hne].
  apply list_elem_of_In in Hin. specialize (Hp c Hin).
  unfold isDigitOrDot in Hp. apply orb_true_iff in Hp as [Hd | Hd];
    [exact Hd |]. apply N.eqb_eq in Hd. contradiction.
Qed.

Lemma Number_parts p :
  forallb isDigitOrDot p = true ->
  List.map Number (split DOT p)
  = List.map Some (List.map Json.digitsValue (split DOT p)).
Proof.
  intros Hp. rewrite List.map_map.
  pose proof (split_parts_digits p Hp) as Hparts.
  induction Hparts as [| part parts Hpart _ IH]; [reflexivity |].
  cbn [List.map]. unfold Number at 1. now rewrite Hpart, IH.
Qed.

Lemma compareParts_keys fuel : forall keysA keysB,
  compareParts fuel (List.map Some keysA) (List.map Some keysB)
  = Some (compareKeys fuel keysA keysB).
Proof.
  induction fuel as [| f IH]; intros keysA keysB; [reflexivity |].
  cbn [compareParts compareKeys].
  destruct keysA as [| a keysA]; destruct keysB as [| b keysB];
    cbn [List.map tl];
    match goal with
    | |- context [?x =? ?y] => destruct (x =? y)
    end; try reflexivity;
    first [apply (IH [] []) | apply (IH [] keysB) | apply (IH keysA [])
          | apply IH].
Qed.

Lemma compareKeys_antisym fuel : forall keysA keysB,
  compareKeys fuel keysB keysA = - compareKeys fuel keysA keysB.
Proof.
  induction fuel as [| f IH]; intros keysA keysB; [reflexivity |].
  cbn [compareKeys].
  set (vA := match keysA with a :: _ => a | [] => -1 end).
  set (vB := match keysB with b :: _ => b | [] => -1 end).
  destruct (Z.eqb_spec vA vB) as [Heq | Hne].
  - rewrite Heq, Z.eqb_refl. apply IH.
  - destruct (Z.eqb_spec vB vA) as [Heq' | _]; [congruence | lia].
Qed.

Lemma compareKeys_more_fuel fuel : forall keysA keysB,
  (length keysA <= fuel)%nat -> (length keysB <= fuel)%nat ->
  compareKeys (S fuel) keysA keysB = compareKeys fuel keysA keysB.
Proof.
  induction fuel as [| f IH]; intros keysA keysB HA HB.
  - destruct keysA; [| simpl in HA; lia]. destruct keysB; [| simpl in HB; lia].
    reflexivity.
  - change (compareKeys (S (S f)) keysA keysB)
      with (let vA := match keysA with a :: _ => a | [] => -1 end in
            let vB := match keysB with b :: _ => b | [] => -1 end in
            if vA =? vB then compareKeys (S f) (tl keysA) (tl keysB)
            else vA - vB).
    cbv zeta. rewrite IH; [reflexivity | |].
    + destruct keysA; simpl in *; lia.
    + destruct keysB; simpl in *; lia.
Qed.

Lemma compareKeys_fuel fuel keysA keysB :
  (length keysA <= fuel)%nat -> (length keysB <= fuel)%nat ->
  compareKeys fuel keysA keysB
  = compareKeys (Nat.max (length keysA) (length keysB)) keysA keysB.
Proof.
  induction fuel as [| f IH]; intros HA HB.
  - now replace (Nat.max (length keysA) (length keysB)) with 0%nat by lia.
  - destruct (decide (Nat.max (length keysA) (length keysB) = S f)) as [-> | Hlt];
      [reflexivity |].
    rewrite compareKeys_more_fuel by lia. apply IH; lia.
Qed.

Lemma compareKeys_trans fuel : forall keysA keysB keysC,
  compareKeys fuel keysA keysB <= 0 -> compareKeys fuel keysB keysC <= 0 ->
  compareKeys fuel keysA keysC <= 0.
Proof.
  induction fuel as [| f IH]; intros keysA keysB keysC; [reflexivity |].
  cbn [compareKeys].
  set (vA := match keysA with a :: _ => a | [] => -1 end).
  set (vB := match keysB with b :: _ => b | [] => -1 end).
  set (vC := match keysC with c :: _ => c | [] => -1 end).
  destruct (Z.eqb_spec vA vB) as [Hab | Hab];
    destruct (Z.eqb_spec vB vC) as [Hbc | Hbc];
    destruct (Z.eqb_spec vA vC) as [Hac | Hac];
    intros H1 H2; try lia.
  now apply (IH _ (tl keysB)).
Qed.

(** The comparator on two sections with numeric numbering. *)
Lemma comparePrefixes_numeric a b :
  numericPrefix a -> numericPrefix b ->
  comparePrefixes a b
  = Some (match getSectionNumberPrefix (title a),
                getSectionNumberPrefix (title b) with
          | [], [] => 0
          | [], _ :: _ => 1
          | _ :: _, [] => -1
          | _ :: _, _ :: _ =>
              compareKeys (Nat.max (length (keysOf a)) (length (keysOf b)))
                (keysOf a) (keysOf b)
          end).
Proof.
  unfold numericPrefix, comparePrefixes, keysOf. intros Ha Hb.
  destruct (getSectionNumberPrefix (title a)) as [| ca pa] eqn:Hpa;
    destruct (getSectionNumberPrefix (title b)) as [| cb pb] eqn:Hpb;
    try reflexivity.
  rewrite (Number_parts _ Ha), (Number_parts _ Hb), !length_map.
  apply compareParts_keys.
Qed.

Lemma inOrder_total a b :
  numericPrefix a -> numericPrefix b -> ~ inOrder a b -> inOrder b a.
Proof.
  intros Ha Hb. unfold inOrder, goesAfter.
  rewrite (comparePrefixes_numeric a b Ha Hb),
    (comparePrefixes_numeric b a Hb Ha).
  destruct (getSectionNumberPrefix (title a)) as [| ca pa];
    destruct (getSectionNumberPrefix (title b)) as [| cb pb];
    try (intros H; reflexivity); try (intros H; now elim H).
  rewrite (Nat.max_comm (length (keysOf b))), compareKeys_antisym.
  intros H. apply Z.ltb_ge. apply not_false_iff_true, Z.ltb_lt in H. lia.
Qed.

Lemma inOrder_trans a b c :
  numericPrefix a -> numericPrefix b -> numericPrefix c ->
  inOrder a b -> inOrder b c -> inOrder a c.
Proof.
  intros Ha Hb Hc. unfold inOrder, goesAfter.
  rewrite (comparePrefixes_numeric a b Ha Hb),
    (comparePrefixes_numeric b c Hb Hc), (comparePrefixes_numeric a c Ha Hc).
  destruct (getSectionNumberPrefix (title a)) as [| ca pa];
    destruct (getSectionNumberPrefix (title b)) as [| cb pb];
    destruct (getSectionNumberPrefix (title c)) as [| cc pc];
    try reflexivity; try discriminate.
  set (fuel := Nat.max (length (keysOf a))
                 (Nat.max (length (keysOf b)) (length (keysOf c)))).
  rewrite <- (compareKeys_fuel fuel (keysOf a) (keysOf b)) by lia.
  rewrite <- (compareKeys_fuel fuel (keysOf b) (keysOf c)) by lia.
  rewrite <- (compareKeys_fuel fuel (keysOf a) (keysOf c)) by lia.
  rewrite !Z.ltb_ge. apply compareKeys_trans.
Qed.

Lemma insertSorted_sorted x l :
  Forall numericPrefix (x :: l) ->
  StronglySorted inOrder l ->
  StronglySorted inOrder (insertSorted comparePrefixes x l).
Proof.
  intros Hnum Hsorted. apply Forall_cons in Hnum as [Hx Hl].
  induction Hsorted as [| y rest Hrest IH Hy]; cbn [insertSorted].
  - repeat constructor.
  - apply Forall_cons in Hl as [Hynum Hl].
    destruct (goesAfter comparePrefixes x y) eqn:Hxy.
    + constructor; [now apply IH |].
      rewrite insertSorted_Permutation. constructor; [| exact Hy].
      apply inOrder_total; [assumption .. |]. unfold inOrder. congruence.
    + constructor; [now constructor |]. constructor; [exact Hxy |].
      rewrite List.Forall_forall in Hy, Hl |- *. intros r Hr.
      apply (inOrder_trans x y r); try assumption; [now apply Hl | now apply Hy].
Qed.

Lemma numericPrefix_linkParent m s :
  numericPrefix s -> numericPrefix (linkParent m s).
Proof.
  unfold numericPrefix. now rewrite (linkParent_only_parentId m s).
Qed.

(** X18: when every numbering in the outline is arabic or one of the
    listed ordinals, the reconstructed outline is in the order of the
    comparator: no section stands before one that the comparator puts
    before it.  Sections without numbering are the largest, so they come
    last. *)
Theorem reconstructHierarchy_sorted (data : list DocSection) :
  Forall numericPrefix data ->
  StronglySorted inOrder (reconstructHierarchy data).
Proof.
  intros Hnum. unfold reconstructHierarchy.
  destruct data as [| d0 data']; [constructor |].
  set (data := d0 :: data') in *. cbv zeta.
  assert (Hlinked : Forall numericPrefix
                      (List.map (linkParent (buildPrefixMap data)) data)).
  { apply Forall_forall. intros s Hs.
    apply list_elem_of_In, List.in_map_iff in Hs as (s0 & <- & Hs0).
    apply numericPrefix_linkParent.
    rewrite Forall_forall in Hnum. apply Hnum. now apply list_elem_of_In. }
  revert Hlinked. generalize (List.map (linkParent (buildPrefixMap data)) data).
  intros l Hl. unfold sort.
  induction l as [| x l IH]; [constructor |].
  cbn [fold_right]. apply insertSorted_sorted.
  - apply Forall_cons in Hl as [Hx Hl']. constructor; [exact Hx |].
    fold (sort comparePrefixes l). now rewrite sort_Permutation.
  - apply IH. now apply Forall_cons in Hl as [_ Hl'].
Qed.

Lemma reconstructHierarchy_sorted_witness :
  StronglySorted inOrder
    (reconstructHierarchy
       [mkSection (NumId 1) Undefined (js "附录") [] 500 None;
        mkSection (NumId 2) Undefined (js "10 结论") [] 500 None;
        mkSection (NumId 3) Undefined (js "2.1 背景") [] 500 None;
        mkSection (NumId 4) Undefined (js "二、总览") [] 500 None]).
Proof.
  apply (reconstructHierarchy_sorted
           [mkSection (NumId 1) Undefined (js "附录") [] 500 None;
            mkSection (NumId 2) Undefined (js "10 结论") [] 500 None;
            mkSection (NumId 3) Undefined (js "2.1 背景") [] 500 None;
            mkSection (NumId 4) Undefined (js "二、总览") [] 500 None]).
  repeat constructor.
Defined.

End OrderFacts.

(** ** Titles: numbering and normalization *)

Section NumberingFacts.
Import Outline Merge.

(** X19: the normalized form of a title does not depend on its leading
    numbering: two titles that differ only in the run of digits and dots
    before the first space are the same title for every merge. *)
Theorem getNormalizedTitle_ignores_numbering (num1 num2 rest : str) :
  num1 <> [] -> num2 <> [] ->
  Forall (fun c => isDigitOrDot c = true) num1 ->
  Forall (fun c => isDigitOrDot c = true) num2 ->
  getNormalizedTitle (num1 ++ SPACE :: rest)
  = getNormalizedTitle (num2 ++ SPACE :: rest).
Proof.
  intros Hne1 Hne2 Hnum1 Hnum2.
  now rewrite !getNormalizedTitle_numbered.
Qed.

Lemma getNormalizedTitle_ignores_numbering_witness :
  getNormalizedTitle (js "1.1" ++ SPACE :: js "Project **Scope**")
  = getNormalizedTitle (js "3.2.4." ++ SPACE :: js "Project **Scope**").
Proof.
  apply (getNormalizedTitle_ignores_numbering (js "1.1") (js "3.2.4.")
           (js "Project **Scope**"));
    first [discriminate | repeat constructor].
Defined.

Lemma takeDigits_digits s : Forall (fun c => isDigit c = true) (Json.takeDigits s).
Proof.
  induction s as [| c t IH]; simpl; [constructor |].
  destruct (isDigit c) eqn:Hc; [now constructor | constructor].
Qed.

Lemma takeDigits_app ds rest :
  Forall (fun c => isDigit c = true) ds ->
  match rest with c :: _ => isDigit c = false | [] => True end ->
  Json.takeDigits (ds ++ rest) = ds /\ Json.dropDigits (ds ++ rest) = rest.
Proof.
  intros Hds Hrest. induction Hds as [| d ds Hd _ IH]; simpl.
  - destruct rest as [| c r]; [now split |]. simpl. now rewrite Hrest.
  - rewrite Hd. destruct IH as [-> ->]. now split.
Qed.

Lemma dropDigits_length s : (length (Json.dropDigits s) <= length s)%nat.
Proof.
  induction s as [| c t IH]; simpl; [lia |].
  destruct (isDigit c); simpl; lia.
Qed.

Lemma dottedTail_head fuel s :
  match dottedTail fuel s with c :: _ => c = DOT | [] => True end.
Proof.
  destruct fuel as [| f]; [exact I |]. destruct s as [| c t]; [exact I |].
  simpl. destruct (N.eqb_spec c DOT) as [-> |]; [| exact I].
  now destruct (Json.takeDigits t).
Qed.

(** A group of the arabic pattern stays one when a dot, digits and then a
    space are written behind it. *)
Lemma dottedTail_extend digits rest fuel : forall s fuel',
  digits <> [] -> Forall (fun c => isDigit c = true) digits ->
  (length (dottedTail fuel s) + length digits + 2 <= fuel')%nat ->
  dottedTail fuel' (dottedTail fuel s ++ DOT :: digits ++ SPACE :: rest)
  = dottedTail fuel s ++ DOT :: digits.
Proof.
  intros s fuel' Hne Hdigits. revert s fuel'.
  assert (Hbase : forall fuel', (length digits + 2 <= fuel')%nat ->
             dottedTail fuel' (DOT :: digits ++ SPACE :: rest) = DOT :: digits).
  { intros [| f'] Hf; [lia |]. cbn [dottedTail]. rewrite N.eqb_refl.
    destruct (takeDigits_app digits (SPACE :: rest) Hdigits eq_refl)
      as [-> ->].
    destruct digits as [| d ds]; [contradiction |].
    assert (dottedTail f' (SPACE :: rest) = []) as ->
      by (destruct f'; reflexivity).
    now rewrite app_nil_r. }
  induction fuel as [| f IH]; intros s fuel' Hlen;
    [apply Hbase; simpl in Hlen; lia |].
  destruct s as [| c t]; [apply Hbase; simpl in Hlen; lia |].
  cbn [dottedTail] in Hlen |- *.
  destruct (N.eqb_spec c DOT) as [-> | Hc]; [| apply Hbase; simpl in Hlen; lia].
  destruct (Json.takeDigits t) as [| d ds] eqn:Hds;
    [apply Hbase; simpl in Hlen; lia |].
  pose proof (takeDigits_digits t) as Hall. rewrite Hds in Hall.
  destruct fuel' as [| f']; [simpl in Hlen; lia |].
  cbn [dottedTail app]. rewrite N.eqb_refl.
  rewrite <- app_assoc.
  destruct (takeDigits_app (d :: ds)
              (dottedTail f (Json.dropDigits t)
                 ++ DOT :: digits ++ SPACE :: rest) Hall) as [Htake Hdrop].
  { pose proof (dottedTail_head f (Json.dropDigits t)) as Hhead.
    destruct (dottedTail f (Json.dropDigits t)) as [| h r];
      [reflexivity | now subst h]. }
  cbn [app] in Htake, Hdrop. rewrite Htake, Hdrop.
  rewrite IH; [now rewrite <- app_assoc |].
  cbn [length] in Hlen. rewrite length_app in Hlen. lia.
Qed.

Lemma chineseNumOr_cases run :
  (chineseNumOr run <> []
   /\ Forall (fun c => isDigit c = true) (chineseNumOr run))
  \/ chineseNumOr run = run.
Proof.
  unfold chineseNumOr.
  destruct (List.find _ chineseNums) as [kv |] eqn:Hfind; [| now right].
  left. apply List.find_some in Hfind as [Hin _].
  assert (Hall : List.Forall
            (fun kv => kv.2 <> [] /\ Forall (fun c => isDigit c = true) kv.2)
            chineseNums).
  { repeat (apply List.Forall_cons;
            [split; [discriminate | repeat constructor] |]).
    apply List.Forall_nil. }
  rewrite List.Forall_forall in Hall. exact (Hall kv Hin).
Qed.

Lemma numeral_not_digit e :
  isDigitOrDot e = true -> isChineseNumeral e = false.
Proof.
  intros Hd. unfold isChineseNumeral.
  let l := eval vm_compute in (js "一二三四五六七八九十") in
  change (js "一二三四五六七八九十") with l.
  cbn [existsb].
  repeat match goal with
         | |- context [N.eqb e ?k] =>
             destruct (N.eqb_spec e k) as [-> |]; [now vm_compute in Hd |]
         end.
  reflexivity.
Qed.

Lemma removeFirst_absent c s : c ∉ s -> removeFirst c s = s.
Proof.
  induction s as [| d t IH]; [reflexivity |]. intros Hn. simpl.
  destruct (N.eqb_spec d c) as [-> | Hd]; [exfalso; apply Hn; now left |].
  rewrite IH; [reflexivity |]. intros Hin. apply Hn. now right.
Qed.

Lemma takeChineseNumerals_all s :
  Forall (fun c => isChineseNumeral c = true) (takeChineseNumerals s).
Proof.
  induction s as [| c t IH]; simpl; [constructor |].
  destruct (isChineseNumeral c) eqn:Hc; [now constructor | constructor].
Qed.

(** The shape of a numbering made of digits and dots: digits followed by
    groups of a dot and digits. *)
Lemma numeric_prefix_shape t :
  getSectionNumberPrefix t <> [] ->
  forallb isDigitOrDot (getSectionNumberPrefix t) = true ->
  exists ds fuel s,
    getSectionNumberPrefix t = ds ++ dottedTail fuel s
    /\ ds <> [] /\ Forall (fun c => isDigit c = true) ds.
Proof.
  assert (Hraw : forall run,
             run <> [] -> Forall (fun c => isChineseNumeral c = true) run ->
             chineseNumOr run <> [] ->
             forallb isDigitOrDot (chineseNumOr run) = true ->
             exists ds fuel s,
               chineseNumOr run = ds ++ dottedTail fuel s
               /\ ds <> [] /\ Forall (fun c => isDigit c = true) ds).
  { intros run Hne Hrun _ Hnum.
    destruct (chineseNumOr_cases run) as [[Hne' Hdigits] | Heq].
    - exists (chineseNumOr run), 0%nat, []. cbn [dottedTail].
      rewrite app_nil_r. now repeat split.
    - exfalso. rewrite Heq in Hnum. destruct run as [| e es]; [contradiction |].
      apply Forall_cons in Hrun as [He _]. cbn [forallb] in Hnum.
      apply andb_true_iff in Hnum as [Hd _].
      rewrite (numeral_not_digit e Hd) in He. discriminate. }
  unfold getSectionNumberPrefix, arabicMatch.
  destruct (Json.takeDigits t) as [| d ds] eqn:Hds.
  - destruct (chineseMainMatch t) as [run |] eqn:Hmain.
    + unfold chineseMainMatch in Hmain.
      pose proof (takeChineseNumerals_all t) as Hall.
      destruct (takeChineseNumerals t) as [| e es] eqn:Hrun; [discriminate |].
      destruct (dropChineseNumerals t) as [| c0 r0]; [discriminate |].
      destruct (c0 =? 12289)%N; [| discriminate]. injection Hmain as <-.
      now apply Hraw.
    + destruct (chineseParensMatch t) as [group |] eqn:Hparens;
        [| intros H; now elim H].
      unfold chineseParensMatch in Hparens.
      destruct t as [| o inner]; [discriminate |].
      destruct (N.eqb_spec o 65288) as [-> | Ho]; [| discriminate].
      pose proof (takeChineseNumerals_all inner) as Hall.
      destruct (takeChineseNumerals inner) as [| e es] eqn:Hin; [discriminate |].
      destruct (dropChineseNumerals inner) as [| cl r]; [discriminate |].
      destruct (N.eqb_spec cl 65289) as [-> | Hcl]; [| discriminate].
      injection Hparens as <-.
      assert (Hfree : forall c, c = 65288%N \/ c = 65289%N -> c ∉ e :: es).
      { intros c Hc Hin'. rewrite Forall_forall in Hall.
        specialize (Hall c Hin'). destruct Hc as [-> | ->]; discriminate. }
      assert (removeFirst 65289 (removeFirst 65288 (e :: es ++ [65289%N]))
              = e :: es) as ->.
      { change (e :: es ++ [65289%N]) with ((e :: es) ++ [65289%N]).
        rewrite (removeFirst_absent 65288).
        - clear -Hfree. specialize (Hfree 65289%N (or_intror eq_refl)).
          induction (e :: es) as [| x l IH]; [reflexivity |]. simpl.
          destruct (N.eqb_spec x 65289) as [-> | Hx];
            [exfalso; apply Hfree; now left |].
          rewrite IH; [reflexivity |]. intros Hin. apply Hfree. now right.
        - intros Hopen. apply elem_of_app in Hopen as [Hopen | Hopen].
          + now apply (Hfree 65288%N (or_introl eq_refl)).
          + apply list_elem_of_singleton in Hopen. discriminate. }
      now apply Hraw.
  - intros _ _. exists (d :: ds), (length t), (Json.dropDigits t).
    split; [reflexivity |]. split; [discriminate |].
    rewrite <- Hds. apply takeDigits_digits.
Qed.

Lemma showN_nonempty n : showN n <> [].
Proof.
  unfold showN. cbn [digitsOf].
  assert (Hgrow : forall fuel m acc, acc <> [] -> digitsOf fuel m acc <> []).
  { induction fuel as [| f IH]; intros m acc Hacc; simpl; [exact Hacc |].
    destruct (m <? 10)%N; [discriminate | apply IH; discriminate]. }
  destruct (n <? 10)%N; [discriminate | apply Hgrow; discriminate].
Qed.

(** X20: a child renumbered under a parent whose numbering is made of
    digits and dots carries the numbering of the parent, a dot and its
    position counted from one; so the reconstruction of the hierarchy finds
    the parent again from the title alone. *)
Theorem renumbered_child_prefix (parentTitle childTitle : str) (k : nat) :
  getSectionNumberPrefix parentTitle <> [] ->
  forallb isDigitOrDot (getSectionNumberPrefix parentTitle) = true ->
  getSectionNumberPrefix (fixSectionTitleNumbering parentTitle childTitle k)
  = getSectionNumberPrefix parentTitle ++ DOT :: showN (N.of_nat (k + 1)).
Proof.
  intros Hne Hnum. unfold fixSectionTitleNumbering.
  destruct (numeric_prefix_shape parentTitle Hne Hnum)
    as (ds & fuel & s & Hshape & Hds & Hdigits).
  destruct (getSectionNumberPrefix parentTitle) as [| p0 p] eqn:Hp;
    [now elim Hne |].
  rewrite Hshape. clear Hp Hshape Hne Hnum p0 p.
  set (digits := showN (N.of_nat (k + 1))).
  assert (Hk : Forall (fun c => isDigit c = true) digits)
    by (apply digitsOf_digits; constructor).
  pose proof (showN_nonempty (N.of_nat (k + 1))) as Hkne. fold digits in Hkne.
  set (rest := getNormalizedTitle childTitle).
  unfold getSectionNumberPrefix, arabicMatch.
  cbn [app]. rewrite <- !app_assoc. cbn [app].
  destruct (takeDigits_app ds
              (dottedTail fuel s ++ DOT :: digits ++ SPACE :: rest) Hdigits)
    as [Htake Hdrop].
  { pose proof (dottedTail_head fuel s) as Hhead.
    destruct (dottedTail fuel s) as [| h r]; [reflexivity | now subst h]. }
  rewrite Htake, Hdrop.
  destruct ds as [| d ds']; [now elim Hds |].
  rewrite dottedTail_extend; [reflexivity | assumption ..|].
  rewrite !length_app. cbn [length]. rewrite !length_app. cbn [length]. lia.
Qed.

Lemma renumbered_child_prefix_witness :
  getSectionNumberPrefix
    (fixSectionTitleNumbering (js "二、总览") (js "### 9.9 背景") 11)
  = getSectionNumberPrefix (js "二、总览") ++ DOT :: showN (N.of_nat (11 + 1)).
Proof.
  apply (renumbered_child_prefix (js "二、总览") (js "### 9.9 背景") 11);
    [discriminate | reflexivity].
Defined.

End NumberingFacts.

(** ** Decoding the model's JSON *)

Section SmartParseFacts.
Import Repair RepairScan Json Demux Merge SmartParse.

Lemma elem_of_indicesOf p s : forall i k,
  k ∈ indicesOf p i s
  <-> (i <= k)%nat /\ exists c, s !! (k - i)%nat = Some c /\ p c = true.
Proof.
  induction s as [| d t IH]; intros i k; cbn [indicesOf].
  - split; [intros H; inversion H | intros (_ & c & Hc & _); discriminate].
  - assert (Htail : k ∈ indicesOf p (S i) t
                    <-> (i < k)%nat
                        /\ exists c, (d :: t) !! (k - i)%nat = Some c
                                     /\ p c = true).
    { rewrite IH. split.
      - intros (Hle & c & Hc & Hp). split; [lia |]. exists c. split; [| exact Hp].
        replace (k - i)%nat with (S (k - S i)) by lia. exact Hc.
      - intros (Hlt & c & Hc & Hp). split; [lia |]. exists c. split; [| exact Hp].
        replace (k - i)%nat with (S (k - S i)) in Hc by lia. exact Hc. }
    destruct (p d) eqn:Hd.
    + rewrite elem_of_cons, Htail. split.
      * intros [-> | (Hlt & Hc)]; [| split; [lia | exact Hc]].
        split; [lia |]. exists d. now rewrite Nat.sub_diag.
      * intros (Hle & c & Hc & Hp).
        destruct (decide (k = i)) as [-> | Hne]; [now left |].
        right. split; [lia |]. eauto.
    + rewrite Htail. split.
      * intros (Hlt & Hc). split; [lia | exact Hc].
      * intros (Hle & c & Hc & Hp). split; [| eauto].
        destruct (decide (k = i)) as [-> | Hne]; [| lia].
        rewrite Nat.sub_diag in Hc. injection Hc as <-. congruence.
Qed.

Lemma elem_of_candidates text s e :
  (s, e) ∈ candidates text
  <-> (exists o, text !! s = Some o /\ isOpener o = true)
      /\ (exists c, text !! e = Some c /\ isCloser c = true)
      /\ (s < e)%nat.
Proof.
  unfold candidates. rewrite list_elem_of_In, List.in_flat_map. split.
  - intros (s' & Hs' & Hin). apply List.in_flat_map in Hin as (e' & He' & Hin).
    destruct (s' <? e')%nat eqn:Hlt; [| now inversion Hin].
    destruct Hin as [[= <- <-] | []]. apply Nat.ltb_lt in Hlt.
    apply list_elem_of_In, elem_of_indicesOf in Hs' as (_ & o & Ho & Hop).
    apply List.in_rev, list_elem_of_In, elem_of_indicesOf in He'
      as (_ & c & Hc & Hcl).
    rewrite Nat.sub_0_r in Ho, Hc. eauto 10.
  - intros ((o & Ho & Hop) & (c & Hc & Hcl) & Hlt).
    exists s. split.
    + apply list_elem_of_In, elem_of_indicesOf. split; [lia |].
      exists o. now rewrite Nat.sub_0_r.
    + apply List.in_flat_map. exists e. split.
      * rewrite <- List.in_rev. apply list_elem_of_In, elem_of_indicesOf.
        split; [lia |]. exists c. now rewrite Nat.sub_0_r.
      * apply Nat.ltb_lt in Hlt. rewrite Hlt. now left.
Qed.

Lemma insertBy_Permutation {A} (after : A -> A -> bool) x l :
  insertBy after x l ≡ₚ x :: l.
Proof.
  induction l as [| y l IH]; simpl; [reflexivity |].
  destruct (after x y); [| reflexivity].
  rewrite IH. apply Permutation_swap.
Qed.

Lemma sortBy_Permutation {A} (after : A -> A -> bool) l : sortBy after l ≡ₚ l.
Proof.
  induction l as [| x l IH]; [reflexivity |].
  unfold sortBy in *. cbn [fold_right].
  now rewrite insertBy_Permutation, IH.
Qed.

Lemma firstParsed_Parsed text cands v :
  firstParsed text cands = Parsed v ->
  exists cand, cand ∈ cands
               /\ parseOrRepair (substring cand.1 (cand.2 + 1) text) = Some v.
Proof.
  induction cands as [| cand rest IH]; cbn [firstParsed]; [discriminate |].
  destruct (parseOrRepair _) as [w |] eqn:Hw.
  - intros [= <-]. exists cand. split; [now left | exact Hw].
  - intros H. destruct (IH H) as (c & Hc & Hv). exists c.
    split; [now right | exact Hv].
Qed.

(** X21: whatever [tryExtractValidJson] returns was decoded, as it stands
    or after repair, from a piece of the text that starts at an opening
    brace or bracket and ends at a later closing one. *)
Theorem tryExtractValidJson_sound (text : str) (v : JsonValue) :
  tryExtractValidJson text = Parsed v ->
  exists s e o c,
    (s < e)%nat
    /\ text !! s = Some o /\ isOpener o = true
    /\ text !! e = Some c /\ isCloser c = true
    /\ parseOrRepair (substring s (e + 1) text) = Some v.
Proof.
  unfold tryExtractValidJson. intros H.
  apply firstParsed_Parsed in H as ([s e] & Hin & Hv).
  rewrite sortBy_Permutation in Hin.
  apply elem_of_candidates in Hin as ((o & Ho & Hop) & (c & Hc & Hcl) & Hlt).
  exists s, e, o, c. now repeat split.
Qed.

Lemma tryExtractValidJson_sound_witness :
  exists s e o c,
    (s < e)%nat
    /\ jsq "so: {'a': 1} ok}" !! s = Some o /\ isOpener o = true
    /\ jsq "so: {'a': 1} ok}" !! e = Some c /\ isCloser c = true
    /\ parseOrRepair (substring s (e + 1) (jsq "so: {'a': 1} ok}"))
       = Some (JObject [(js "a", JNumber 1)]).
Proof.
  apply (tryExtractValidJson_sound (jsq "so: {'a': 1} ok}")
           (JObject [(js "a", JNumber 1)])).
  vm_compute. reflexivity.
Defined.

Lemma sortBy_head {A} `{!EqDecision A} (after : A -> A -> bool) (best : A)
    (l : list A) :
  best ∈ l ->
  (forall y, y ∈ l -> after best y = false) ->
  (forall y, y ∈ l -> y <> best -> after y best = true) ->
  exists rest, sortBy after l = best :: rest.
Proof.
  unfold sortBy. induction l as [| y l IH]; intros Hin Hbest Hother;
    [inversion Hin |].
  cbn [fold_right].
  destruct (decide (best ∈ l)) as [Hl | Hl].
  - destruct IH as (rest & ->); [exact Hl | | |].
    + intros z Hz. apply Hbest. now right.
    + intros z Hz. apply Hother. now right.
    + cbn [insertBy].
      destruct (after y best) eqn:Hy; [eauto |].
      assert (y = best) as ->; [| eauto].
      destruct (decide (y = best)) as [-> | Hne]; [reflexivity |].
      rewrite (Hother y) in Hy; [discriminate | now left | exact Hne].
  - apply elem_of_cons in Hin as [<- | Hin]; [| contradiction].
    destruct (fold_right (insertBy after) [] l) as [| z rest] eqn:Hsorted;
      [now exists [] |].
    cbn [insertBy]. rewrite (Hbest z); [eauto |].
    right. rewrite <- (sortBy_Permutation after l). unfold sortBy.
    rewrite Hsorted. now left.
Qed.


Lemma lookup_middle_inv (pre mid post : str) (k : nat) (x : N) (P : N -> Prop) :
  Forall (fun c => ~ P c) pre -> Forall (fun c => ~ P c) post ->
  (pre ++ mid ++ post) !! k = Some x -> P x ->
  (length pre <= k < length pre + length mid)%nat.
Proof.
  intros Hpre Hpost Hk HP.
  apply lookup_app_Some in Hk as [Hk | [Hle Hk]].
  - rewrite Forall_forall in Hpre. exfalso.
    apply (Hpre x); [eapply list_elem_of_lookup_2, Hk | exact HP].
  - apply lookup_app_Some in Hk as [Hk | [Hle' Hk]].
    + apply lookup_lt_Some in Hk. lia.
    + rewrite Forall_forall in Hpost. exfalso.
      apply (Hpost x); [eapply list_elem_of_lookup_2, Hk | exact HP].
Qed.

(** X22: prose around a JSON object or array does not disturb the
    extraction: when the text before and behind has no brace or bracket and
    the piece between, from its opening to its closing bracket, decodes,
    the value of that piece is returned. *)
Theorem tryExtractValidJson_ignores_prose (pre mid post : str) (o c : N)
    (v : JsonValue) :
  Forall (fun x => isOpener x = false /\ isCloser x = false) pre ->
  Forall (fun x => isOpener x = false /\ isCloser x = false) post ->
  isOpener o = true -> isCloser c = true ->
  JSON_parse (o :: mid ++ [c]) = Some v ->
  tryExtractValidJson (pre ++ (o :: mid ++ [c]) ++ post) = Parsed v.
Proof.
  intros Hpre Hpost Ho Hc Hv. unfold tryExtractValidJson.
  set (j := o :: mid ++ [c]). set (text := pre ++ j ++ post).
  set (best := (length pre, (length pre + length mid + 1)%nat)).
  assert (Hj : length j = (length mid + 2)%nat).
  { unfold j. cbn [length]. rewrite length_app. simpl. lia. }
  assert (Hfirst : text !! length pre = Some o).
  { unfold text. rewrite lookup_app_r by lia. now rewrite Nat.sub_diag. }
  assert (Hlast : text !! (length pre + length mid + 1)%nat = Some c).
  { unfold text. rewrite lookup_app_r by lia.
    replace (length pre + length mid + 1 - length pre)%nat
      with (S (length mid)) by lia.
    rewrite (lookup_app_l j post) by (rewrite Hj; lia).
    unfold j. rewrite lookup_cons. rewrite lookup_app_r by lia.
    now rewrite Nat.sub_diag. }
  assert (Hbounds : forall s e, (s, e) ∈ candidates text ->
             (length pre <= s)%nat /\ (e <= length pre + length mid + 1)%nat
             /\ (s < e)%nat).
  { intros s e Hin.
    apply elem_of_candidates in Hin as ((x & Hx & Hxo) & (y & Hy & Hyc) & Hlt).
    pose proof (lookup_middle_inv pre j post s x (fun c => isOpener c = true))
      as Hs.
    pose proof (lookup_middle_inv pre j post e y (fun c => isCloser c = true))
      as He.
    split; [| split; [| exact Hlt]].
    - apply Hs; [| | exact Hx | exact Hxo];
        (eapply Forall_impl; [eassumption |]); intros z [Hz _]; congruence.
    - enough (length pre <= e < length pre + length j)%nat by lia.
      apply He; [| | exact Hy | exact Hyc];
        (eapply Forall_impl; [eassumption |]); intros z [_ Hz]; congruence. }
  destruct (sortBy_head (fun a b => (len a <? len b)%nat) best
              (candidates text)) as (rest & ->).
  - apply elem_of_candidates. split; [eauto |]. split; [eauto | lia].
  - intros [s e] Hin. destruct (Hbounds s e Hin) as (Hs & He & Hlt).
    apply Nat.ltb_ge. unfold len, best. cbn [fst snd]. lia.
  - intros [s e] Hin Hne. destruct (Hbounds s e Hin) as (Hs & He & Hlt).
    apply Nat.ltb_lt. unfold len, best. cbn [fst snd].
    enough (s <> length pre \/ e <> (length pre + length mid + 1)%nat) by lia.
    destruct (decide (s = length pre)) as [-> | Hs']; [| now left].
    right. intros ->. now apply Hne.
  - cbn [firstParsed]. unfold best. cbn [fst snd].
    assert (substring (length pre) (length pre + length mid + 1 + 1) text = j)
      as ->.
    { unfold substring, text.
      rewrite Nat.min_l, Nat.max_r by lia.
      rewrite drop_app_length.
      replace (length pre + length mid + 1 + 1 - length pre)%nat
        with (length j) by lia.
      apply take_app_length. }
    unfold parseOrRepair. fold j in Hv. now rewrite Hv.
Qed.

Lemma tryExtractValidJson_ignores_prose_witness :
  tryExtractValidJson
    (jsq "Here you are: " ++ (91%N :: jsq "1, {'a': 2}" ++ [93%N])
       ++ jsq " - enjoy")
  = Parsed (JArray [JNumber 1; JObject [(js "a", JNumber 2)]]).
Proof.
  apply (tryExtractValidJson_ignores_prose (jsq "Here you are: ")
           (jsq "1, {'a': 2}") (jsq " - enjoy") 91%N 93%N
           (JArray [JNumber 1; JObject [(js "a", JNumber 2)]]));
    first [reflexivity | repeat constructor].
Defined.

(** *** Code fences *)

Lemma stripPrefix_app_self (p rest : str) : stripPrefix p (p ++ rest) = Some rest.
Proof.
  induction p as [| a p IH]; [reflexivity |]. cbn [app stripPrefix].
  now rewrite N.eqb_refl.
Qed.

Lemma splitAtFirst_skip (before pat' after : str) :
  BACKTICK ∉ before ->
  splitAtFirst (BACKTICK :: pat') (before ++ (BACKTICK :: pat') ++ after)
  = Some (before, after).
Proof.
  intros Hfree. induction before as [| c before IH].
  - cbn [app]. change (BACKTICK :: pat' ++ after)
      with ((BACKTICK :: pat') ++ after).
    destruct ((BACKTICK :: pat') ++ after) as [| x y] eqn:Hs; [discriminate |].
    cbn [splitAtFirst]. rewrite <- Hs, stripPrefix_app_self. reflexivity.
  - apply not_elem_of_cons in Hfree as [Hc Hfree].
    change ((c :: before) ++ (BACKTICK :: pat') ++ after)
      with (c :: (before ++ (BACKTICK :: pat') ++ after)).
    cbn [splitAtFirst stripPrefix].
    destruct (N.eqb_spec BACKTICK c) as [<- | _]; [now elim Hc |].
    now rewrite (IH Hfree).
Qed.

Lemma splitAtFirst_no_backtick (pat' s : str) :
  BACKTICK ∉ s -> splitAtFirst (BACKTICK :: pat') s = None.
Proof.
  induction s as [| c s IH]; intros Hfree; [reflexivity |].
  apply not_elem_of_cons in Hfree as [Hc Hfree].
  cbn [splitAtFirst stripPrefix].
  destruct (N.eqb_spec BACKTICK c) as [<- | _]; [now elim Hc |].
  now rewrite (IH Hfree).
Qed.

Lemma skipSpaces_nil (s : str) :
  skipSpaces s = [] <-> forallb isSpace s = true.
Proof.
  induction s as [| c s IH]; [easy |]. simpl.
  destruct (isSpace c); [exact IH | easy].
Qed.

Lemma skipSpaces_head (s : str) : noSpaceAtHead (skipSpaces s) = true.
Proof.
  induction s as [| c s IH]; [reflexivity |]. simpl.
  destruct (isSpace c) eqn:Hc; [exact IH |]. simpl. now rewrite Hc.
Qed.

Lemma skipSpaces_app (a b : str) :
  skipSpaces (a ++ b)
  = match skipSpaces a with [] => skipSpaces b | _ :: _ => skipSpaces a ++ b end.
Proof.
  induction a as [| c a IH]; [reflexivity |]. simpl.
  destruct (isSpace c); [exact IH | reflexivity].
Qed.

Lemma trimEnd_cons (c : N) (t : str) :
  trimEnd (c :: t)
  = match trimEnd t with
    | [] => if isSpace c then [] else [c]
    | _ :: _ => c :: trimEnd t
    end.
Proof.
  unfold trimEnd. cbn [rev]. rewrite skipSpaces_app.
  destruct (skipSpaces (rev t)) as [| d r] eqn:Hr.
  - simpl. now destruct (isSpace c).
  - rewrite rev_app_distr. cbn [rev app].
    destruct (rev r ++ [d]) eqn:Hd; [now destruct (rev r) | reflexivity].
Qed.

Lemma trimEnd_nil (s : str) : trimEnd s = [] <-> forallb isSpace s = true.
Proof.
  induction s as [| c s IH]; [easy |]. rewrite trimEnd_cons. cbn [forallb].
  destruct (trimEnd s) as [| d r].
  - destruct (isSpace c); [| easy]. cbn [andb]. split; intros _; [| reflexivity].
    now apply IH.
  - split; [discriminate |]. intros H. apply andb_true_iff in H as [_ H].
    apply IH in H. discriminate.
Qed.

Lemma lazyUntilFence_closing (u x : str) :
  BACKTICK ∉ u -> lazyUntilFence (u ++ js "```" ++ x) = Some (trimEnd u).
Proof.
  change (js "```") with [BACKTICK; BACKTICK; BACKTICK].
  induction u as [| c u IH]; intros Hfree.
  - reflexivity.
  - apply not_elem_of_cons in Hfree as [Hc Hfree].
    change ((c :: u) ++ [BACKTICK; BACKTICK; BACKTICK] ++ x)
      with (c :: (u ++ BACKTICK :: [BACKTICK; BACKTICK] ++ x)).
    cbn [lazyUntilFence].
    change (js "```") with [BACKTICK; BACKTICK; BACKTICK].
    change (c :: (u ++ BACKTICK :: [BACKTICK; BACKTICK] ++ x))
      with ((c :: u) ++ BACKTICK :: [BACKTICK; BACKTICK] ++ x).
    rewrite (skipSpaces_app_nonspace (c :: u) BACKTICK _ eq_refl).
    destruct (skipSpaces (c :: u)) as [| d r] eqn:Hskip.
    + cbn [app stripPrefix]. rewrite !N.eqb_refl.
      symmetry. f_equal. apply trimEnd_nil, skipSpaces_nil, Hskip.
    + assert (Hd : d <> BACKTICK).
      { destruct (skipSpaces_suffix (c :: u)) as (p & Hp).
        rewrite Hskip in Hp. intros ->.
        assert (Hin : BACKTICK ∈ c :: u)
          by (rewrite Hp; apply elem_of_app; right; now left).
        apply elem_of_cons in Hin as [Hin | Hin]; [now apply Hc | now apply Hfree]. }
      cbn [app stripPrefix].
      destruct (N.eqb_spec BACKTICK d) as [Heq | _]; [now elim Hd |].
      change (u ++ BACKTICK :: BACKTICK :: BACKTICK :: x)
        with (u ++ [BACKTICK; BACKTICK; BACKTICK] ++ x).
      rewrite (IH Hfree). cbn [option_map]. f_equal.
      rewrite trimEnd_cons.
      destruct (trimEnd u) as [| e r'] eqn:Hu; [| reflexivity].
      destruct (isSpace c) eqn:Hsp; [| reflexivity].
      exfalso. apply trimEnd_nil in Hu.
      assert (Hall : forallb isSpace (c :: u) = true)
        by (cbn [forallb]; now rewrite Hsp, Hu).
      apply skipSpaces_nil in Hall. congruence.
Qed.

Lemma trim_trim (s : str) : trim (trim s) = trim s.
Proof.
  apply trim_noSpaceAtEnds.
  - unfold trim, trimStart. pose proof (skipSpaces_head s) as Hhead.
    destruct (skipSpaces s) as [| d r]; [reflexivity |].
    rewrite trimEnd_cons. cbn [noSpaceAtHead] in Hhead.
    apply negb_true_iff in Hhead.
    rewrite Hhead. destruct (trimEnd r); cbn [noSpaceAtHead]; now rewrite Hhead.
  - unfold trim, trimEnd. rewrite rev_involutive. apply skipSpaces_head.
Qed.

Lemma not_elem_of_skipSpaces c (s : str) : c ∉ s -> c ∉ skipSpaces s.
Proof.
  intros Hs Hin. apply Hs. destruct (skipSpaces_suffix s) as (p & Hp).
  rewrite Hp. apply elem_of_app. now right.
Qed.

Lemma not_elem_of_trim c (s : str) : c ∉ s -> c ∉ trim s.
Proof.
  intros Hs Hin. apply (not_elem_of_skipSpaces c s Hs).
  unfold trim, trimStart in Hin.
  destruct (trimEnd_prefix (skipSpaces s)) as (suffix & Hp).
  rewrite Hp. apply elem_of_app. now left.
Qed.

Lemma cleanOf_no_backtick (j : str) : BACKTICK ∉ j -> cleanOf j = trim j.
Proof.
  intros Hfree. unfold cleanOf, fencedBlock.
  change (js "```json") with (BACKTICK :: js "``json").
  change (js "```") with (BACKTICK :: js "``").
  now rewrite !splitAtFirst_no_backtick by now apply not_elem_of_trim.
Qed.

Lemma trim_around (pre inner post : str) (c1 c2 : N) :
  isSpace c1 = false -> isSpace c2 = false ->
  trim (pre ++ c1 :: inner ++ c2 :: post)
  = skipSpaces pre ++ c1 :: inner ++ c2 :: trimEnd post.
Proof.
  intros H1 H2. unfold trim, trimStart.
  rewrite (skipSpaces_app_nonspace pre c1 _ H1).
  replace (skipSpaces pre ++ c1 :: inner ++ c2 :: post)
    with (((skipSpaces pre ++ c1 :: inner) ++ [c2]) ++ post)
    by (now rewrite <- !app_assoc).
  rewrite (trimEnd_app_nonspace _ c2 post H2).
  now rewrite <- !app_assoc.
Qed.

Lemma cleanOf_fenced (pre j post : str) :
  BACKTICK ∉ pre -> BACKTICK ∉ j ->
  cleanOf (pre ++ js "```json" ++ j ++ js "```" ++ post) = trim j.
Proof.
  intros Hpre Hj. unfold cleanOf.
  replace (pre ++ js "```json" ++ j ++ js "```" ++ post)
    with (pre ++ BACKTICK :: (js "``json" ++ j ++ js "``") ++ BACKTICK :: post)
    by (f_equal; now rewrite <- !app_assoc).
  rewrite trim_around by reflexivity.
  replace (skipSpaces pre
             ++ BACKTICK :: (js "``json" ++ j ++ js "``")
             ++ BACKTICK :: trimEnd post)
    with (skipSpaces pre ++ (BACKTICK :: js "``json")
            ++ (j ++ js "```" ++ trimEnd post))
    by (f_equal; now rewrite <- !app_assoc).
  unfold fencedBlock.
  change (js "```json") with (BACKTICK :: js "``json").
  rewrite (splitAtFirst_skip (skipSpaces pre) (js "``json")
             (j ++ js "```" ++ trimEnd post))
    by now apply not_elem_of_skipSpaces.
  change (js "```" ++ trimEnd post) with (BACKTICK :: js "``" ++ trimEnd post).
  rewrite (skipSpaces_app_nonspace j BACKTICK _ eq_refl).
  change (BACKTICK :: js "``" ++ trimEnd post)
    with (js "```" ++ trimEnd post).
  rewrite lazyUntilFence_closing by now apply not_elem_of_skipSpaces.
  fold (trimStart j). fold (trim j). apply trim_trim.
Qed.

(** X23: a fenced block is read as if it stood alone: for a text [j]
    between an opening fence with the word json and a closing fence,
    whatever stands before the block (without backticks) and behind it,
    [smartParseJson] does what it does on [j]. *)
Theorem smartParseJson_reads_inside_fence (errorPosition : str -> option nat)
    (pre j post : str) (attemptRepair : bool) :
  BACKTICK ∉ pre -> BACKTICK ∉ j -> j <> [] ->
  smartParseJson errorPosition
    (pre ++ js "```json" ++ j ++ js "```" ++ post) attemptRepair
  = smartParseJson errorPosition j attemptRepair.
Proof.
  intros Hpre Hj Hne. unfold smartParseJson.
  rewrite (cleanOf_fenced pre j post Hpre Hj), (cleanOf_no_backtick j Hj).
  destruct j as [| c j']; [now elim Hne |].
  destruct (pre ++ js "```json" ++ (c :: j') ++ js "```" ++ post) eqn:Hw;
    [| reflexivity].
  apply app_eq_nil in Hw as [_ Hw]. discriminate.
Qed.

Lemma smartParseJson_reads_inside_fence_witness :
  smartParseJson (fun _ => None)
    (js "Sure, here it is: " ++ js "```json" ++ jsq " [{'title': 'a'}] "
       ++ js "```" ++ js " Anything else? ```")
    true
  = smartParseJson (fun _ => None) (jsq " [{'title': 'a'}] ") true.
Proof.
  apply (smartParseJson_reads_inside_fence (fun _ => None)
           (js "Sure, here it is: ") (jsq " [{'title': 'a'}] ")
           (js " Anything else? ```") true).
  - apply (bool_decide_unpack _). vm_compute. reflexivity.
  - apply (bool_decide_unpack _). vm_compute. reflexivity.
  - discriminate.
Defined.

End SmartParseFacts.

(** ** Finding the array in the response *)

Section OutlineRequestFacts.
Import Repair Merge OutlineRequest.

Lemma scanArray_plain (s : str) : forall i depth startIdx lastEndIdx rest,
  Forall (fun c => isSquare c = false) s ->
  scanArray i depth startIdx lastEndIdx (s ++ rest)
  = scanArray (i + length s) depth startIdx lastEndIdx rest.
Proof.
  induction s as [| c s IH]; intros i depth startIdx lastEndIdx rest Hs.
  - cbn. f_equal. lia.
  - apply Forall_cons in Hs as [Hc Hs]. unfold isSquare in Hc.
    apply orb_false_iff in Hc as [Hl Hr].
    cbn [app scanArray length]. rewrite Hl, Hr, IH by exact Hs.
    f_equal. lia.
Qed.

Lemma scanArray_closes (body : str) : forall i depth startIdx post,
  0 < depth -> closesAtEnd depth body = true ->
  Forall (fun c => isSquare c = false) post ->
  scanArray i depth (Some startIdx) None (body ++ post)
  = (Some startIdx, Some (i + length body - 1)%nat).
Proof.
  induction body as [| c t IH]; intros i depth startIdx post Hd Hclose Hpost;
    [discriminate |].
  cbn [closesAtEnd] in Hclose. cbn [app scanArray length].
  destruct t as [| c' t'].
  - apply andb_true_iff in Hclose as [Hc Hzero]. apply N.eqb_eq in Hc as ->.
    unfold depthAfter in Hzero. cbn in Hzero |- *. rewrite Hzero. cbn.
    rewrite <- (app_nil_r post), scanArray_plain by exact Hpost.
    cbn. do 2 f_equal. lia.
  - apply andb_true_iff in Hclose as [Hpos Hclose]. apply Z.ltb_lt in Hpos.
    unfold depthAfter in Hpos, Hclose.
    replace (i + S (length (c' :: t')) - 1)%nat
      with (S i + length (c' :: t') - 1)%nat by (cbn [length]; lia).
    destruct (c =? LBRACKET)%N.
    + replace (depth =? 0) with false by (symmetry; apply Z.eqb_neq; lia).
      now apply IH.
    + destruct (c =? RBRACKET)%N.
      * cbv zeta.
        replace (depth - 1 =? 0) with false by (symmetry; apply Z.eqb_neq; lia).
        cbn [andb]. now apply IH.
      * now apply IH.
Qed.

(** X24: from a response that holds one array between texts without
    square brackets, the scan takes exactly the array, from its opening
    bracket to the bracket that closes it, nested arrays included. *)
Theorem outermostArray_finds_the_array (pre body post : str) :
  Forall (fun c => isSquare c = false) pre ->
  Forall (fun c => isSquare c = false) post ->
  closesAtEnd 1 body = true ->
  outermostArray (pre ++ (LBRACKET :: body) ++ post) = LBRACKET :: body.
Proof.
  intros Hpre Hpost Hclose. unfold outermostArray.
  rewrite scanArray_plain by exact Hpre.
  cbn [app scanArray]. rewrite N.eqb_refl. cbn [Z.eqb].
  rewrite (scanArray_closes body _ 1 _ post) by (try lia; assumption).
  assert (Hbody : (0 < length body)%nat)
    by (destruct body; [discriminate | simpl; lia]).
  unfold substring. rewrite Nat.min_l, Nat.max_r by lia.
  change (pre ++ LBRACKET :: body ++ post)
    with (pre ++ (LBRACKET :: body) ++ post).
  rewrite Nat.add_0_l, drop_app_length.
  replace (S (length pre) + length body - 1 + 1 - length pre)%nat
    with (length (LBRACKET :: body)) by (cbn [length]; lia).
  apply take_app_length.
Qed.

Lemma outermostArray_finds_the_array_witness :
  outermostArray
    (js "Outline: " ++ (LBRACKET :: jsq "{'t':[1,[2]]},[]]") ++ js " done.")
  = LBRACKET :: jsq "{'t':[1,[2]]},[]]".
Proof.
  apply (outermostArray_finds_the_array (js "Outline: ")
           (jsq "{'t':[1,[2]]},[]]") (js " done."));
    first [reflexivity | repeat constructor].
Defined.

Lemma scanArray_open (body : str) : forall i depth startIdx,
  0 < depth -> staysOpen depth body = true ->
  scanArray i depth (Some startIdx) None body = (Some startIdx, None).
Proof.
  induction body as [| c t IH]; intros i depth startIdx Hd Hopen;
    [reflexivity |].
  cbn [staysOpen] in Hopen. apply andb_true_iff in Hopen as [Hpos Hopen].
  apply Z.ltb_lt in Hpos. unfold depthAfter in Hpos, Hopen.
  cbn [scanArray].
  destruct (c =? LBRACKET)%N.
  - replace (depth =? 0) with false by (symmetry; apply Z.eqb_neq; lia).
    now apply IH.
  - destruct (c =? RBRACKET)%N.
    + cbv zeta.
      replace (depth - 1 =? 0) with false by (symmetry; apply Z.eqb_neq; lia).
      cbn [andb]. now apply IH.
    + now apply IH.
Qed.

(** X25: from a response cut off inside its array (the first opening
    bracket is never closed), the scan takes everything from that bracket
    to the end. *)
Theorem outermostArray_takes_truncated_array (pre body : str) :
  Forall (fun c => isSquare c = false) pre ->
  staysOpen 1 body = true ->
  outermostArray (pre ++ LBRACKET :: body) = LBRACKET :: body.
Proof.
  intros Hpre Hopen. unfold outermostArray.
  rewrite scanArray_plain by exact Hpre.
  cbn [scanArray]. rewrite N.eqb_refl. cbn [Z.eqb].
  rewrite (scanArray_open body _ 1) by (try lia; assumption).
  rewrite Nat.add_0_l. apply drop_app_length.
Qed.

Lemma outermostArray_takes_truncated_array_witness :
  outermostArray (js "Outline: " ++ LBRACKET :: jsq "{'t':[1,2]},{'t':[3")
  = LBRACKET :: jsq "{'t':[1,2]},{'t':[3".
Proof.
  apply (outermostArray_takes_truncated_array (js "Outline: ")
           (jsq "{'t':[1,2]},{'t':[3"));
    first [reflexivity | repeat constructor].
Defined.

End OutlineRequestFacts.

(** ** Heading levels of a flattened outline *)

Section LevelFacts.
Import Outline Nesting Levels.

Lemma entriesOf_flatten (item : NestedItem) : forall depth r,
  List.map fst (entriesOf depth r item) = flattenItem r item.
Proof.
  induction item as [rest children IH] using NestedItem_nested_ind.
  intros depth r. rewrite flattenItem_unfold. cbn [entriesOf List.map fst].
  f_equal. unfold flattenOutline.
  destruct children as [cs |]; [| reflexivity]. cbn [itemChildren].
  induction IH as [| c cs' Hc _ IHcs]; [reflexivity |].
  cbn [List.flat_map]. now rewrite List.map_app, Hc, IHcs.
Qed.

Lemma entries_flatten (items : list NestedItem) :
  List.map fst (entries items) = parseNestedOutline items.
Proof.
  unfold entries, parseNestedOutline, flattenOutline.
  induction items as [| item items IH]; [reflexivity |].
  cbn [List.flat_map]. now rewrite List.map_app, IH, entriesOf_flatten.
Qed.

Lemma entriesOf_parent (item : NestedItem) : forall depth r e k,
  (e, k) ∈ entriesOf depth r item ->
  (k = depth /\ parentId e = r)
  \/ (exists p k', k = S k' /\ (p, k') ∈ entriesOf depth r item
                   /\ parentId e = Ref (id p)).
Proof.
  induction item as [rest children IH] using NestedItem_nested_ind.
  intros depth r e k Hin. cbn [entriesOf] in Hin |- *.
  apply elem_of_cons in Hin as [[= -> ->] | Hin]; [now left |].
  right. destruct children as [cs |]; [| inversion Hin].
  induction IH as [| c cs' Hc _ IHcs]; [inversion Hin |].
  cbn [List.flat_map] in Hin. apply elem_of_app in Hin as [Hin | Hin].
  - destruct (Hc _ _ _ _ Hin) as [[-> Hp] | (p & k' & -> & Hpin & Hp)].
    + exists (withParentId rest r), depth. split; [reflexivity |].
      split; [now left | exact Hp].
    + exists p, k'. split; [reflexivity |]. split; [| exact Hp].
      right. cbn [List.flat_map]. apply elem_of_app. now left.
  - destruct (IHcs Hin) as (p & k' & -> & Hpin & Hp).
    exists p, k'. split; [reflexivity |]. split; [| exact Hp].
    apply elem_of_cons in Hpin as [Heq | Hpin]; [rewrite Heq; now left |].
    right. cbn [List.flat_map]. apply elem_of_app. now right.
Qed.

Lemma entries_parent (items : list NestedItem) e k :
  (e, k) ∈ entries items ->
  (k = 0%nat /\ parentId e = Null)
  \/ (exists p k', k = S k' /\ (p, k') ∈ entries items
                   /\ parentId e = Ref (id p)).
Proof.
  unfold entries. induction items as [| item items IH]; [intros H; inversion H |].
  cbn [List.flat_map]. intros Hin. apply elem_of_app in Hin as [Hin | Hin].
  - destruct (entriesOf_parent _ _ _ _ _ Hin)
      as [? | (p & k' & -> & Hpin & Hp)]; [now left |].
    right. exists p, k'. split; [reflexivity |]. split; [| exact Hp].
    apply elem_of_app. now left.
  - destruct (IH Hin) as [? | (p & k' & -> & Hpin & Hp)]; [now left |].
    right. exists p, k'. split; [reflexivity |]. split; [| exact Hp].
    apply elem_of_app. now right.
Qed.

Lemma list_find_parent (documentData : list DocSection) (p : DocSection) :
  NoDup (List.map id documentData) -> p ∈ documentData ->
  exists i, list_find (fun s => Ref (id s) = Ref (id p)) documentData
            = Some (i, p).
Proof.
  intros Hnd Hp.
  destruct (list_find (fun s => Ref (id s) = Ref (id p)) documentData)
    as [[i x] |] eqn:Hfind.
  - apply list_find_Some in Hfind as (Hlookup & Hid & _). exists i.
    do 2 f_equal. injection Hid as Hid.
    apply (NoDup_map_eq id documentData x p Hnd);
      [eapply list_elem_of_lookup_2, Hlookup | exact Hp | exact Hid].
  - exfalso. apply list_find_None in Hfind.
    rewrite Forall_forall in Hfind. now apply (Hfind p Hp).
Qed.

Lemma levelLoop_depth (items : list NestedItem) :
  NoDup (List.map id (parseNestedOutline items)) ->
  (forall e, e ∈ parseNestedOutline items -> truthyId (id e) = true) ->
  forall k e fuel level,
    (e, k) ∈ entries items -> (k < fuel)%nat ->
    levelLoop fuel (parseNestedOutline items) e level = Some (level + k)%nat.
Proof.
  intros Hnd Htruthy.
  assert (Hflat : forall p k, (p, k) ∈ entries items ->
                              p ∈ parseNestedOutline items).
  { intros p k Hp. rewrite <- entries_flatten.
    apply list_elem_of_In, List.in_map_iff. exists (p, k).
    split; [reflexivity | now apply list_elem_of_In]. }
  induction k as [| k IH]; intros e fuel level Hin Hfuel;
    (destruct fuel as [| f]; [lia |]); cbn [levelLoop].
  - destruct (entries_parent items e 0 Hin) as [[_ ->] | (p & k' & Hk & _)];
      [| discriminate].
    cbn. f_equal. lia.
  - destruct (entries_parent items e (S k) Hin)
      as [[Hk _] | (p & k' & [= <-] & Hpin & ->)]; [discriminate |].
    cbn [truthy]. rewrite (Htruthy p (Hflat p k Hpin)).
    destruct (list_find_parent _ p Hnd (Hflat p k Hpin)) as (i & ->).
    rewrite (IH p f (S level) Hpin) by lia. f_equal. lia.
Qed.

(** X26: on a flattened outline whose identifiers are truthy and pairwise
    distinct the loop of [getSectionLevel] ends, and the heading level of
    an entry is two plus its depth in the nested outline. *)
Theorem getSectionLevel_of_flattened (items : list NestedItem)
    (e : DocSection) (k fuel : nat) :
  NoDup (List.map id (parseNestedOutline items)) ->
  (forall s, s ∈ parseNestedOutline items -> truthyId (id s) = true) ->
  (e, k) ∈ entries items -> (k < fuel)%nat ->
  getSectionLevel fuel (parseNestedOutline items) e = Some (2 + k)%nat.
Proof.
  intros Hnd Htruthy Hin Hfuel. unfold getSectionLevel.
  rewrite (levelLoop_depth items Hnd Htruthy k e fuel 2 Hin Hfuel).
  destruct (truthy (parentId e)) eqn:Hp; [reflexivity |]. cbn [negb].
  destruct (entries_parent items e k Hin)
    as [[-> _] | (p & k' & -> & Hpin & Hparent)]; [reflexivity |].
  exfalso. rewrite Hparent in Hp. cbn [truthy] in Hp.
  rewrite Htruthy in Hp; [discriminate |].
  rewrite <- entries_flatten. apply list_elem_of_In, List.in_map_iff.
  exists (p, k'). split; [reflexivity | now apply list_elem_of_In].
Qed.

Lemma getSectionLevel_of_flattened_witness :
  getSectionLevel 3 (parseNestedOutline (chain 3 1))
    (mkSection (NumId 3) (Ref (NumId 2)) (js "x") [] 500 None)
  = Some 4%nat.
Proof.
  apply (getSectionLevel_of_flattened (chain 3 1)
           (mkSection (NumId 3) (Ref (NumId 2)) (js "x") [] 500 None) 2 3).
  - apply (bool_decide_unpack _). vm_compute. reflexivity.
  - intros s Hs. vm_compute in Hs.
    repeat (apply elem_of_cons in Hs as [-> | Hs]); [reflexivity .. |].
    now apply elem_of_nil in Hs.
  - vm_compute. do 2 apply list_elem_of_further. apply list_elem_of_here.
  - lia.
Defined.

End LevelFacts.

(** ** The outline tree: sections without a parent in the outline *)

Section TreeKeyFacts.
Import Outline Nesting TreeKeys.

Lemma nodeKeys_makeNode item children :
  nodeKeys (makeNode item children) = id item :: treeKeys children.
Proof. destruct children; reflexivity. Qed.

Lemma treeKeys_buildTreeWithin (remaining : nat) (flat : list DocSection) :
  forall r k,
    k ∈ treeKeys (buildTreeWithin remaining flat r) ->
    exists item,
      item ∈ flat /\ id item = k
      /\ (parentId item = r
          \/ exists p, p ∈ flat /\ parentId item = Ref (id p)).
Proof.
  induction remaining as [| n IH]; intros r k Hk; [inversion Hk |].
  cbn [buildTreeWithin] in Hk. unfold treeKeys in Hk.
  apply list_elem_of_In, List.in_flat_map in Hk as (node & Hnode & Hk).
  apply List.in_map_iff in Hnode as (item & <- & Hitem).
  apply list_elem_of_In, list_elem_of_filter in Hitem as [Hparent Hitem].
  rewrite nodeKeys_makeNode in Hk. apply list_elem_of_In in Hk.
  apply elem_of_cons in Hk as [-> | Hk].
  - exists item. split; [exact Hitem |]. split; [reflexivity | now left].
  - destruct (IH _ _ Hk) as (item' & Hin' & Hid' & [Hp | Hp]).
    + exists item'. split; [exact Hin' |]. split; [exact Hid' |].
      right. exists item. split; [exact Hitem | exact Hp].
    + exists item'. split; [exact Hin' |]. split; [exact Hid' | now right].
Qed.

(** X27: a section whose parent link names no section of the outline is
    not shown: with pairwise distinct identifiers, its key is nowhere in
    the tree handed to the tree view. *)
Theorem treeData_hides_orphans (documentData : list DocSection)
    (s : DocSection) (q : Id) :
  NoDup (List.map id documentData) ->
  s ∈ documentData ->
  parentId s = Ref q ->
  q ∉ List.map id documentData ->
  id s ∉ treeKeys (treeData documentData).
Proof.
  intros Hnd Hs Hparent Hq Hkey. unfold treeData, buildTree in Hkey.
  set (normalizedData :=
         List.map (fun item => withParentId item (orNull (parentId item)))
           documentData) in *.
  assert (Hids : List.map id normalizedData = List.map id documentData).
  { unfold normalizedData. rewrite List.map_map. reflexivity. }
  apply treeKeys_buildTreeWithin in Hkey as (item & Hitem & Hid & Hlink).
  assert (Hs' : withParentId s (orNull (parentId s)) ∈ normalizedData).
  { apply list_elem_of_In.
    apply (List.in_map
             (fun item => withParentId item (orNull (parentId item)))).
    now apply list_elem_of_In. }
  assert (item = withParentId s (orNull (parentId s))) as ->.
  { apply (NoDup_map_eq id normalizedData); try assumption.
    now rewrite Hids. }
  cbn [parentId withParentId] in Hlink. rewrite Hparent in Hlink.
  cbn [orNull] in Hlink. destruct Hlink as [Hnull | (p & Hp & [= ->])];
    [discriminate |].
  apply Hq. rewrite <- Hids. apply list_elem_of_In. apply (List.in_map id).
  now apply list_elem_of_In.
Qed.

Lemma treeData_hides_orphans_witness :
  id (mkSection (NumId 2) (Ref (NumId 9)) (js "1.1 背景") [] 500 None)
  ∉ treeKeys
      (treeData
         [mkSection (NumId 1) Null (js "1 总览") [] 500 None;
          mkSection (NumId 2) (Ref (NumId 9)) (js "1.1 背景") [] 500 None;
          mkSection (NumId 3) (Ref (NumId 2)) (js "1.1.1 现状") [] 500 None]).
Proof.
  apply (treeData_hides_orphans
           [mkSection (NumId 1) Null (js "1 总览") [] 500 None;
            mkSection (NumId 2) (Ref (NumId 9)) (js "1.1 背景") [] 500 None;
            mkSection (NumId 3) (Ref (NumId 2)) (js "1.1.1 现状") [] 500 None]
           (mkSection (NumId 2) (Ref (NumId 9)) (js "1.1 背景") [] 500 None)
           (NumId 9)).
  - apply (bool_decide_unpack _). vm_compute. reflexivity.
  - apply list_elem_of_further, list_elem_of_here.
  - reflexivity.
  - apply (bool_decide_unpack _). vm_compute. reflexivity.
Defined.

End TreeKeyFacts.

(** ** Running the streaming merge again *)

Section RealtimeAgain.
Import Outline Merge.
Variables (parentId : Id) (parentTitle : str) (parentLevel : nat).

Lemma tmpId_fresh now i : tmpId parentId now i <> parentId.
Proof.
  unfold tmpId. destruct parentId as [n | s]; [discriminate |].
  cbn [showId]. intros [= H]. apply (f_equal (@length N)) in H.
  rewrite length_app in H. cbn [length] in H. lia.
Qed.

Lemma filter_spliceAfter {A} (P : A -> Prop) `{!forall x, Decision (P x)}
    (found : option nat) (x : A) (l : list A) :
  ~ P x -> filter P (spliceAfter found [x] l) = filter P l.
Proof.
  intros Hx. unfold spliceAfter.
  set (pos := match found with Some i => S i | None => 0%nat end).
  rewrite !filter_app, filter_cons, decide_False by exact Hx.
  cbn [filter list_filter app]. rewrite <- filter_app. now rewrite take_drop.
Qed.

Lemma list_find_filter {A} (P : A -> Prop) `{!forall x, Decision (P x)}
    (l : list A) (x : A) :
  (exists i, list_find P l = Some (i, x)) <-> (exists r, filter P l = x :: r).
Proof.
  induction l as [| y l IH]; cbn [list_find].
  - split; [intros (i & Hi); discriminate | intros (r & Hr); discriminate].
  - rewrite filter_cons. destruct (decide (P y)) as [Hy | Hy].
    + split.
      * intros (i & [= _ ->]). eauto.
      * intros (r & [= -> _]). eauto.
    + rewrite <- IH. split.
      * intros (i & Hi). destruct (list_find P l) as [[j z] |];
          [| discriminate]. injection Hi as _ ->. eauto.
      * intros (i & ->). cbn. eauto.
Qed.

Lemma realtimeStep_again (now : nat -> Z) (i : nat) (m : HeadingMatch)
    (documentData : list DocSection) (existingTitles : gset str) :
  (forall k,
      getNormalizedTitle
        (fixSectionTitleNumbering parentTitle (trim (headingText m)) k)
      = getNormalizedTitle (trim (headingText m))) ->
  (forall t, t ∈ existingTitles <-> t ∈ normalizedTitles documentData) ->
  let st' := realtimeStep now parentId parentTitle parentLevel i m
               (documentData, existingTitles) in
  (forall t, t ∈ st'.2 <-> t ∈ normalizedTitles st'.1)
  /\ (forall t, t ∈ existingTitles -> t ∈ st'.2)
  /\ ((level m <= parentLevel)%nat
      \/ getNormalizedTitle (trim (headingText m))
         = getNormalizedTitle parentTitle
      \/ getNormalizedTitle (trim (headingText m)) ∈ st'.2)
  /\ filter (fun s => id s = parentId) st'.1
     = filter (fun s => id s = parentId) documentData.
Proof.
  intros Hstable Hsame. unfold realtimeStep. cbv zeta.
  destruct (level m <=? parentLevel)%nat eqn:Hlevel.
  { apply Nat.leb_le in Hlevel. cbn [fst snd].
    split; [exact Hsame |]. split; [auto |]. split; [now left | reflexivity]. }
  destruct (bool_decide (_ ∈ existingTitles)) eqn:Hex.
  { apply bool_decide_eq_true in Hex. cbn [negb andb fst snd].
    split; [exact Hsame |]. split; [auto |]. split; [auto | reflexivity]. }
  destruct (bool_decide (_ = getNormalizedTitle parentTitle)) eqn:Hpar.
  { apply bool_decide_eq_true in Hpar. cbn [negb andb fst snd].
    split; [exact Hsame |]. split; [auto |]. split; [auto | reflexivity]. }
  cbn [negb andb fst snd]. split; [| split; [| split]].
  - intros t.
    rewrite (normalizedTitles_Permutation _ _ (spliceAfter_Permutation _ _ _)).
    cbn [app normalizedTitles List.map title]. fold (normalizedTitles documentData).
    rewrite Hstable, elem_of_union, elem_of_singleton, elem_of_cons, Hsame.
    reflexivity.
  - intros t Ht. now apply elem_of_union_r.
  - right. right. apply elem_of_union_l, elem_of_singleton. reflexivity.
  - apply filter_spliceAfter. cbn [id]. apply tmpId_fresh.
Qed.

Lemma realtimeLoop_again (now : nat -> Z) (matches : list HeadingMatch) :
  (forall m k, m ∈ matches ->
      getNormalizedTitle
        (fixSectionTitleNumbering parentTitle (trim (headingText m)) k)
      = getNormalizedTitle (trim (headingText m))) ->
  forall (i : nat) (documentData : list DocSection) (existingTitles : gset str),
    (forall t, t ∈ existingTitles <-> t ∈ normalizedTitles documentData) ->
    let st' := realtimeLoop now parentId parentTitle parentLevel i matches
                 (documentData, existingTitles) in
    (forall t, t ∈ st'.2 <-> t ∈ normalizedTitles st'.1)
    /\ (forall t, t ∈ existingTitles -> t ∈ st'.2)
    /\ (forall m, m ∈ matches ->
          (level m <= parentLevel)%nat
          \/ getNormalizedTitle (trim (headingText m))
             = getNormalizedTitle parentTitle
          \/ getNormalizedTitle (trim (headingText m)) ∈ st'.2)
    /\ filter (fun s => id s = parentId) st'.1
       = filter (fun s => id s = parentId) documentData.
Proof.
  induction matches as [| m rest IH]; intros Hstable i documentData
    existingTitles Hsame; cbn [realtimeLoop].
  - cbn [fst snd]. split; [exact Hsame |]. split; [auto |].
    split; [| reflexivity]. intros m Hm. inversion Hm.
  - destruct (realtimeStep_again now i m documentData existingTitles)
      as (Hsame1 & Hmono1 & Hcover1 & Hfilter1);
      [intros k; apply Hstable; now left | exact Hsame |].
    destruct (realtimeStep now parentId parentTitle parentLevel i m
                (documentData, existingTitles)) as [d1 t1].
    cbn [fst snd] in Hsame1, Hmono1, Hcover1, Hfilter1.
    destruct (IH (fun m' k Hm' => Hstable m' k (list_elem_of_further _ _ _ Hm'))
                (S i) d1 t1 Hsame1)
      as (Hsame2 & Hmono2 & Hcover2 & Hfilter2).
    split; [exact Hsame2 |]. split; [auto |]. split; [| congruence].
    intros m' Hm'. apply elem_of_cons in Hm' as [-> | Hm']; [| now apply Hcover2].
    destruct Hcover1 as [? | [? | ?]]; auto.
Qed.

Lemma realtimeLoop_nothing_new (now : nat -> Z) (matches : list HeadingMatch) :
  forall (i : nat) (documentData : list DocSection) (existingTitles : gset str),
    (forall m, m ∈ matches ->
        (level m <= parentLevel)%nat
        \/ getNormalizedTitle (trim (headingText m))
           = getNormalizedTitle parentTitle
        \/ getNormalizedTitle (trim (headingText m)) ∈ existingTitles) ->
    realtimeLoop now parentId parentTitle parentLevel i matches
      (documentData, existingTitles)
    = (documentData, existingTitles).
Proof.
  induction matches as [| m matches IH]; intros i doc ex Hall; [reflexivity |].
  cbn [realtimeLoop].
  assert (Hstep : realtimeStep now parentId parentTitle parentLevel i m
                    (doc, ex) = (doc, ex)).
  { unfold realtimeStep. cbv zeta.
    destruct (level m <=? parentLevel)%nat eqn:Hlevel; [reflexivity |].
    apply Nat.leb_gt in Hlevel.
    destruct (Hall m) as [Hle | [Hpar | Hex]]; [now left | lia | |].
    - rewrite (bool_decide_eq_true_2 (_ = _)) by exact Hpar.
      now rewrite andb_false_r.
    - now rewrite (bool_decide_eq_true_2 (_ ∈ ex)) by exact Hex. }
  rewrite Hstep. apply IH. intros m' Hm'. apply Hall. now right.
Qed.

End RealtimeAgain.

Section RealtimeIdempotent.
Import Outline Merge.

(** X28: the streaming merge is idempotent: when renumbering a heading
    does not change its normalized form, running the merge again on its own
    result with the same text (at whatever time) adds nothing. *)
Theorem syncSubSectionsToOutlineRealtime_idempotent (now now' : nat -> Z)
    (documentData : list DocSection) (parentId : Id) (fullContent : str) :
  (forall parent m k,
      parent ∈ documentData -> id parent = parentId ->
      m ∈ matchAllHeadings fullContent ->
      getNormalizedTitle
        (fixSectionTitleNumbering (title parent) (trim (headingText m)) k)
      = getNormalizedTitle (trim (headingText m))) ->
  syncSubSectionsToOutlineRealtime now'
    (syncSubSectionsToOutlineRealtime now documentData parentId fullContent)
    parentId fullContent
  = syncSubSectionsToOutlineRealtime now documentData parentId fullContent.
Proof.
  intros Hstable. unfold syncSubSectionsToOutlineRealtime at 2.
  destruct (matchAllHeadings fullContent) as [| m0 ms] eqn:Hmatches.
  { unfold syncSubSectionsToOutlineRealtime. now rewrite Hmatches. }
  destruct (list_find _ documentData) as [[parentIndex parent] |] eqn:Hfind.
  2:{ unfold syncSubSectionsToOutlineRealtime. now rewrite Hmatches, Hfind. }
  pose proof Hfind as Hparent.
  apply list_find_Some in Hparent as (Hlookup & Hid & _).
  apply list_elem_of_lookup_2 in Hlookup.
  destruct (realtimeLoop_again parentId (title parent) (parentLevelOf parent)
              now (m0 :: ms)
              (fun m k Hm => Hstable parent m k Hlookup Hid Hm)
              0%nat documentData (list_to_set (normalizedTitles documentData)))
    as (Hsame & _ & Hcover & Hfilter).
  { intros t. apply elem_of_list_to_set. }
  set (st := realtimeLoop now parentId (title parent) (parentLevelOf parent)
               0 (m0 :: ms) _) in *.
  unfold syncSubSectionsToOutlineRealtime. rewrite Hmatches.
  assert (Hagain : exists j, list_find (fun s => id s = parentId) st.1
                             = Some (j, parent)).
  { apply list_find_filter. rewrite Hfilter. apply list_find_filter. eauto. }
  destruct Hagain as (j & ->). rewrite Hfind. fold st.
  rewrite realtimeLoop_nothing_new; [reflexivity |].
  intros m Hm. destruct (Hcover m Hm) as [? | [? | Hin]]; auto.
  right. right. apply elem_of_list_to_set. now apply Hsame.
Qed.

Lemma syncSubSectionsToOutlineRealtime_idempotent_witness :
  syncSubSectionsToOutlineRealtime (fun _ => 8)
    (syncSubSectionsToOutlineRealtime (fun _ => 0)
       [ mkSection (NumId 1) Null (js "1. 总览") [] 3000 None;
         mkSection (NumId 2) Null (js "2. 背景") [] 500 None ]
       (NumId 1)
       (join 10 [js "### 背景"; js "内容A"; js "### 目标"; js "内容B"]))
    (NumId 1)
    (join 10 [js "### 背景"; js "内容A"; js "### 目标"; js "内容B"])
  = syncSubSectionsToOutlineRealtime (fun _ => 0)
      [ mkSection (NumId 1) Null (js "1. 总览") [] 3000 None;
        mkSection (NumId 2) Null (js "2. 背景") [] 500 None ]
      (NumId 1)
      (join 10 [js "### 背景"; js "内容A"; js "### 目标"; js "内容B"]).
Proof.
  apply (syncSubSectionsToOutlineRealtime_idempotent (fun _ => 0) (fun _ => 8)
           [ mkSection (NumId 1) Null (js "1. 总览") [] 3000 None;
             mkSection (NumId 2) Null (js "2. 背景") [] 500 None ]
           (NumId 1)
           (join 10 [js "### 背景"; js "内容A"; js "### 目标"; js "内容B"])).
  intros parent m k Hparent _ Hm. apply renumbering_stable.
  - repeat (apply elem_of_cons in Hparent as [-> | Hparent]);
      [vm_compute; reflexivity .. | now apply elem_of_nil in Hparent].
  - change (matchAllHeadings _)
      with [mkMatch 0 6 3 (js "背景"); mkMatch 11 6 3 (js "目标")] in Hm.
    repeat (apply elem_of_cons in Hm as [-> | Hm]);
      [vm_compute; reflexivity .. | now apply elem_of_nil in Hm].
Defined.

End RealtimeIdempotent.

(** ** A closing bracket before the array *)

Section StrayBracket.
Import Repair Merge OutlineRequest.

(** X29: a closing square bracket that stands before the array makes the
    scan miss an array without nested brackets: the depth is below zero
    when the array opens, no start is recorded and nothing is taken. *)
Theorem outermostArray_misses_after_stray_bracket (pre mid body post : str) :
  Forall (fun c => isSquare c = false) pre ->
  Forall (fun c => isSquare c = false) mid ->
  Forall (fun c => isSquare c = false) body ->
  Forall (fun c => isSquare c = false) post ->
  outermostArray
    (pre ++ RBRACKET :: mid ++ LBRACKET :: body ++ RBRACKET :: post)
  = [].
Proof.
  intros Hpre Hmid Hbody Hpost. unfold outermostArray.
  rewrite scanArray_plain by exact Hpre. cbn [scanArray].
  change (RBRACKET =? LBRACKET)%N with false. rewrite N.eqb_refl. cbv zeta.
  cbn [Z.sub Z.add Z.opp Z.eqb Z.pos_sub andb].
  rewrite scanArray_plain by exact Hmid. cbn [scanArray].
  rewrite N.eqb_refl. cbn [Z.eqb Z.add Z.pos_sub].
  rewrite scanArray_plain by exact Hbody. cbn [scanArray].
  change (RBRACKET =? LBRACKET)%N with false. rewrite N.eqb_refl. cbv zeta.
  cbn [Z.sub Z.add Z.opp Z.eqb Z.pos_sub andb].
  rewrite <- (app_nil_r post), scanArray_plain by exact Hpost.
  reflexivity.
Qed.

Lemma outermostArray_misses_after_stray_bracket_witness :
  outermostArray
    (js "see 1) or 2" ++ RBRACKET :: js ": "
       ++ LBRACKET :: jsq "{'title':'a'}" ++ RBRACKET :: js " end")
  = [].
Proof.
  apply (outermostArray_misses_after_stray_bracket (js "see 1) or 2")
           (js ": ") (jsq "{'title':'a'}") (js " end"));
    repeat constructor.
Defined.

End StrayBracket.

(** ** The page counter: more content, never fewer pages *)

Section PaginationMore.
Import Pagination.
Local Open Scope Q_scope.

(** X30: the page count is at least one, and a taller preview never has
    fewer pages than a shorter one. *)
Theorem updatePageCount_monotone (height1 height2 : Q) (pageCount : Z) :
  height1 <= height2 ->
  (1 <= updatePageCount (Some height1) pageCount)%Z
  /\ (updatePageCount (Some height1) pageCount
      <= updatePageCount (Some height2) pageCount)%Z.
Proof.
  intros Hle. unfold updatePageCount. split; [lia |].
  apply Z.max_le_compat_l, Qceiling_resp_le.
  apply Qmult_le_compat_r; [exact Hle |].
  apply Qlt_le_weak, Qinv_lt_0_compat, page_unit_pos.
Qed.

Lemma updatePageCount_monotone_witness :
  (1 <= updatePageCount (Some 1200%Q) 7)%Z
  /\ (updatePageCount (Some 1200%Q) 7 <= updatePageCount (Some 2400%Q) 7)%Z.
Proof.
  apply (updatePageCount_monotone 1200 2400 7). vm_compute. discriminate.
Defined.

End PaginationMore.
